(** * DexieManager: a shallow embedding of the synchronisation engine

    The development follows [src/assets/custom/js/init.js]: the class
    [DexieManager] (constructor, [initializeDatabase], [deleteDatabase],
    [refreshDatabase], [countEmptyTables], [populateEmptyTables],
    [syncTable], [fetchTable], [dispatchEvent]) and the [init] handler
    of the application that creates the manager, with the three
    listeners that it registers.  The script of the page
    [src/partials/single-pokemon.html] ([generateResponseData],
    [loadEntry]) is embedded in the module [SinglePokemon].

    Modelling choices.
    - JavaScript strings are Rocq strings, one character per code unit
      (code units below 256).
    - JavaScript numbers are IEEE 754 binary64 values, [spec_float] with
      precision 53 and maximal exponent 1024; [/] and [*] are [SFdiv] and
      [SFmul], so [toFixed] sees the very double the engine computes.
    - [this] and the browser (IndexedDB, the remote API) form one explicit
      state, the [World]; every method is a state transformer that ends
      with a completion: normal, a thrown error, or [Pending] when the
      recursion of [fetchTable] did not settle within the given fuel.
    - Object maps ([Object.fromEntries], [this.db[table.name]], the rows
      of a table keyed by their primary key) are [gmap]s.
    - Of the Dexie library the model has what the class relies on:
      [version] rejects a number that is not positive, [stores] declares
      an object store for each key and defines a table property for it
      unless the handle has a member of that name already, [open] and
      [delete] succeed or fail as the environment says.  The members of
      a Dexie instance are a parameter of the environment.
    - Everything observable is appended to one trace: dispatched events,
      the calls made on the Dexie handle, the requests sent to the remote
      and the [console.error] calls of the catch handlers.  [console.log]
      diagnostics and the 600 ms pacing delay leave no mark in the model. *)

From Stdlib Require Import ZArith List String Ascii Bool Lia.
From Stdlib Require Import Floats.SpecFloat.
From stdpp Require Import base option list gmap strings.

Local Open Scope string_scope.
Local Open Scope list_scope.

(** ** JavaScript strings *)

Module JsStr.

(** White space and line terminators stripped by [String.prototype.trim],
    among the code units below 256: TAB, LF, VT, FF, CR, SP and NBSP. *)
Definition isWhiteSpace (c : ascii) : bool :=
  match nat_of_ascii c with
  | 9%nat | 10%nat | 11%nat | 12%nat | 13%nat | 32%nat | 160%nat => true
  | _ => false
  end.

Fixpoint trimStart (s : string) : string :=
  match s with
  | EmptyString => EmptyString
  | String c s' => if isWhiteSpace c then trimStart s' else s
  end.

(** [trimEnd] keeps a character when it is not white space or when
    something remains after it. *)
Fixpoint trimEnd (s : string) : string :=
  match s with
  | EmptyString => EmptyString
  | String c s' =>
      match trimEnd s' with
      | EmptyString => if isWhiteSpace c then EmptyString else String c EmptyString
      | r => String c r
      end
  end.

Definition trim (s : string) : string := trimEnd (trimStart s).

(** [stripPrefix p s] is the rest of [s] after the prefix [p], if any. *)
Fixpoint stripPrefix (p s : string) : option string :=
  match p, s with
  | EmptyString, _ => Some s
  | String a p', String b s' =>
      if Ascii.eqb a b then stripPrefix p' s' else None
  | String _ _, EmptyString => None
  end.

(** The first occurrence of [pat] in [s]: what precedes it and what
    follows it. *)
Fixpoint splitFirst (pat s : string) : option (string * string) :=
  match stripPrefix pat s with
  | Some rest => Some (EmptyString, rest)
  | None =>
      match s with
      | EmptyString => None
      | String c s' =>
          match splitFirst pat s' with
          | Some (before, after) => Some (String c before, after)
          | None => None
          end
      end
  end.

(** The replacement template of [replace] with a string pattern: the
    dollar sequences for the match, the text before and after it, and a
    literal dollar; there are no capture groups, so a dollar followed by
    digits or by [<] stays as it is. *)
Fixpoint getSubstitution (matched before after template : string) : string :=
  match template with
  | EmptyString => EmptyString
  | String "$" (String "$" t) => String "$" (getSubstitution matched before after t)
  | String "$" (String "`" t) => before +:+ getSubstitution matched before after t
  | String "$" (String "&" t) => matched +:+ getSubstitution matched before after t
  | String "$" (String "'" t) => after +:+ getSubstitution matched before after t
  | String c t => String c (getSubstitution matched before after t)
  end.

(** [s.replace(pat, rep)] for a string [pat]: only the first occurrence
    is replaced. *)
Definition replace (s pat rep : string) : string :=
  match splitFirst pat s with
  | Some (before, after) =>
      before +:+ getSubstitution pat before after rep +:+ after
  | None => s
  end.

End JsStr.

(** ** JavaScript numbers *)

Module JsNum.

Local Open Scope Z_scope.

Definition prec : Z := 53.
Definition emax : Z := 1024.

(** The double holding a natural number (array lengths and loop
    counters). *)
Definition ofNat (n : nat) : spec_float :=
  binary_normalize prec emax (Z.of_nat n) 0 false.

Definition div (x y : spec_float) : spec_float := SFdiv prec emax x y.
Definition mul (x y : spec_float) : spec_float := SFmul prec emax x y.

(** [nearestScaled f m e]: the integer [n] for which [n / 10^f] is
    closest to [m * 2^e]; of two candidates the larger one. *)
Definition nearestScaled (f : nat) (m : positive) (e : Z) : Z :=
  let scaled := Z.pos m * 10 ^ Z.of_nat f in
  match e with
  | Zneg p => (2 * scaled + 2 ^ Z.pos p) / (2 * 2 ^ Z.pos p)
  | _ => scaled * 2 ^ e
  end.

Definition digitChar (d : Z) : ascii :=
  ascii_of_nat (48 + Z.to_nat d).

Fixpoint decimalDigits (fuel : nat) (n : Z) (acc : string) : string :=
  match fuel with
  | O => acc
  | S fuel' =>
      let acc' := String (digitChar (n mod 10)) acc in
      if n / 10 =? 0 then acc' else decimalDigits fuel' (n / 10) acc'
  end.

(** The decimal representation of a non-negative integer. *)
Definition decimal (n : Z) : string :=
  decimalDigits (S (Z.to_nat (Z.log2 n))) n EmptyString.

Fixpoint zeros (k : nat) : string :=
  match k with
  | O => EmptyString
  | S k' => String "0" (zeros k')
  end.

(** Steps 8 to 10 of [Number.prototype.toFixed]: pad the digits of [n]
    to [f + 1] characters and put the point before the last [f]. *)
Definition fixedNotation (f : nat) (n : Z) : string :=
  let m := decimal n in
  let k := String.length m in
  let m := if (k <=? f)%nat then zeros (S f - k) +:+ m else m in
  let k := String.length m in
  match f with
  | O => m
  | _ => substring 0 (k - f) m +:+ "." +:+ substring (k - f) f m
  end.

(** [x.toFixed(f)].  Above 10^21 the engine switches to its
    exponential notation; the model keeps the fixed one there, a range
    no quotient [index / tables.length] reaches. *)
Definition toFixed (x : spec_float) (f : nat) : string :=
  match x with
  | S754_nan => "NaN"
  | S754_infinity false => "Infinity"
  | S754_infinity true => "-Infinity"
  | S754_zero _ => fixedNotation f 0
  | S754_finite s m e =>
      (if s then "-" else "") +:+ fixedNotation f (nearestScaled f m e)
  end.

(** [Number.MAX_SAFE_INTEGER]: up to it every integer is an exact
    double. *)
Definition maxSafeInteger : Z := 2 ^ 53 - 1.

(** The largest [length] an array can have. *)
Definition maxArrayLength : Z := 2 ^ 32 - 1.

Definition isDigit (c : ascii) : bool :=
  let n := nat_of_ascii c in ((48 <=? n) && (n <=? 57))%nat.

(** The value of a run of decimal digits, [None] when another
    character occurs. *)
Fixpoint digitsValue (s : string) (acc : Z) : option Z :=
  match s with
  | EmptyString => Some acc
  | String c s' =>
      if isDigit c
      then digitsValue s' (10 * acc + Z.of_nat (nat_of_ascii c - 48))
      else None
  end.

(** An unsigned decimal literal without exponent: its digits read as
    one integer, and the number of digits after the point. *)
Definition unsignedDecimal (s : string) : option (Z * nat) :=
  match JsStr.splitFirst "." s with
  | Some (whole, fraction) =>
      if String.eqb whole "" && String.eqb fraction "" then None
      else
        match digitsValue (whole +:+ fraction) 0 with
        | Some v => Some (v, String.length fraction)
        | None => None
        end
  | None =>
      if String.eqb s "" then None
      else
        match digitsValue s 0 with
        | Some v => Some (v, O)
        | None => None
        end
  end.

Definition signed (negative : bool) (s : string) : spec_float :=
  if String.eqb s "Infinity" then S754_infinity negative
  else
    match unsignedDecimal s with
    | Some (Zpos v, k) =>
        SFdiv prec emax (S754_finite negative v 0)
                        (S754_finite false (Z.to_pos (10 ^ Z.of_nat k)) 0)
    | Some (_, _) => S754_zero negative
    | None => S754_nan
    end.

(** [StringToNumber] for literals in fixed notation, the ones that
    [toFixed] produces: the decimal value, correctly rounded.  Literals
    with an exponent part or a radix prefix are not modelled and read as
    [NaN] here. *)
Definition stringToNumber (s : string) : spec_float :=
  match JsStr.trim s with
  | EmptyString => S754_zero false
  | String "-" u => signed true u
  | String "+" u => signed false u
  | u => signed false u
  end.

End JsNum.

(** ** JavaScript values and errors *)

(** A value as the constructor may receive it.  An object carries its own
    enumerable keys and, in [o], its reading at the type [O] that the
    methods use afterwards. *)
Inductive JsValue (O : Type) : Type :=
  | JsUndefined
  | JsNull
  | JsBoolean (b : bool)
  | JsNumber (x : spec_float)
  | JsString (s : string)
  | JsFunction
  | JsObject (keys : list string) (o : O).

Arguments JsUndefined {O}.
Arguments JsNull {O}.
Arguments JsBoolean {O} b.
Arguments JsNumber {O} x.
Arguments JsString {O} s.
Arguments JsFunction {O}.
Arguments JsObject {O} keys o.

Definition typeof {O} (v : JsValue O) : string :=
  match v with
  | JsUndefined => "undefined"
  | JsNull => "object"
  | JsBoolean _ => "boolean"
  | JsNumber _ => "number"
  | JsString _ => "string"
  | JsFunction => "function"
  | JsObject _ _ => "object"
  end.

(** [ToBoolean]. *)
Definition truthy {O} (v : JsValue O) : bool :=
  match v with
  | JsUndefined | JsNull => false
  | JsBoolean b => b
  | JsNumber (S754_zero _) | JsNumber S754_nan => false
  | JsNumber _ => true
  | JsString s => negb (String.eqb s "")
  | JsFunction => true
  | JsObject _ _ => true
  end.

Inductive JsError : Type :=
  | Error (message : string)
  | TypeError (message : string).

Definition message (e : JsError) : string :=
  match e with
  | Error m => m
  | TypeError m => m
  end.

(** ** Data model *)

Record Url : Type := { root : string; endpoint : string }.

(** A table definition of the configuration.  The object that
    [fetchTable] builds for the next page has no [schema]. *)
Record Table : Type := {
  table_name : string;
  table_schema : option string;
  table_url : Url
}.

Record Config : Type := {
  config_name : string;
  config_version : Z;
  config_tables : list Table
}.

(** A record of the remote and the row stored for it:
    [{id: record.id, meta: record}]. *)
Record Member : Type := { member_id : Z; member_fields : string }.
Record Row : Type := { row_id : Z; row_meta : Member }.

Record View : Type := { next : option string }.
Record Response : Type := {
  member : option (list Member);
  view : option View
}.

(** What [fetch(url)] followed by [response.json()] yields: the parsed
    body, or the error that one of the two awaits throws. *)
Inductive FetchResult : Type :=
  | FetchData (data : Response)
  | FetchThrows (e : JsError).

(** What a member of a Dexie instance holds, as far as a call of
    [count] or [add] on it can tell: [null], or a value that has no such
    method.  A member that holds [undefined] is not in the way of a
    table and counts as no member. *)
Inductive MemberKind : Type :=
  | HoldsNull
  | HoldsValue.

(** A Dexie handle: its name, the object stores that
    [version(..).stores(..)] declares, the table properties that the
    call defines on the handle, and the members that a Dexie instance
    has of its own or inherits ([version], [name], [open], [on],
    [tables] and the like), which depend on the release of the
    library. *)
Record Dexie : Type := {
  dexie_name : string;
  dexie_stores : gmap string (option string);
  dexie_tables : gmap string (option string);
  dexie_members : gmap string MemberKind
}.

(** The value of [this.db]: the constructor does not assign it,
    [deleteDatabase] sets it to [null]. *)
Inductive DbValue : Type :=
  | DbUndefined
  | DbNull
  | DbHandle (d : Dexie).

Record Manager : Type := {
  config : Config;
  dbLocale : string;
  userLocale : string;
  locale : option string;
  this_db : DbValue
}.

(** The handle in [this.db], when [this.db] is truthy. *)
Definition db (m : Manager) : option Dexie :=
  match this_db m with
  | DbHandle d => Some d
  | DbUndefined | DbNull => None
  end.

Inductive Detail : Type :=
  | DetailNull
  | DetailDbName (dbName : string)
  | DetailLocale (oldLocale newLocale : string)
  | DetailProgress (currentIndex totalTables : nat) (tableName : string)
                   (progress : JsValue unit).

Record CustomEvent : Type := { type : string; detail : Detail }.

Inductive Action : Type :=
  | Dispatch (event : CustomEvent)
  | NewDexie (dbName : string)
  | DexieDelete (dbName : string)
  | DexieStores (version : Z) (tables : gmap string (option string))
  | DexieOpen (dbName : string)
  | Fetch (fullUrl : string)
  | ConsoleError (text : string) (error : JsError).

(** The browser side: the databases of IndexedDB (database name, table
    name, primary key) and the trace of what was observed. *)
Record World : Type := {
  this : Manager;
  indexedDB : gmap string (gmap string (gmap Z Row));
  trace : list Action
}.

(** What the methods get from outside: the remote behind [fetch], the
    outcome of the delete and open requests, and the members of the
    Dexie instances of the library that is loaded. *)
Record Env : Type := {
  remote : string -> FetchResult;
  deleteRequest : string -> option JsError;
  openRequest : string -> option JsError;
  dexieMembers : gmap string MemberKind
}.

(** [this.db = d] for a handle, [this.db = null] for [None]. *)
Definition set_db (d : option Dexie) (m : Manager) : Manager :=
  {| config := config m; dbLocale := dbLocale m; userLocale := userLocale m;
     locale := locale m;
     this_db := match d with Some d => DbHandle d | None => DbNull end |}.

Definition set_locale (l : option string) (m : Manager) : Manager :=
  {| config := config m; dbLocale := dbLocale m; userLocale := userLocale m;
     locale := l; this_db := this_db m |}.

Definition set_this (m : Manager) (w : World) : World :=
  {| this := m; indexedDB := indexedDB w; trace := trace w |}.

Definition set_indexedDB (i : gmap string (gmap string (gmap Z Row))) (w : World) : World :=
  {| this := this w; indexedDB := i; trace := trace w |}.

Definition record (a : Action) (w : World) : World :=
  {| this := this w; indexedDB := indexedDB w; trace := trace w ++ [a] |}.

(** ** Completions and the state monad of the methods *)

Inductive Completion (A : Type) : Type :=
  | Normal (a : A)
  | Throw (e : JsError)
  | Pending.

Arguments Normal {A} a.
Arguments Throw {A} e.
Arguments Pending {A}.

Definition M (A : Type) : Type := World -> Completion A * World.

Definition ret {A} (a : A) : M A := fun w => (Normal a, w).

Definition bind {A B} (c : M A) (k : A -> M B) : M B :=
  fun w =>
    match c w with
    | (Normal a, w') => k a w'
    | (Throw e, w') => (Throw e, w')
    | (Pending, w') => (Pending, w')
    end.

Definition throw {A} (e : JsError) : M A := fun w => (Throw e, w).

Definition pending {A} : M A := fun w => (Pending, w).

(** [try { body } catch (error) { handler }]. *)
Definition tryCatch {A} (body : M A) (handler : JsError -> M A) : M A :=
  fun w =>
    match body w with
    | (Throw e, w') => handler e w'
    | r => r
    end.

Definition getThis : M Manager := fun w => (Normal (this w), w).

Definition modify (f : World -> World) : M unit := fun w => (Normal tt, f w).

Declare Scope js_scope.
Delimit Scope js_scope with js.
Notation "'let*' x := c 'in' k" := (bind c (fun x => k))
  (at level 10, x name, c at level 100, k at level 200) : js_scope.
Notation "c ;;; k" := (bind c (fun _ => k))
  (at level 100, k at level 200, right associativity) : js_scope.
Local Open Scope js_scope.

(** ** The Dexie handle and IndexedDB *)

Definition rowsOf (w : World) (dbName tableName : string) : gmap Z Row :=
  default ∅ (indexedDB w !! dbName ≫= fun tables => tables !! tableName).

(** [this.db = new Dexie(name)]. *)
Definition newDexie (E : Env) (dbName : string) : M unit :=
  fun w =>
    (Normal tt,
     record (NewDexie dbName)
       (set_this (set_db (Some {| dexie_name := dbName; dexie_stores := ∅;
                                  dexie_tables := ∅;
                                  dexie_members := dexieMembers E |}) (this w)) w)).

(** The [TypeError] of a property read on [undefined] and on [null]. *)
Definition undefinedProperty (property : string) : JsError :=
  TypeError ("Cannot read properties of undefined (reading '" +:+ property +:+ "')").

Definition nullProperty (property : string) : JsError :=
  TypeError ("Cannot read properties of null (reading '" +:+ property +:+ "')").

(** The [TypeError] of reading [property] of a [this.db] that holds no
    handle. *)
Definition noHandle (v : DbValue) (property : string) : JsError :=
  match v with
  | DbNull => nullProperty property
  | DbUndefined | DbHandle _ => undefinedProperty property
  end.

(** [this.db.name] and the like: reading a property of [this.db]. *)
Definition thisDb (property : string) : M Dexie :=
  let* m := getThis in
  match db m with
  | Some d => ret d
  | None => throw (noHandle (this_db m) property)
  end.

(** [Object.fromEntries(entries)]: a later entry overrides an earlier
    one with the same key. *)
Definition fromEntries {V} (entries : list (string * V)) : gmap string V :=
  fold_left (fun o kv => <[fst kv := snd kv]> o) entries ∅.

Definition notPositive : string := "Given version is not a positive number".

(** The table properties that [stores(tables)] defines on a handle: one
    for each key of [tables] that is not the name of a member of the
    handle.  The object store of a key that is the name of a member is
    declared all the same. *)
Definition tableProperties (members : gmap string MemberKind)
    (tables : gmap string (option string)) : gmap string (option string) :=
  map_imap (fun name schema =>
              match members !! name with
              | Some _ => None
              | None => Some schema
              end) tables.

(** Some value of [tables] is [undefined]: a table without [schema]. *)
Definition schemaMissing (tables : gmap string (option string)) : bool :=
  existsb (fun entry => negb (bool_decide (is_Some (snd entry)))) (map_to_list tables).

(** [this.db.version(version).stores(tables)].  [version] throws for a
    number below 0.1, which for an integer is one that is not positive;
    [stores] throws when it splits a schema that is [undefined].  The
    schemas that are there are taken to be ones that Dexie accepts, with
    [id] as the primary key.  The call is recorded when it returns. *)
Definition dexieStores (version : Z) (tables : gmap string (option string)) : M unit :=
  let* d := thisDb "version" in
  if (version <=? 0)%Z then throw (TypeError notPositive)
  else if schemaMissing tables then throw (undefinedProperty "split")
  else
    modify (fun w =>
      record (DexieStores version tables)
        (set_this (set_db (Some {| dexie_name := dexie_name d;
                                   dexie_stores := tables;
                                   dexie_tables := tableProperties (dexie_members d) tables;
                                   dexie_members := dexie_members d |}) (this w)) w)).

(** [await this.db.open()]: on success the database exists with every
    object store of the handle; tables that were there keep their
    rows. *)
Definition dexieOpen (E : Env) : M unit :=
  let* d := thisDb "open" in
  modify (record (DexieOpen (dexie_name d))) ;;;
  match openRequest E (dexie_name d) with
  | Some e => throw e
  | None =>
      modify (fun w =>
        let existing := default ∅ (indexedDB w !! dexie_name d) in
        let created := (fun _ => (∅ : gmap Z Row)) <$> dexie_stores d in
        set_indexedDB (<[dexie_name d := existing ∪ created]> (indexedDB w)) w)
  end.

(** [await this.db.delete()]. *)
Definition dexieDelete (E : Env) : M unit :=
  let* d := thisDb "delete" in
  modify (record (DexieDelete (dexie_name d))) ;;;
  match deleteRequest E (dexie_name d) with
  | Some e => throw e
  | None => modify (fun w => set_indexedDB (delete (dexie_name d) (indexedDB w)) w)
  end.

(** The [TypeError] of the call [this.db[table.name].method(..)] when
    [this.db[table.name]] is a member of the handle that has no such
    method. *)
Definition notAFunction (method : string) : JsError :=
  TypeError ("this.db[table.name]." +:+ method +:+ " is not a function").

(** The [TypeError] of calling [method] on [this.db[tableName]] when the
    handle has no such table property: [this.db[tableName]] is then a
    member of the handle, or [undefined]. *)
Definition noTable (d : Dexie) (tableName method : string) : JsError :=
  match dexie_members d !! tableName with
  | Some HoldsValue => notAFunction method
  | Some HoldsNull => nullProperty method
  | None => undefinedProperty method
  end.

(** [this.db[tableName]], on which [method] is about to be called. *)
Definition dexieTable (tableName : string) (method : string) : M Dexie :=
  let* d := thisDb tableName in
  match dexie_tables d !! tableName with
  | Some _ => ret d
  | None => throw (noTable d tableName method)
  end.

(** [await this.db[tableName].count()]. *)
Definition tableCount (tableName : string) : M nat :=
  let* d := dexieTable tableName "count" in
  fun w => (Normal (size (rowsOf w (dexie_name d) tableName)), w).

(** [this.db[tableName].add(row)]: the promise is not awaited, so a
    rejected insertion (a key that is already there) goes unnoticed. *)
Definition tableAdd (tableName : string) (row : Row) : M unit :=
  let* d := dexieTable tableName "add" in
  modify (fun w =>
    let rows := rowsOf w (dexie_name d) tableName in
    match rows !! row_id row with
    | Some _ => w
    | None =>
        let tables := default ∅ (indexedDB w !! dexie_name d) in
        set_indexedDB
          (<[dexie_name d := <[tableName := <[row_id row := row]> rows]> tables]> (indexedDB w)) w
    end).

(** [await fetch(fullUrl)] and [await response.json()]. *)
Definition fetchJson (E : Env) (fullUrl : string) : M Response :=
  modify (record (Fetch fullUrl)) ;;;
  match remote E fullUrl with
  | FetchData data => ret data
  | FetchThrows e => throw e
  end.

Definition consoleError (text : string) (error : JsError) : M unit :=
  modify (record (ConsoleError text error)).

(** The text that a template or [replace] makes of [this.locale]. *)
Definition localeText (l : option string) : string :=
  match l with
  | Some s => s
  | None => "undefined"
  end.

(** [data.view && data.view.next], when truthy. *)
Definition nextCursor (data : Response) : option string :=
  match view data with
  | Some v =>
      match next v with
      | Some c => if String.eqb c "" then None else Some c
      | None => None
      end
  | None => None
  end.

(** ** The class [DexieManager] *)

Definition looseNull {O} (v : JsValue O) : bool :=
  match v with
  | JsUndefined | JsNull => true
  | _ => false
  end.

(** [Object.keys(v)] of an object. *)
Definition objectKeys {O} (v : JsValue O) : list string :=
  match v with
  | JsObject keys _ => keys
  | _ => []
  end.

(** [v.trim() === ''], evaluated once [v] is known to be a string. *)
Definition trimsToEmpty {O} (v : JsValue O) : bool :=
  match v with
  | JsString s => String.eqb (JsStr.trim s) ""
  | _ => false
  end.

Definition configurationMessage : string :=
  "DexieManager: A valid, non-empty configuration object is required to initialize the database.".
Definition dbLocaleMessage : string :=
  "DexieManager: The database locale must be a non-empty string.".
Definition userLocaleMessage : string :=
  "DexieManager: The user locale must be a valid, non-empty string.".

Definition invalidConfig (config : JsValue Config) : bool :=
  looseNull config
  || negb (String.eqb (typeof config) "object")
  || (length (objectKeys config) =? 0)%nat.

Definition invalidLocale (l : JsValue unit) : bool :=
  negb (truthy l) || negb (String.eqb (typeof l) "string") || trimsToEmpty l.

(** [new DexieManager(config, dbLocale, userLocale)].  The three checks
    run in the order of the source; [this.db] is not assigned.  The last
    branch of each [match] is behind the check above it and cannot be
    reached. *)
Definition constructor (config : JsValue Config) (dbLocale userLocale : JsValue unit)
  : Completion Manager :=
  if invalidConfig config then Throw (Error configurationMessage)
  else
    match config with
    | JsObject _ thisConfig =>
        if invalidLocale dbLocale then Throw (Error dbLocaleMessage)
        else
          match dbLocale with
          | JsString thisDbLocale =>
              if invalidLocale userLocale then Throw (Error userLocaleMessage)
              else
                match userLocale with
                | JsString thisUserLocale =>
                    Normal {| config := thisConfig;
                              dbLocale := thisDbLocale;
                              userLocale := thisUserLocale;
                              locale := None;
                              this_db := DbUndefined |}
                | _ => Throw (Error userLocaleMessage)
                end
          | _ => Throw (Error dbLocaleMessage)
          end
    | _ => Throw (Error configurationMessage)
    end.

Definition dispatchEvent (type : string) (detail : Detail) : M unit :=
  modify (record (Dispatch {| type := type; detail := detail |})).

Definition noDatabaseToDelete : string := "DexieManager: No database found to delete.".
Definition noDatabaseToRefresh : string := "DexieManager: No database found to refresh.".
Definition noDatabase : string := "DexieManager: No database found.".
Definition failedToDelete : string := "DexieManager: Failed to delete the database: ".
Definition failedToRefresh : string := "DexieManager: Failed to refresh the database: ".
Definition failedToConnect : string := "DexieManager: Failed to connect to the database: ".
Definition failedToInitialize : string := "DexieManager: Failed to initialize the database: ".

Definition deleteDatabase (E : Env) : M unit :=
  tryCatch
    (let* m := getThis in
     match db m with
     | None => throw (Error noDatabaseToDelete)
     | Some _ =>
         (let* d := thisDb "name" in
          dispatchEvent "database:beforeDelete" (DetailDbName (dexie_name d))) ;;;
         dexieDelete E ;;;
         (let* d := thisDb "name" in
          dispatchEvent "database:afterDelete" (DetailDbName (dexie_name d))) ;;;
         modify (fun w => set_this (set_db None (this w)) w)
     end)
    (fun error => throw (Error (failedToDelete +:+ message error))).

(** The part of [initializeDatabase] that its caller awaits.  The source
    then starts [countEmptyTables().then(..)] without awaiting it: that
    callback is [populateOnceConnected] below. *)
Definition initializeDatabase (E : Env) : M unit :=
  tryCatch
    (modify (fun w => set_this (set_locale (Some (userLocale (this w))) (this w)) w) ;;;
     let* m := getThis in
     dispatchEvent "database:beforeCreate" (DetailDbName (config_name (config m))) ;;;
     newDexie E (config_name (config m)) ;;;
     (if negb (String.eqb (dbLocale m) (userLocale m)) then
        deleteDatabase E ;;;
        dispatchEvent "database:localeChanged" (DetailLocale (dbLocale m) (userLocale m)) ;;;
        newDexie E (config_name (config m))
      else ret tt) ;;;
     (let* d := thisDb "name" in
      dispatchEvent "database:afterCreate" (DetailDbName (dexie_name d))) ;;;
     let tables :=
       fromEntries (map (fun table => (table_name table, table_schema table))
                        (config_tables (config m))) in
     dexieStores (config_version (config m)) tables ;;;
     tryCatch
       ((let* d := thisDb "name" in
         dispatchEvent "database:beforeConnect" (DetailDbName (dexie_name d))) ;;;
        dexieOpen E ;;;
        (let* d := thisDb "name" in
         dispatchEvent "database:afterConnect" (DetailDbName (dexie_name d))))
       (fun error => throw (Error (failedToConnect +:+ message error))))
    (fun error => throw (Error (failedToInitialize +:+ message error))).

Definition refreshDatabase (E : Env) : M unit :=
  let* m := getThis in
  match db m with
  | None => throw (Error noDatabaseToRefresh)
  | Some d =>
      dispatchEvent "database:beforeRefresh" (DetailDbName (dexie_name d)) ;;;
      tryCatch
        (deleteDatabase E ;;;
         initializeDatabase E ;;;
         let* d' := thisDb "name" in
         dispatchEvent "database:afterRefresh" (DetailDbName (dexie_name d')))
        (fun error => throw (Error (failedToRefresh +:+ message error)))
  end.

(** The loop of [countEmptyTables]; [emptyTables] is the array built so
    far. *)
Fixpoint countEmptyTables_for (tables emptyTables : list Table) : M (list Table) :=
  match tables with
  | [] => ret emptyTables
  | table :: rest =>
      let* count := tableCount (table_name table) in
      if (count =? 0)%nat
      then countEmptyTables_for rest (emptyTables ++ [table])
      else countEmptyTables_for rest emptyTables
  end.

Definition countEmptyTables : M (list Table) :=
  let* m := getThis in
  countEmptyTables_for (config_tables (config m)) [].

Definition addRecord (tableName : string) (r : Member) : M unit :=
  tableAdd tableName {| row_id := member_id r; row_meta := r |}.

(** [data.member.forEach(record => ..add(..))]. *)
Fixpoint forEachAdd (tableName : string) (records : list Member) : M unit :=
  match records with
  | [] => ret tt
  | r :: rest => addRecord tableName r ;;; forEachAdd tableName rest
  end.

Definition fullUrlOf (m : Manager) (table : Table) : string :=
  JsStr.replace (root (table_url table) +:+ endpoint (table_url table))
                "{locale}" (localeText (locale m)).

Definition nextPage (table : Table) (cursor : string) : Table :=
  {| table_name := table_name table;
     table_schema := None;
     table_url := {| root := root (table_url table); endpoint := cursor |} |}.

Definition fetchErrorText (table : Table) : string :=
  "DexieManager: Error fetching data for the table '" +:+ table_name table +:+ "':".

Definition syncErrorText (table : Table) : string :=
  "Error syncing table '" +:+ table_name table +:+ "':".

(** [fetchTable(table)]; [fuel] bounds the number of further pages that
    the recursion may follow. *)
Fixpoint fetchTable (fuel : nat) (E : Env) (table : option Table) : M unit :=
  let* m := getThis in
  match db m with
  | None => throw (Error noDatabase)
  | Some _ =>
      match table with
      | None => ret tt
      | Some table =>
          tryCatch
            (let* data := fetchJson E (fullUrlOf m table) in
             match member data with
             | Some ((_ :: _) as records) =>
                 forEachAdd (table_name table) records ;;;
                 match nextCursor data with
                 | Some cursor =>
                     match fuel with
                     | O => pending
                     | S fuel' => fetchTable fuel' E (Some (nextPage table cursor))
                     end
                 | None => ret tt
                 end
             | _ => ret tt
             end)
            (fun error => consoleError (fetchErrorText table) error)
      end
  end.

Definition syncTable (fuel : nat) (E : Env) (table : option Table) : M unit :=
  let* m := getThis in
  match db m with
  | None => throw (Error noDatabase)
  | Some _ =>
      match table with
      | None => ret tt
      | Some table =>
          tryCatch
            (let* count := tableCount (table_name table) in
             if (count =? 0)%nat then fetchTable fuel E (Some table) else ret tt)
            (fun error => consoleError (syncErrorText table) error)
      end
  end.

(** [(index / tables.length).toFixed(2)]. *)
Definition progressOf (index total : nat) : string :=
  JsNum.toFixed (JsNum.div (JsNum.ofNat index) (JsNum.ofNat total)) 2.

(** The loop of [populateEmptyTables]: [total] is [tables.length] of the
    whole array, [index] the counter. *)
Fixpoint populateEmptyTables_for (fuel : nat) (E : Env) (total : nat)
    (tables : list Table) (index : nat) : M unit :=
  match tables with
  | [] => ret tt
  | table :: rest =>
      syncTable fuel E (Some table) ;;;
      let progress := progressOf index total in
      dispatchEvent "database:progress"
        (DetailProgress index total (table_name table) (JsString progress)) ;;;
      populateEmptyTables_for fuel E total rest (S index)
  end.

Definition populateEmptyTables (fuel : nat) (E : Env) (tables : list Table) : M unit :=
  populateEmptyTables_for fuel E (length tables) tables 1 ;;;
  dispatchEvent "database:ready" DetailNull.

(** The callback that [initializeDatabase] hands to
    [countEmptyTables().then(..)]. *)
Definition populateOnceConnected (fuel : nat) (E : Env) : M unit :=
  let* emptyTables := countEmptyTables in
  if (0 <? length emptyTables)%nat
  then populateEmptyTables fuel E emptyTables
  else dispatchEvent "database:ready" DetailNull.

(** ** Observations on worlds and traces *)

(** The events of a trace, in the order of their dispatch. *)
Fixpoint dispatched (t : list Action) : list CustomEvent :=
  match t with
  | [] => []
  | Dispatch e :: t' => e :: dispatched t'
  | _ :: t' => dispatched t'
  end.

Definition ofType (ty : string) (events : list CustomEvent) : list CustomEvent :=
  filter (fun e => type e = ty) events.

(** The number of rows of a table of the database behind the handle. *)
Definition rowCount (w : World) (d : Dexie) (table : Table) : nat :=
  size (rowsOf w (dexie_name d) (table_name table)).

(** The handle has a table property for every table of the list. *)
Definition bindsAll (d : Dexie) (tables : list Table) : bool :=
  forallb (fun table => bool_decide (is_Some (dexie_tables d !! table_name table))) tables.

(** [settles fuel E m table]: the chain of cursors that starts at the
    page of [table] ends within [fuel] further pages, by a failure, by a
    page without members or by a page without cursor. *)
Fixpoint settles (fuel : nat) (E : Env) (m : Manager) (table : Table) : bool :=
  match remote E (fullUrlOf m table) with
  | FetchThrows _ => true
  | FetchData data =>
      match member data with
      | Some (_ :: _) =>
          match nextCursor data with
          | Some cursor =>
              match fuel with
              | O => false
              | S fuel' => settles fuel' E m (nextPage table cursor)
              end
          | None => true
          end
      | _ => true
      end
  end.

Definition progressEvent (total index : nat) (table : Table) : CustomEvent :=
  {| type := "database:progress";
     detail := DetailProgress index total (table_name table)
                 (JsString (progressOf index total)) |}.

(** The progress events of a run over [tables] that starts counting at
    [index]. *)
Fixpoint progressEvents (total : nat) (tables : list Table) (index : nat)
  : list CustomEvent :=
  match tables with
  | [] => []
  | table :: rest => progressEvent total index table :: progressEvents total rest (S index)
  end.

Definition readyEvent : CustomEvent :=
  {| type := "database:ready"; detail := DetailNull |}.

Definition currentIndexOf (e : CustomEvent) : option nat :=
  match detail e with
  | DetailProgress index _ _ _ => Some index
  | _ => None
  end.

Definition progressValueOf (e : CustomEvent) : option (JsValue unit) :=
  match detail e with
  | DetailProgress _ _ _ progress => Some progress
  | _ => None
  end.

(** ** The [database:progress] listener of the application *)

(** [ToNumber]; an object or a function reads as [NaN]. *)
Definition toNumber (v : JsValue unit) : spec_float :=
  match v with
  | JsUndefined => S754_nan
  | JsNull => S754_zero false
  | JsBoolean b => if b then JsNum.ofNat 1 else S754_zero false
  | JsNumber x => x
  | JsString s => JsNum.stringToNumber s
  | JsFunction => S754_nan
  | JsObject _ _ => S754_nan
  end.

(** The argument of [progressDialog.setProgress]:
    [event.detail.progress * 100]. *)
Definition listenerProgress (progress : JsValue unit) : spec_float :=
  JsNum.mul (toNumber progress) (JsNum.ofNat 100).

(** [a < b] and [a <= b] between the numbers that two values coerce
    to. *)
Definition numericLt (a b : JsValue unit) : bool :=
  SFltb (toNumber a) (toNumber b).

Definition numericLe (a b : JsValue unit) : bool :=
  SFleb (toNumber a) (toNumber b).

(** ** Notions used in the statements *)

(** A step is quiet when it keeps [this], dispatches nothing, only
    appends to the trace and keeps every row that is stored. *)
Definition quiet (w w' : World) : Prop :=
  this w' = this w
  /\ dispatched (trace w') = dispatched (trace w)
  /\ (exists rest, trace w' = trace w ++ rest)
  /\ (forall dn tn k r, rowsOf w dn tn !! k = Some r -> rowsOf w' dn tn !! k = Some r).

Definition quietM {A} (c : M A) : Prop := forall w, quiet w (c w).2.

(** One page of [fetchTable], once its two guards are passed: the body
    of its [try] with its [catch]. *)
Definition fetchPage (fuel : nat) (E : Env) (m : Manager) (table : Table) : M unit :=
  tryCatch
    (let* data := fetchJson E (fullUrlOf m table) in
     match member data with
     | Some ((_ :: _) as records) =>
         forEachAdd (table_name table) records ;;;
         match nextCursor data with
         | Some cursor =>
             match fuel with
             | O => pending
             | S fuel' => fetchTable fuel' E (Some (nextPage table cursor))
             end
         | None => ret tt
         end
     | _ => ret tt
     end)
    (fun error => consoleError (fetchErrorText table) error).

(** The table object that [initializeDatabase] hands to [stores]. *)
Definition storesOf (c : Config) : gmap string (option string) :=
  fromEntries (map (fun table => (table_name table, table_schema table)) (config_tables c)).

Definition lifecycle (type dbName : string) : Action :=
  Dispatch {| type := type; detail := DetailDbName dbName |}.

Definition localeChanged (oldLocale newLocale : string) : Action :=
  Dispatch {| type := "database:localeChanged"; detail := DetailLocale oldLocale newLocale |}.

(** What [initializeDatabase] leaves in the trace from
    [database:beforeConnect] on. *)
Definition connecting (E : Env) (dbName : string) : list Action :=
  [lifecycle "database:beforeConnect" dbName; DexieOpen dbName] ++
  match openRequest E dbName with
  | None => [lifecycle "database:afterConnect" dbName]
  | Some _ => []
  end.

(** [version(..).stores(..)] accepts the configuration: the version is
    positive and no table is without schema. *)
Definition storable (c : Config) : bool :=
  (0 <? config_version c)%Z && negb (schemaMissing (storesOf c)).

(** No table of the list is named after a member of the Dexie
    instances. *)
Definition unshadowed (E : Env) (tables : list Table) : bool :=
  forallb (fun table => bool_decide (dexieMembers E !! table_name table = None)) tables.

(** The handle that [initializeDatabase] leaves in [this.db] once the
    schemas are bound. *)
Definition boundHandle (E : Env) (c : Config) : Dexie :=
  {| dexie_name := config_name c;
     dexie_stores := storesOf c;
     dexie_tables := tableProperties (dexieMembers E) (storesOf c);
     dexie_members := dexieMembers E |}.

(** What [initializeDatabase] leaves in the trace from the schema
    binding on: nothing when [version(..).stores(..)] throws. *)
Definition binding (E : Env) (c : Config) : list Action :=
  if storable c
  then DexieStores (config_version c) (storesOf c) :: connecting E (config_name c)
  else [].

(** The vocabulary of the constructor's contract. *)
Definition absent {O} (v : JsValue O) : Prop := v = JsUndefined \/ v = JsNull.

Definition badConfig (v : JsValue Config) : Prop :=
  absent v \/ typeof v <> "object" \/ objectKeys v = [].

Definition blank (v : JsValue unit) : Prop :=
  exists s, v = JsString s /\ JsStr.trim s = "".

Definition badLocale (v : JsValue unit) : Prop :=
  absent v \/ typeof v <> "string" \/ blank v.

(** The handle that a construction leaves behind. *)
Definition handleOf (r : Completion Manager) : option Dexie :=
  match r with
  | Normal m => db m
  | _ => None
  end.

(** A step only appends to the trace. *)
Definition growsM {A} (c : M A) : Prop :=
  forall w, exists rest, trace (c w).2 = trace w ++ rest.

(** The hundredths that [toFixed(2)] prints for [index / total]. *)
Definition hundredths (index total : nat) : Z :=
  match JsNum.div (JsNum.ofNat index) (JsNum.ofNat total) with
  | S754_finite _ m e => JsNum.nearestScaled 2 m e
  | _ => 0%Z
  end.

(** The texts [0.00] to [1.00], up to [top] hundredths, read as numbers
    in the order of their hundredths. *)
Definition orderedUpTo (top : nat) : bool :=
  forallb (fun c =>
    forallb (fun c' =>
      implb (c <=? c')%nat
            (numericLe (JsString (JsNum.fixedNotation 2 (Z.of_nat c)))
                       (JsString (JsNum.fixedNotation 2 (Z.of_nat c')))))
      (seq 0 (S top)))
    (seq 0 (S top)).

(** The progress values of two consecutive tables, for every table of a
    run over [total] tables, compare as strictly increasing numbers. *)
Definition strictUpTo (total : nat) : bool :=
  forallb (fun index => numericLt (JsString (progressOf index total))
                                  (JsString (progressOf (S index) total)))
          (seq 1 (total - 1)).

(** ** Scenarios used to exercise the statements *)

Module Scenario.

Definition pokemon : Table :=
  {| table_name := "pokemon"; table_schema := Some "id, name";
     table_url := {| root := "https://pokedex.test"; endpoint := "/api/{locale}/pokemon" |} |}.

Definition berries : Table :=
  {| table_name := "berries"; table_schema := Some "id";
     table_url := {| root := "https://pokedex.test"; endpoint := "/api/{locale}/berries" |} |}.

Definition pokedex : Config :=
  {| config_name := "pokedex"; config_version := 1; config_tables := [pokemon; berries] |}.

Definition bulbasaur : Member := {| member_id := 1; member_fields := "bulbasaur" |}.
Definition ivysaur : Member := {| member_id := 2; member_fields := "ivysaur" |}.

Definition firstPage : Response :=
  {| member := Some [bulbasaur];
     view := Some {| next := Some "/api/{locale}/pokemon?page=2" |} |}.

Definition lastPage : Response :=
  {| member := Some [ivysaur]; view := None |}.

(** A page without members that still names a next page. *)
Definition hollowPage : Response :=
  {| member := Some [];
     view := Some {| next := Some "/api/{locale}/pokemon?page=2" |} |}.

Definition failedToFetch : JsError := TypeError "Failed to fetch".

(** Some members of a Dexie instance. *)
Definition members : gmap string MemberKind :=
  list_to_map [("name", HoldsValue); ("version", HoldsValue); ("open", HoldsValue);
               ("on", HoldsValue); ("tables", HoldsValue); ("idbdb", HoldsNull)].

Definition serve (pages : list (string * FetchResult)) (fullUrl : string) : FetchResult :=
  default (FetchThrows failedToFetch)
          ((list_to_map pages : gmap string FetchResult) !! fullUrl).

(** Both pages of [pokemon] are served; every other request fails. *)
Definition healthy : Env :=
  {| remote := serve [("https://pokedex.test/api/en/pokemon", FetchData firstPage);
                      ("https://pokedex.test/api/en/pokemon?page=2", FetchData lastPage)];
     deleteRequest := fun _ => None;
     openRequest := fun _ => None;
     dexieMembers := members |}.


Definition hollow : Env :=
  {| remote := serve [("https://pokedex.test/api/en/pokemon", FetchData hollowPage);
                      ("https://pokedex.test/api/en/pokemon?page=2", FetchData lastPage)];
     deleteRequest := fun _ => None;
     openRequest := fun _ => None;
     dexieMembers := members |}.

Definition offline : Env :=
  {| remote := serve [];
     deleteRequest := fun _ => None;
     openRequest := fun _ => None;
     dexieMembers := members |}.

(** The delete request of IndexedDB is refused. *)
Definition deleteRefused : Env :=
  {| remote := serve [];
     deleteRequest := fun _ => Some (Error "The operation is insecure.");
     openRequest := fun _ => None;
     dexieMembers := members |}.

(** A manager as the constructor leaves it, in a browser without
    databases. *)
Definition constructed (storedLocale activeLocale : string) : World :=
  {| this := {| config := pokedex; dbLocale := storedLocale; userLocale := activeLocale;
                locale := None; this_db := DbUndefined |};
     indexedDB := ∅;
     trace := [] |}.

(** The same manager once [initializeDatabase] has connected it, and the
    handle that it then holds. *)
Definition connected : World := snd (initializeDatabase offline (constructed "en" "en")).

Definition handle : Dexie := boundHandle offline pokedex.

Definition numbered (i : nat) : Table :=
  {| table_name := "t" +:+ JsNum.decimal (Z.of_nat i); table_schema := Some "id";
     table_url := {| root := "https://pokedex.test"; endpoint := "/api/{locale}/t" |} |}.

(** One hundred and one tables, [t1] to [t101], their configuration and
a manager connected to it. *)
Definition manyTables : list Table := map numbered (seq 1 101).

Definition wide : Config :=
{| config_name := "wide"; config_version := 1; config_tables := manyTables |}.

Definition wideConnected : World :=
snd (initializeDatabase offline
       {| this := {| config := wide; dbLocale := "en"; userLocale := "en";
                     locale := None; this_db := DbUndefined |};
          indexedDB := ∅;
          trace := [] |}).

End Scenario.

(** ** The lifecycle and the population, beyond single calls *)

(** The manager once [initializeDatabase] has bound the schemas. *)
Definition initialized (E : Env) (m : Manager) : Manager :=
  {| config := config m; dbLocale := dbLocale m; userLocale := userLocale m;
     locale := Some (userLocale m); this_db := DbHandle (boundHandle E (config m)) |}.

(** What the locale check of [initializeDatabase] adds to the trace. *)
Definition resetting (m : Manager) : list Action :=
  if String.eqb (dbLocale m) (userLocale m) then []
  else [lifecycle "database:beforeDelete" (config_name (config m));
        DexieDelete (config_name (config m));
        lifecycle "database:afterDelete" (config_name (config m));
        localeChanged (dbLocale m) (userLocale m);
        NewDexie (config_name (config m))].

(** The trace of an [initializeDatabase] up to the schema binding. *)
Definition creating (m : Manager) : list Action :=
  [lifecycle "database:beforeCreate" (config_name (config m));
   NewDexie (config_name (config m))]
  ++ resetting m
  ++ [lifecycle "database:afterCreate" (config_name (config m));
      DexieStores (config_version (config m)) (storesOf (config m))].

(** The databases of the browser once a handle named [dbName] with the
    table properties [tables] is opened. *)
Definition opened (dbName : string) (tables : gmap string (option string))
    (databases : gmap string (gmap string (gmap Z Row)))
  : gmap string (gmap string (gmap Z Row)) :=
  <[dbName := default ∅ (databases !! dbName) ∪ ((fun _ => (∅ : gmap Z Row)) <$> tables)]>
    databases.

(** The databases that the locale check leaves: all of them, or all but
    the one of the manager. *)
Definition afterReset (m : Manager) (databases : gmap string (gmap string (gmap Z Row)))
  : gmap string (gmap string (gmap Z Row)) :=
  if String.eqb (dbLocale m) (userLocale m) then databases
  else delete (config_name (config m)) databases.

(** What no method changes: the configuration and the two locales that
    the constructor received. *)
Definition sameSetup (m m' : Manager) : Prop :=
  config m' = config m /\ dbLocale m' = dbLocale m /\ userLocale m' = userLocale m.

(** A handle, when there is one, is named after the configuration, and
    [this.locale] is then the locale of the user. *)
Definition coherent (m : Manager) : Prop :=
  forall d, db m = Some d ->
    dexie_name d = config_name (config m) /\ locale m = Some (userLocale m).

Definition keepsSetup {A} (c : M A) : Prop :=
  forall w, sameSetup (this w) (this (c w).2)
            /\ (coherent (this w) -> coherent (this (c w).2)).

(** A step that leaves [this] as it is. *)
Definition keepsThis {A} (c : M A) : Prop := forall w, this (c w).2 = this w.

(** [initializeDatabase] together with the population that its last
    statement starts: [countEmptyTables().then(..)] is not awaited, its
    callback runs once the awaited part is over. *)
Definition initializeThenPopulate (fuel : nat) (E : Env) : M unit :=
  initializeDatabase E ;;; populateOnceConnected fuel E.

(** The row that [fetchTable] stores for a member. *)
Definition rowOf (r : Member) : Row := {| row_id := member_id r; row_meta := r |}.

(** The first member of a list that has the identifier [k]. *)
Definition firstWithId (k : Z) (records : list Member) : option Member :=
  find (fun r => (member_id r =? k)%Z) records.

(** The members of the pages that a [fetchTable] goes through, in the
    order of their arrival. *)
Fixpoint membersOf (fuel : nat) (E : Env) (m : Manager) (table : Table) : list Member :=
  match remote E (fullUrlOf m table) with
  | FetchThrows _ => []
  | FetchData data =>
      match member data with
      | Some ((_ :: _) as records) =>
          records ++
          match nextCursor data with
          | Some cursor =>
              match fuel with
              | O => []
              | S fuel' => membersOf fuel' E m (nextPage table cursor)
              end
          | None => []
          end
      | _ => []
      end
  end.

(** The requests that a [fetchTable] sends, and the failure that it
    logs when the last of them throws. *)
Fixpoint requestsOf (fuel : nat) (E : Env) (m : Manager) (table : Table) : list Action :=
  Fetch (fullUrlOf m table) ::
  match remote E (fullUrlOf m table) with
  | FetchThrows e => [ConsoleError (fetchErrorText table) e]
  | FetchData data =>
      match member data with
      | Some (_ :: _) =>
          match nextCursor data with
          | Some cursor =>
              match fuel with
              | O => []
              | S fuel' => requestsOf fuel' E m (nextPage table cursor)
              end
          | None => []
          end
      | _ => []
      end
  end.

(** The character [c] occurs in [s]. *)
Fixpoint hasChar (c : ascii) (s : string) : bool :=
  match s with
  | EmptyString => false
  | String a s' => Ascii.eqb a c || hasChar c s'
  end.

(** Some character of [s] is not white space. *)
Fixpoint hasVisible (s : string) : bool :=
  match s with
  | EmptyString => false
  | String c s' => negb (JsStr.isWhiteSpace c) || hasVisible s'
  end.

(** The first page of the table arrives and has members. *)
Definition stocks (E : Env) (m : Manager) (table : Table) : bool :=
  match remote E (fullUrlOf m table) with
  | FetchData data =>
      match member data with
      | Some (_ :: _) => true
      | _ => false
      end
  | FetchThrows _ => false
  end.

(** Every stored row is still stored. *)
Definition rowsKept (w w' : World) : Prop :=
  forall dn tn k r, rowsOf w dn tn !! k = Some r -> rowsOf w' dn tn !! k = Some r.

(** What the population of tables that are bound and empty leaves in the
    trace, counting from [index]: for each table its requests, then its
    progress event. *)
Fixpoint populationTrace (fuel : nat) (E : Env) (m : Manager) (total : nat)
    (tables : list Table) (index : nat) : list Action :=
  match tables with
  | [] => []
  | table :: rest =>
      requestsOf fuel E m table
      ++ [Dispatch (progressEvent total index table)]
      ++ populationTrace fuel E m total rest (S index)
  end.

(** The texts [0.00] to [1.00], up to [top] hundredths: each has four
    characters, and the listener makes of it a progress between 0 and
    100. *)
Definition inRangeUpTo (top : nat) : bool :=
  forallb (fun c =>
    let text := JsNum.fixedNotation 2 (Z.of_nat c) in
    (String.length text =? 4)%nat
    && SFleb (S754_zero false) (listenerProgress (JsString text))
    && SFleb (listenerProgress (JsString text)) (JsNum.ofNat 100))
    (seq 0 (S top)).

(** ** The application around the manager *)

(** What the [init] handler of the application and its listeners do to
    the page: the calls on the progress dialog and on the toasts. *)
Inductive UiCall : Type :=
  | DialogProgress (title : string)
  | SetText (text : string)
  | SetProgress (progress : spec_float)
  | DialogClose
  | ToastShow (text cssClass : string).

(** The page: [localStorage] and the calls made on the interface. *)
Record Shell : Type := {
  localStorage : gmap string string;
  ui : list UiCall
}.

(** [localStorage.getItem(key)]: the stored string, or [null]. *)
Definition getItem (key : string) (s : Shell) : JsValue unit :=
  match localStorage s !! key with
  | Some value => JsString value
  | None => JsNull
  end.

Definition setItem (key value : string) (s : Shell) : Shell :=
  {| localStorage := <[key := value]> (localStorage s); ui := ui s |}.

Definition call (c : UiCall) (s : Shell) : Shell :=
  {| localStorage := localStorage s; ui := ui s ++ [c] |}.

(** [value || fallback]. *)
Definition orElse (value fallback : JsValue unit) : JsValue unit :=
  if truthy value then value else fallback.

(** [localStorage.getItem(key) || 'en']. *)
Definition storedLocale (key : string) (s : Shell) : JsValue unit :=
  orElse (getItem key s) (JsString "en").

(** The listener of [database:localeChanged].  On a detail without the
    two properties [setItem] stores the text of [undefined]; on a [null]
    detail the first read throws and nothing is stored. *)
Definition onLocaleChanged (event : CustomEvent) (s : Shell) : Shell :=
  match detail event with
  | DetailNull => s
  | DetailLocale oldLocale newLocale =>
      setItem "userLocale" oldLocale (setItem "dbLocale" newLocale s)
  | _ => setItem "userLocale" "undefined" (setItem "dbLocale" "undefined" s)
  end.

(** The listener of [database:progress]. *)
Definition onProgress (event : CustomEvent) (s : Shell) : Shell :=
  let s := call (SetText "Populating Database") s in
  match detail event with
  | DetailNull => s
  | DetailProgress _ _ _ progress => call (SetProgress (listenerProgress progress)) s
  | _ => call (SetProgress (listenerProgress JsUndefined)) s
  end.

(** The listener of [database:ready]. *)
Definition onReady (event : CustomEvent) (s : Shell) : Shell :=
  call (ToastShow "Database Ready" "color-green") (call DialogClose s).

(** What [eventTarget.dispatchEvent(event)] runs once the three
    listeners are registered: the one of the event's type. *)
Definition deliver (event : CustomEvent) (s : Shell) : Shell :=
  if String.eqb (type event) "database:localeChanged" then onLocaleChanged event s
  else if String.eqb (type event) "database:progress" then onProgress event s
  else if String.eqb (type event) "database:ready" then onReady event s
  else s.

Definition deliverAll (events : list CustomEvent) (s : Shell) : Shell :=
  fold_left (fun s event => deliver event s) events s.

Definition failedToLoad : string := "Failed to load Dexie Manager: ".

(** The outcome of the [init] handler: its completion, the page, and
    [app.dbManager] with what it went through. *)
Record Launched : Type := {
  completion : Completion unit;
  shell : Shell;
  dbManager : option World
}.

(** The [init] handler that creates the manager.  [imported] is the
    failure of [import('dexie-manager')], if any; [database] is
    [app.config.database]; [databases] are the databases of the
    browser.  [initializeDatabase()] is called without [await]: what it
    throws does not reach the [catch] of the handler. *)
Definition onInit (fuel : nat) (E : Env) (imported : option JsError)
    (database : JsValue Config)
    (databases : gmap string (gmap string (gmap Z Row))) (s : Shell) : Launched :=
  match imported with
  | Some error =>
      {| completion := Throw (Error (failedToLoad +:+ message error));
         shell := s; dbManager := None |}
  | None =>
      let dbLocale := storedLocale "dbLocale" s in
      let userLocale := storedLocale "userLocale" s in
      match constructor database dbLocale userLocale with
      | Normal manager =>
          let s := call (DialogProgress "Initializing Database") s in
          let w := (initializeThenPopulate fuel E
                      {| this := manager; indexedDB := databases; trace := [] |}).2 in
          {| completion := Normal tt;
             shell := deliverAll (dispatched (trace w)) s;
             dbManager := Some w |}
      | Throw error =>
          {| completion := Throw (Error (failedToLoad +:+ message error));
             shell := s; dbManager := None |}
      | Pending => {| completion := Pending; shell := s; dbManager := None |}
      end
  end.

(** The text that [storedLocale] yields: the stored one unless it is
    missing or empty. *)
Definition localeOrEn (key : string) (s : Shell) : string :=
  match localStorage s !! key with
  | Some value => if String.eqb value "" then "en" else value
  | None => "en"
  end.

(** The interface calls that the listeners make for an event. *)
Definition uiOf (event : CustomEvent) : list UiCall :=
  ui (deliver event {| localStorage := ∅; ui := [] |}).

(** The calls of the progress listener for the table [index] of
    [total]. *)
Definition progressCalls (total index : nat) : list UiCall :=
  [SetText "Populating Database";
   SetProgress (listenerProgress (JsString (progressOf index total)))].

(** A stored locale that is not empty and has only white space. *)
Definition blankStored (key : string) (s : Shell) : bool :=
  match localStorage s !! key with
  | Some value => negb (String.eqb value "") && negb (hasVisible value)
  | None => false
  end.

(** The manager that the handler constructs from the configuration
    [c] and the page, and the world in which it starts. *)
Definition managerOf (c : Config) (s : Shell) : Manager :=
  {| config := c; dbLocale := localeOrEn "dbLocale" s;
     userLocale := localeOrEn "userLocale" s; locale := None; this_db := DbUndefined |}.

Definition launchWorld (c : Config)
    (databases : gmap string (gmap string (gmap Z Row))) (s : Shell) : World :=
  {| this := managerOf c s; indexedDB := databases; trace := [] |}.

(** The events of the population are progress events and
    [database:ready]. *)
Definition populating (e : CustomEvent) : Prop :=
  type e = "database:progress" \/ type e = "database:ready".

(** ** The page [single-pokemon.html] *)

Module SinglePokemon.

(** A value that [JSON.parse] returns. *)
#[local] Unset Elimination Schemes.
Inductive Json : Type :=
  | JNull
  | JBool (b : bool)
  | JNumber (x : spec_float)
  | JString (s : string)
  | JArray (items : list Json)
  | JObject (members : list (string * Json)).
#[local] Set Elimination Schemes.

(** What an expression over parsed JSON evaluates to: a JSON value, or
    [undefined] for a property that is not there. *)
Inductive Value : Type :=
  | Undefined
  | Of (j : Json).

(** The member [key] of an object; of two members with the same key
    [JSON.parse] keeps the later one. *)
Fixpoint lookupLast (key : string) (members : list (string * Json)) : option Json :=
  match members with
  | [] => None
  | (k, v) :: rest =>
      match lookupLast key rest with
      | Some later => Some later
      | None => if String.eqb k key then Some v else None
      end
  end.

(** [v.key] where [v] is neither [null] nor [undefined], for the keys
    of the page, which no prototype defines: a primitive or an array
    has no such property. *)
Definition member (v : Json) (key : string) : Value :=
  match v with
  | JObject members =>
      match lookupLast key members with
      | Some j => Of j
      | None => Undefined
      end
  | _ => Undefined
  end.

(** [v.key]. *)
Definition getProperty (v : Value) (key : string) : Completion Value :=
  match v with
  | Undefined => Throw (undefinedProperty key)
  | Of JNull => Throw (nullProperty key)
  | Of j => Normal (member j key)
  end.

(** [v?.key]. *)
Definition optional (v : Value) (key : string) : Value :=
  match v with
  | Undefined => Undefined
  | Of JNull => Undefined
  | Of j => member j key
  end.

(** [ToBoolean]. *)
Definition truthyValue (v : Value) : bool :=
  match v with
  | Undefined => false
  | Of JNull => false
  | Of (JBool b) => b
  | Of (JNumber (S754_zero _)) | Of (JNumber S754_nan) => false
  | Of (JNumber _) => true
  | Of (JString s) => negb (String.eqb s "")
  | Of (JArray _) => true
  | Of (JObject _) => true
  end.

(** [a || b]. *)
Definition orValue (a b : Value) : Value := if truthyValue a then a else b.

Record Entry : Type := {
  entry_id : Value;
  entry_name : Value;
  entry_image : Value
}.

(** [data?.details?.sprites?.other?.home?.front_shiny]. *)
Definition frontShiny (data : Value) : Value :=
  optional (optional (optional (optional (optional data "details") "sprites") "other")
              "home") "front_shiny".

(** [data?.details?.sprites?.front_default]. *)
Definition frontDefault (data : Value) : Value :=
  optional (optional (optional data "details") "sprites") "front_default".

Definition generateResponseData (data : Value) : Completion Entry :=
  match getProperty data "id" with
  | Normal id =>
      match getProperty data "name" with
      | Normal name =>
          Normal {| entry_id := id; entry_name := name;
                    entry_image := orValue (frontShiny data) (frontDefault data) |}
      | Throw e => Throw e
      | Pending => Pending
      end
  | Throw e => Throw e
  | Pending => Pending
  end.

(** The variables [data], [messages] and [flags] of the page. *)
Record Page : Type := {
  entry : option Entry;
  apiError : option string;
  apiErrorEntry : bool;
  entryLoaded : bool;
  loadingEntry : bool;
  noEntryFound : bool
}.

(** How the request of [loadEntry] settles: resolved with a response
    whose [data] is the text of the body (or nothing), or rejected. *)
Inductive Reply : Type :=
  | Resolved (data : option string)
  | Rejected.

(** [if (response.data)]. *)
Definition hasData (data : option string) : option string :=
  match data with
  | Some text => if String.eqb text "" then None else Some text
  | None => None
  end.

(** The first statements of [loadEntry], up to its [$update()]. *)
Definition reset (p : Page) : Page :=
  {| entry := None; apiError := None; apiErrorEntry := false;
     entryLoaded := false; loadingEntry := true; noEntryFound := false |}.

(** The [catch] callback. *)
Definition onRejected (p : Page) : Page :=
  {| entry := entry p;
     apiError := Some "An error occured while fetching data.";
     apiErrorEntry := true;
     entryLoaded := entryLoaded p;
     loadingEntry := false;
     noEntryFound := noEntryFound p |}.

(** What [JSON.parse(text)] does: it returns a value or throws. *)
Inductive Parsed : Type :=
  | ParsedJson (jsonData : Json)
  | ParseThrows (e : JsError).

(** The [then] callback: the page it leaves, and whether it threw (by
    [JSON.parse], for which [parse] stands, or by
    [generateResponseData]). *)
Definition onResolved (parse : string -> Parsed) (data : option string) (p : Page)
  : Completion unit * Page :=
  match hasData data with
  | Some text =>
      match parse text with
      | ParseThrows error => (Throw error, p)
      | ParsedJson jsonData =>
          let p := {| entry := entry p; apiError := apiError p;
                      apiErrorEntry := apiErrorEntry p;
                      entryLoaded := true; loadingEntry := false;
                      noEntryFound := noEntryFound p |} in
          match generateResponseData (Of jsonData) with
          | Normal e =>
              (Normal tt,
               {| entry := Some e; apiError := apiError p;
                  apiErrorEntry := apiErrorEntry p; entryLoaded := entryLoaded p;
                  loadingEntry := loadingEntry p; noEntryFound := noEntryFound p |})
          | Throw error => (Throw error, p)
          | Pending => (Pending, p)
          end
      end
  | None =>
      (Normal tt,
       {| entry := entry p; apiError := apiError p; apiErrorEntry := apiErrorEntry p;
          entryLoaded := entryLoaded p; loadingEntry := false; noEntryFound := true |})
  end.

(** [loadEntry()] with its request settled: the pages that its
    [$update()] calls render, in order.  A callback that throws reaches
    the [catch] callback with the page as the throw left it. *)
Definition loadEntry (parse : string -> Parsed) (reply : Reply) (p : Page)
  : list Page :=
  let p := reset p in
  p ::
  match reply with
  | Resolved data =>
      match onResolved parse data p with
      | (Normal _, p') => [p']
      | (_, p') => [onRejected p']
      end
  | Rejected => [onRejected p]
  end.

(** The conditional blocks of the template, in its order. *)
Inductive Block : Type :=
  | EntryBlock (e : Entry)
  | PreloaderBlock
  | NoEntryBlock
  | ApiErrorBlock.

Definition blocks (p : Page) : list Block :=
  match entry p with Some e => [EntryBlock e] | None => [] end
  ++ (if loadingEntry p then [PreloaderBlock] else [])
  ++ (if noEntryFound p then [NoEntryBlock] else [])
  ++ (if apiErrorEntry p then [ApiErrorBlock] else []).

End SinglePokemon.

(** ** More scenarios *)

Module Cases.

(** The open request of IndexedDB is refused. *)
Definition openRefused : Env :=
  {| remote := Scenario.serve [];
     deleteRequest := fun _ => None;
     openRequest := fun _ => Some (Error "The database could not be opened.");
     dexieMembers := Scenario.members |}.






Definition oran : Member := {| member_id := 7; member_fields := "oran" |}.

(** Both tables are served: [pokemon] in two pages, [berries] in
    one. *)
Definition plentiful : Env :=
  {| remote := Scenario.serve
       [("https://pokedex.test/api/en/pokemon", FetchData Scenario.firstPage);
        ("https://pokedex.test/api/en/pokemon?page=2", FetchData Scenario.lastPage);
        ("https://pokedex.test/api/en/berries",
         FetchData {| member := Some [oran]; view := None |})];
     deleteRequest := fun _ => None;
     openRequest := fun _ => None;
     dexieMembers := Scenario.members |}.

(** The connected manager once [pokemon] is populated: two rows in
    [pokemon], none in [berries]. *)
Definition stocked : World :=
  snd (populateEmptyTables 1 Scenario.healthy [Scenario.pokemon] Scenario.connected).

(** A new manager over the databases of [stocked]. *)
Definition relaunched (storedLocale activeLocale : string) : World :=
  {| this := this (Scenario.constructed storedLocale activeLocale);
     indexedDB := indexedDB stocked;
     trace := [] |}.

(** A table that the configuration does not have. *)
Definition moves : Table :=
  {| table_name := "moves"; table_schema := Some "id";
     table_url := {| root := "https://pokedex.test"; endpoint := "/api/{locale}/moves" |} |}.

(** The page of a first visit, and the page of a visitor who switched
    from English to French. *)
Definition firstVisit : Shell := {| localStorage := ∅; ui := [] |}.

Definition switched : Shell :=
  {| localStorage := <["userLocale" := "fr"]> (<["dbLocale" := "en"]> ∅); ui := [] |}.

(** [app.config.database]. *)
Definition database : JsValue Config :=
  JsObject ["name"; "version"; "tables"] Scenario.pokedex.

(** A page of [pokemon] whose cursor leads back to the page itself. *)
Definition endlessPage : Response :=
  {| member := Some [Scenario.bulbasaur];
     view := Some {| next := Some "/api/{locale}/pokemon" |} |}.

Definition endless : Env :=
  {| remote := Scenario.serve
       [("https://pokedex.test/api/en/pokemon", FetchData endlessPage)];
     deleteRequest := fun _ => None;
     openRequest := fun _ => None;
     dexieMembers := Scenario.members |}.

(** A table named after a member of the Dexie instances, and a
    configuration that has it after [pokemon]. *)
Definition versions : Table :=
  {| table_name := "version"; table_schema := Some "id";
     table_url := {| root := "https://pokedex.test"; endpoint := "/api/{locale}/versions" |} |}.

Definition shadowing : Config :=
  {| config_name := "pokedex"; config_version := 1;
     config_tables := [Scenario.pokemon; versions] |}.

(** A configuration whose version is not a positive number. *)
Definition unversioned : Config :=
  {| config_name := "pokedex"; config_version := 0;
     config_tables := [Scenario.pokemon; Scenario.berries] |}.

(** A manager as the constructor leaves it for a configuration, with
    equal locales, in a browser without databases. *)
Definition launching (c : Config) : World :=
  {| this := {| config := c; dbLocale := "en"; userLocale := "en";
                locale := None; this_db := DbUndefined |};
     indexedDB := ∅;
     trace := [] |}.

End Cases.

(** * Properties *)

Arguments forEachAdd : simpl never.
Arguments fetchTable : simpl never.

(** Unfolds one layer of the methods and of the monad. *)
Ltac js_unfold :=
  unfold deleteDatabase, dexieDelete, dexieOpen, dexieStores, newDexie, dispatchEvent,
    consoleError, fetchJson, tableCount, tableAdd, dexieTable, thisDb, tryCatch, bind,
    getThis, modify, ret, throw, pending.

(** ** The trace and the frame of the quiet steps *)

Lemma dispatched_app (t1 t2 : list Action) :
  dispatched (t1 ++ t2) = dispatched t1 ++ dispatched t2.
Proof.
  induction t1 as [|a t1 IH]; [reflexivity|].
  destruct a; simpl; rewrite IH; reflexivity.
Qed.

Lemma quiet_refl w : quiet w w.
Proof.
  split; [reflexivity|]. split; [reflexivity|]. split; [|auto].
  exists []. symmetry. apply app_nil_r.
Qed.

Lemma quiet_trans w1 w2 w3 : quiet w1 w2 -> quiet w2 w3 -> quiet w1 w3.
Proof.
  intros (Ht1 & Hd1 & [r1 Hr1] & Hk1) (Ht2 & Hd2 & [r2 Hr2] & Hk2).
  split; [congruence|]. split; [congruence|]. split; [|auto].
  exists (r1 ++ r2). rewrite Hr2, Hr1, app_assoc. reflexivity.
Qed.

Lemma quietM_ret {A} (a : A) : quietM (ret a).
Proof. intros w; apply quiet_refl. Qed.

Lemma quietM_throw {A} e : quietM (@throw A e).
Proof. intros w; apply quiet_refl. Qed.

Lemma quietM_pending {A} : quietM (@pending A).
Proof. intros w; apply quiet_refl. Qed.

Lemma quietM_getThis : quietM getThis.
Proof. intros w; apply quiet_refl. Qed.

Lemma quietM_bind {A B} (c : M A) (k : A -> M B) :
  quietM c -> (forall a, quietM (k a)) -> quietM (bind c k).
Proof.
  intros Hc Hk w. unfold bind. specialize (Hc w).
  destruct (c w) as [[a|e|] w1]; simpl in *; try exact Hc.
  eapply quiet_trans; [exact Hc|apply Hk].
Qed.

Lemma quietM_tryCatch {A} (body : M A) (handler : JsError -> M A) :
  quietM body -> (forall e, quietM (handler e)) -> quietM (tryCatch body handler).
Proof.
  intros Hb Hh w. unfold tryCatch. specialize (Hb w).
  destruct (body w) as [[a|e|] w1]; simpl in *; try exact Hb.
  eapply quiet_trans; [exact Hb|apply Hh].
Qed.

Lemma quietM_record a : (forall e, a <> Dispatch e) -> quietM (modify (record a)).
Proof.
  intros Ha w; split; simpl; [reflexivity|]. split; [|split; [exists [a]; reflexivity|auto]].
  rewrite dispatched_app. destruct a; simpl; try apply app_nil_r.
  exfalso; eapply Ha; reflexivity.
Qed.

Lemma rowsOf_insert w dn tn rows dn' tn' :
  rowsOf (set_indexedDB
            (<[dn := <[tn := rows]> (default ∅ (indexedDB w !! dn))]> (indexedDB w)) w)
         dn' tn'
  = if decide (dn = dn' /\ tn = tn') then rows else rowsOf w dn' tn'.
Proof.
  unfold rowsOf. simpl.
  destruct (decide (dn = dn')) as [<-|Hdn].
  - rewrite lookup_insert_eq. simpl.
    destruct (decide (tn = tn')) as [<-|Htn].
    + rewrite lookup_insert_eq. simpl. rewrite decide_True by done. reflexivity.
    + rewrite lookup_insert_ne by done. rewrite decide_False by tauto.
      destruct (indexedDB w !! dn); reflexivity.
  - rewrite lookup_insert_ne by done. rewrite decide_False by tauto. reflexivity.
Qed.

Lemma quietM_thisDb p : quietM (thisDb p).
Proof.
  apply quietM_bind; [apply quietM_getThis|].
  intros m; destruct (db m); [apply quietM_ret|apply quietM_throw].
Qed.

Lemma quietM_dexieTable t meth : quietM (dexieTable t meth).
Proof.
  apply quietM_bind; [apply quietM_thisDb|].
  intros d; destruct (_ !! _); [apply quietM_ret|apply quietM_throw].
Qed.

Lemma quietM_tableCount t : quietM (tableCount t).
Proof.
  apply quietM_bind; [apply quietM_dexieTable|]. intros d w. apply quiet_refl.
Qed.

Lemma quietM_tableAdd t row : quietM (tableAdd t row).
Proof.
  apply quietM_bind; [apply quietM_dexieTable|]. intros d w.
  unfold modify; simpl.
  destruct (rowsOf w (dexie_name d) t !! row_id row) as [old|] eqn:Hold;
    [apply quiet_refl|].
  split; [reflexivity|]. split; [reflexivity|].
  split; [exists []; symmetry; apply app_nil_r|].
  intros dn tn k r Hk. rewrite rowsOf_insert.
  destruct (decide _) as [[<- <-]|]; [|exact Hk].
  destruct (decide (k = row_id row)) as [->|Hne]; [congruence|].
  rewrite lookup_insert_ne by congruence. exact Hk.
Qed.

Lemma quietM_forEachAdd t records : quietM (forEachAdd t records).
Proof.
  induction records as [|r rest IH]; unfold forEachAdd; fold forEachAdd;
    [apply quietM_ret|].
  apply quietM_bind; [apply quietM_tableAdd|intros _; exact IH].
Qed.

Lemma quietM_fetchJson E u : quietM (fetchJson E u).
Proof.
  apply quietM_bind; [apply quietM_record; discriminate|].
  intros _. destruct (remote E u); [apply quietM_ret|apply quietM_throw].
Qed.

Lemma quietM_consoleError t e : quietM (consoleError t e).
Proof. apply quietM_record; discriminate. Qed.

Lemma quietM_fetchTable fuel E : forall table, quietM (fetchTable fuel E table).
Proof.
  induction fuel as [|fuel IH]; intros table; unfold fetchTable; fold fetchTable;
    (apply quietM_bind; [apply quietM_getThis|]; intros m;
     destruct (db m); [|apply quietM_throw];
     destruct table as [table|]; [|apply quietM_ret];
     apply quietM_tryCatch; [|intros e; apply quietM_consoleError];
     apply quietM_bind; [apply quietM_fetchJson|]; intros data;
     destruct (member data) as [[|r rs]|]; try apply quietM_ret;
     apply quietM_bind; [apply quietM_forEachAdd|]; intros _;
     destruct (nextCursor data); try apply quietM_ret).
  - apply quietM_pending.
  - apply IH.
Qed.

Lemma quietM_syncTable fuel E table : quietM (syncTable fuel E table).
Proof.
  apply quietM_bind; [apply quietM_getThis|]; intros m.
  destruct (db m); [|apply quietM_throw].
  destruct table as [table|]; [|apply quietM_ret].
  apply quietM_tryCatch; [|intros e; apply quietM_consoleError].
  apply quietM_bind; [apply quietM_tableCount|]. intros count.
  destruct (count =? 0)%nat; [apply quietM_fetchTable|apply quietM_ret].
Qed.

(** ** Outcomes of the fetch and sync steps *)

Lemma fetchTable_unfold fuel E table w :
  fetchTable fuel E table w =
    match db (this w) with
    | None => (Throw (Error noDatabase), w)
    | Some _ =>
        match table with
        | None => (Normal tt, w)
        | Some table => fetchPage fuel E (this w) table w
        end
    end.
Proof.
  destruct fuel; unfold fetchTable; fold fetchTable; unfold bind, getThis;
    destruct (db (this w)); try reflexivity; destruct table; reflexivity.
Qed.

(** A [catch] that only logs turns every throw into a normal return. *)
Lemma tryCatch_console (body : M unit) text w :
  (tryCatch body (fun error => consoleError text error) w).1 =
    match (body w).1 with
    | Throw _ => Normal tt
    | r => r
    end.
Proof.
  unfold tryCatch. destruct (body w) as [[[]|e|] w']; reflexivity.
Qed.

Lemma forEachAdd_not_pending t records : forall w, (forEachAdd t records w).1 <> Pending.
Proof.
  induction records as [|r rest IH]; intros w; unfold forEachAdd; fold forEachAdd;
    [discriminate|].
  unfold bind, addRecord.
  destruct (tableAdd t _ w) as [[[]|e|] w1] eqn:Hadd; simpl; try discriminate; [apply IH|].
  revert Hadd. js_unfold. simpl.
  destruct (db (this w)); simpl; try discriminate.
  destruct (_ !! _); simpl; discriminate.
Qed.

Lemma fetchTable_never_throws fuel E table w e :
  db (this w) <> None -> (fetchTable fuel E table w).1 <> Throw e.
Proof.
  intros Hdb. rewrite fetchTable_unfold.
  destruct (db (this w)); [|congruence].
  destruct table as [table|]; [|discriminate].
  unfold fetchPage. rewrite tryCatch_console.
  destruct (_.1) as [[]| |]; discriminate.
Qed.

Lemma fetchTable_settles fuel E : forall table w,
  db (this w) <> None ->
  settles fuel E (this w) table = true ->
  (fetchTable fuel E (Some table) w).1 = Normal tt.
Proof.
  induction fuel as [|fuel IH]; intros table w Hdb Hs;
    rewrite fetchTable_unfold; destruct (db (this w)) eqn:Hd; try congruence;
    unfold fetchPage; rewrite tryCatch_console;
    unfold bind at 1; unfold fetchJson, bind, modify; simpl in *;
    destruct (remote E _) as [data|e]; simpl; try reflexivity;
    destruct (member data) as [[|r rs]|]; simpl; try reflexivity.
  all: pose proof (forEachAdd_not_pending (table_name table) (r :: rs)
              (record (Fetch (fullUrlOf (this w) table)) w)) as Hnp;
    pose proof (quietM_forEachAdd (table_name table) (r :: rs)
              (record (Fetch (fullUrlOf (this w) table)) w)) as [Hthis _];
    destruct (forEachAdd _ (r :: rs) _) as [[[]|e|] w1]; simpl in *;
    try congruence; try reflexivity;
    destruct (nextCursor data) as [cursor|]; simpl; try reflexivity; try discriminate.
  rewrite IH; [reflexivity| |]; rewrite Hthis; [congruence|exact Hs].
Qed.

Lemma syncTable_never_throws fuel E table w e :
  db (this w) <> None -> (syncTable fuel E table w).1 <> Throw e.
Proof.
  intros Hdb. unfold syncTable, bind at 1, getThis.
  destruct (db (this w)); [|congruence].
  destruct table as [table|]; [|discriminate].
  rewrite tryCatch_console.
  destruct (_.1) as [[]| |]; discriminate.
Qed.

Lemma tableCount_world t w : (tableCount t w).2 = w /\ (tableCount t w).1 <> Pending.
Proof.
  js_unfold. simpl. destruct (db (this w)); simpl; [|split; [reflexivity|discriminate]].
  destruct (_ !! _); split; try reflexivity; discriminate.
Qed.

Lemma syncTable_settles fuel E table w :
  db (this w) <> None ->
  settles fuel E (this w) table = true ->
  (syncTable fuel E (Some table) w).1 = Normal tt.
Proof.
  intros Hdb Hs. unfold syncTable, bind at 1, getThis.
  destruct (db (this w)) eqn:Hd; [|congruence].
  rewrite tryCatch_console. unfold bind.
  pose proof (tableCount_world (table_name table) w) as [Hw Hp].
  destruct (tableCount _ w) as [[count|e|] w1]; simpl in *; try reflexivity;
    [subst w1|congruence].
  destruct (count =? 0)%nat; [|reflexivity].
  rewrite fetchTable_settles; [reflexivity|congruence|exact Hs].
Qed.

(** ** The population loop *)

Lemma populateEmptyTables_for_cons fuel E total table rest index w :
  populateEmptyTables_for fuel E total (table :: rest) index w =
    match syncTable fuel E (Some table) w with
    | (Normal _, w1) =>
        populateEmptyTables_for fuel E total rest (S index)
          (record (Dispatch (progressEvent total index table)) w1)
    | (Throw e, w1) => (Throw e, w1)
    | (Pending, w1) => (Pending, w1)
    end.
Proof. reflexivity. Qed.

Lemma populateEmptyTables_for_run fuel E total : forall tables index w,
  let r := populateEmptyTables_for fuel E total tables index w in
  this r.2 = this w /\
  exists events,
    dispatched (trace r.2) = dispatched (trace w) ++ events /\
    events `prefix_of` progressEvents total tables index /\
    (forall u, r.1 = Normal u -> events = progressEvents total tables index).
Proof.
  induction tables as [|table rest IH]; intros index w.
  - split; [reflexivity|]. exists []. rewrite app_nil_r. repeat split; done.
  - rewrite populateEmptyTables_for_cons.
    pose proof (quietM_syncTable fuel E (Some table) w) as (Hthis & Hev & _).
    destruct (syncTable fuel E (Some table) w) as [[[]|e|] w1]; simpl in *.
    2,3: split; [exact Hthis|]; exists []; rewrite app_nil_r;
         split; [exact Hev|]; split; [apply prefix_nil|discriminate].
    specialize (IH (S index)
      (record (Dispatch (progressEvent total index table)) w1)).
    simpl in IH. destruct IH as (Hthis' & events & Hevents & Hprefix & Hfull).
    split; [congruence|].
    exists (progressEvent total index table :: events). repeat split.
    + rewrite Hevents, dispatched_app, Hev. simpl. rewrite <- app_assoc. reflexivity.
    + apply prefix_cons. exact Hprefix.
    + intros u Hu. f_equal. eapply Hfull. exact Hu.
Qed.

Lemma populateEmptyTables_for_settles fuel E total : forall tables index w,
  db (this w) <> None ->
  forallb (settles fuel E (this w)) tables = true ->
  (populateEmptyTables_for fuel E total tables index w).1 = Normal tt.
Proof.
  induction tables as [|table rest IH]; intros index w Hdb Hs; [reflexivity|].
  simpl in Hs. apply andb_true_iff in Hs as [Hs1 Hs2].
  rewrite populateEmptyTables_for_cons.
  pose proof (quietM_syncTable fuel E (Some table) w) as [Hthis _].
  pose proof (syncTable_settles fuel E table w Hdb Hs1) as Hn.
  destruct (syncTable fuel E (Some table) w) as [c w1]; simpl in *. subst c.
  apply IH; simpl; rewrite Hthis; assumption.
Qed.

(** A run of [populateEmptyTables] with a handle, against a remote whose
    cursor chains end: it returns normally and has dispatched one progress
    event for each table, then [database:ready]. *)
Lemma populateEmptyTables_run fuel E tables w :
  db (this w) <> None ->
  forallb (settles fuel E (this w)) tables = true ->
  exists w',
    populateEmptyTables fuel E tables w = (Normal tt, w') /\
    this w' = this w /\
    dispatched (trace w') =
      dispatched (trace w) ++ progressEvents (length tables) tables 1 ++ [readyEvent].
Proof.
  intros Hdb Hs. unfold populateEmptyTables, bind.
  pose proof (populateEmptyTables_for_run fuel E (length tables) tables 1 w) as Hrun.
  pose proof (populateEmptyTables_for_settles fuel E (length tables) tables 1 w Hdb Hs) as Hn.
  destruct (populateEmptyTables_for _ _ _ _ _ w) as [c w1]; simpl in *. subst c.
  destruct Hrun as (Hthis & events & Hevents & _ & Hfull).
  eexists; split; [reflexivity|]. split; [exact Hthis|]. simpl.
  rewrite dispatched_app, Hevents, (Hfull tt eq_refl), <- app_assoc. reflexivity.
Qed.

(** Whatever the outcome, the events of a run of [populateEmptyTables]
    are an initial segment of the progress events followed by
    [database:ready]. *)
Lemma populateEmptyTables_events fuel E tables w :
  exists events,
    dispatched (trace (populateEmptyTables fuel E tables w).2) =
      dispatched (trace w) ++ events /\
    events `prefix_of` progressEvents (length tables) tables 1 ++ [readyEvent].
Proof.
  unfold populateEmptyTables, bind.
  pose proof (populateEmptyTables_for_run fuel E (length tables) tables 1 w) as Hrun.
  destruct (populateEmptyTables_for _ _ _ _ _ w) as [[[]|e|] w1]; simpl in *;
    destruct Hrun as (_ & events & Hevents & Hprefix & Hfull).
  - exists (events ++ [readyEvent]). split.
    + rewrite dispatched_app, Hevents, <- app_assoc. reflexivity.
    + rewrite (Hfull tt eq_refl). reflexivity.
  - exists events. split; [exact Hevents|]. apply prefix_app_r. exact Hprefix.
  - exists events. split; [exact Hevents|]. apply prefix_app_r. exact Hprefix.
Qed.

(** ** The lifecycle: delete, initialize, refresh *)

Lemma deleteDatabase_no_handle E w :
  db (this w) = None ->
  deleteDatabase E w = (Throw (Error (failedToDelete +:+ noDatabaseToDelete)), w).
Proof.
  intros H. unfold deleteDatabase, tryCatch, bind, getThis. rewrite H. reflexivity.
Qed.

Lemma deleteDatabase_refused E w d e :
  db (this w) = Some d ->
  deleteRequest E (dexie_name d) = Some e ->
  deleteDatabase E w =
    (Throw (Error (failedToDelete +:+ message e)),
     record (DexieDelete (dexie_name d))
       (record (lifecycle "database:beforeDelete" (dexie_name d)) w)).
Proof.
  intros Hd He. js_unfold. simpl. repeat (rewrite ?Hd, ?He; simpl). reflexivity.
Qed.

Lemma deleteDatabase_done E w d :
  db (this w) = Some d ->
  deleteRequest E (dexie_name d) = None ->
  deleteDatabase E w =
    (Normal tt,
     {| this := set_db None (this w);
        indexedDB := delete (dexie_name d) (indexedDB w);
        trace := trace w ++ [lifecycle "database:beforeDelete" (dexie_name d);
                             DexieDelete (dexie_name d);
                             lifecycle "database:afterDelete" (dexie_name d)] |}).
Proof.
  intros Hd He. js_unfold. simpl. repeat (rewrite ?Hd, ?He; simpl).
  unfold set_this, record; simpl. rewrite <- !app_assoc. reflexivity.
Qed.

(** C5, as the code has it.  Without a handle [deleteDatabase] fails
    and dispatches nothing, and the world is left as it was.  The error
    that reaches the caller is not the bare not-found error: the check
    sits inside the [try], so the [catch] of the method re-throws it under
    the prefix of a failed deletion. *)
Theorem deleteDatabase_without_handle (E : Env) (w : World) :
  db (this w) = None ->
  (deleteDatabase E w).1 = Throw (Error (failedToDelete +:+ noDatabaseToDelete))
  /\ (deleteDatabase E w).2 = w
  /\ dispatched (trace (deleteDatabase E w).2) = dispatched (trace w).
Proof.
  intros H. rewrite (deleteDatabase_no_handle E w H). repeat split.
Qed.

Lemma deleteDatabase_without_handle_witness :
  (deleteDatabase Scenario.offline (Scenario.constructed "en" "en")).1
    = Throw (Error "DexieManager: Failed to delete the database: DexieManager: No database found to delete.")
  /\ (deleteDatabase Scenario.offline (Scenario.constructed "en" "en")).2
    = Scenario.constructed "en" "en"
  /\ dispatched (trace (deleteDatabase Scenario.offline (Scenario.constructed "en" "en")).2) = [].
Proof.
  apply (deleteDatabase_without_handle Scenario.offline (Scenario.constructed "en" "en")).
  reflexivity.
Defined.

(** C5 as it is stated fails: the call on a manager without handle does
    not end with the not-found error itself, the one that
    [refreshDatabase] throws in the same state. *)
Lemma deleteDatabase_without_handle_not_found :
  (refreshDatabase Scenario.offline (Scenario.constructed "en" "en")).1
    = Throw (Error noDatabaseToRefresh)
  /\ (deleteDatabase Scenario.offline (Scenario.constructed "en" "en")).1
    <> Throw (Error noDatabaseToDelete).
Proof.
  split; [reflexivity|]. vm_compute. discriminate.
Qed.

(** Every method only appends to the trace. *)

Lemma growsM_ret {A} (a : A) : growsM (ret a).
Proof. intros w; exists []; symmetry; apply app_nil_r. Qed.

Lemma growsM_throw {A} e : growsM (@throw A e).
Proof. intros w; exists []; symmetry; apply app_nil_r. Qed.

Lemma growsM_getThis : growsM getThis.
Proof. intros w; exists []; symmetry; apply app_nil_r. Qed.

Lemma growsM_bind {A B} (c : M A) (k : A -> M B) :
  growsM c -> (forall a, growsM (k a)) -> growsM (bind c k).
Proof.
  intros Hc Hk w. unfold bind. destruct (Hc w) as [r1 H1].
  destruct (c w) as [[a|e|] w1]; simpl in *; try (exists r1; exact H1).
  destruct (Hk a w1) as [r2 H2]. exists (r1 ++ r2).
  rewrite H2, H1, app_assoc. reflexivity.
Qed.

Lemma growsM_tryCatch {A} (body : M A) (handler : JsError -> M A) :
  growsM body -> (forall e, growsM (handler e)) -> growsM (tryCatch body handler).
Proof.
  intros Hb Hh w. unfold tryCatch. destruct (Hb w) as [r1 H1].
  destruct (body w) as [[a|e|] w1]; simpl in *; try (exists r1; exact H1).
  destruct (Hh e w1) as [r2 H2]. exists (r1 ++ r2).
  rewrite H2, H1, app_assoc. reflexivity.
Qed.

Lemma growsM_modify f :
  (forall w, exists rest, trace (f w) = trace w ++ rest) -> growsM (modify f).
Proof. intros Hf w. exact (Hf w). Qed.

Lemma growsM_record a : growsM (modify (record a)).
Proof. intros w. exists [a]. reflexivity. Qed.

Lemma growsM_thisDb p : growsM (thisDb p).
Proof.
  apply growsM_bind; [apply growsM_getThis|].
  intros m; destruct (db m); [apply growsM_ret|apply growsM_throw].
Qed.

Lemma growsM_dispatchEvent ty det : growsM (dispatchEvent ty det).
Proof. apply growsM_record. Qed.

Lemma growsM_lifecycle p ty :
  growsM (let* d := thisDb p in dispatchEvent ty (DetailDbName (dexie_name d))).
Proof. apply growsM_bind; [apply growsM_thisDb|intros d; apply growsM_dispatchEvent]. Qed.

Lemma growsM_newDexie E n : growsM (newDexie E n).
Proof. intros w. exists [NewDexie n]. reflexivity. Qed.

Lemma growsM_deleteDatabase E : growsM (deleteDatabase E).
Proof.
  apply growsM_tryCatch; [|intros e; apply growsM_throw].
  apply growsM_bind; [apply growsM_getThis|]. intros m.
  destruct (db m) as [d0|]; [|apply growsM_throw].
  apply growsM_bind; [apply growsM_lifecycle|]. intros _.
  apply growsM_bind.
  { apply growsM_bind; [apply growsM_thisDb|]. intros d.
    apply growsM_bind; [apply growsM_record|]. intros _.
    destruct (deleteRequest E _); [apply growsM_throw|].
    apply growsM_modify. intros w. exists []. symmetry; apply app_nil_r. }
  intros _. apply growsM_bind; [apply growsM_lifecycle|]. intros _.
  apply growsM_modify. intros w. exists []. symmetry; apply app_nil_r.
Qed.

Lemma growsM_initializeDatabase E : growsM (initializeDatabase E).
Proof.
  apply growsM_tryCatch; [|intros e; apply growsM_throw].
  apply growsM_bind.
  { apply growsM_modify. intros w. exists []. symmetry; apply app_nil_r. }
  intros _. apply growsM_bind; [apply growsM_getThis|]. intros m.
  apply growsM_bind; [apply growsM_dispatchEvent|]. intros _.
  apply growsM_bind; [apply growsM_newDexie|]. intros _.
  apply growsM_bind.
  { destruct (negb _); [|apply growsM_ret].
    apply growsM_bind; [apply growsM_deleteDatabase|]. intros _.
    apply growsM_bind; [apply growsM_dispatchEvent|]. intros _.
    apply growsM_newDexie. }
  intros _. apply growsM_bind; [apply growsM_lifecycle|]. intros _.
  apply growsM_bind.
  { apply growsM_bind; [apply growsM_thisDb|]. intros d.
    destruct (_ <=? _)%Z; [apply growsM_throw|].
    destruct (schemaMissing _); [apply growsM_throw|].
    apply growsM_modify. intros w. eexists. reflexivity. }
  intros _. apply growsM_tryCatch; [|intros e; apply growsM_throw].
  apply growsM_bind; [apply growsM_lifecycle|]. intros _.
  apply growsM_bind; [|intros _; apply growsM_lifecycle].
  apply growsM_bind; [apply growsM_thisDb|]. intros d.
  apply growsM_bind; [apply growsM_record|]. intros _.
  destruct (openRequest E _); [apply growsM_throw|].
  apply growsM_modify. intros w. exists []. symmetry; apply app_nil_r.
Qed.

Lemma not_found_is_not_wrapped {A} (text : string) :
  @Throw A (Error (failedToRefresh +:+ text)) <> Throw (Error noDatabaseToRefresh).
Proof. unfold failedToRefresh, noDatabaseToRefresh. simpl. discriminate. Qed.

Lemma deleteDatabase_starts E w d :
  db (this w) = Some d ->
  exists rest,
    trace (deleteDatabase E w).2 =
      trace w ++ lifecycle "database:beforeDelete" (dexie_name d) :: rest.
Proof.
  intros Hd. destruct (deleteRequest E (dexie_name d)) as [e|] eqn:He.
  - rewrite (deleteDatabase_refused E w d e Hd He). simpl.
    eexists. rewrite <- app_assoc. reflexivity.
  - rewrite (deleteDatabase_done E w d Hd He). simpl.
    eexists. reflexivity.
Qed.

Lemma refreshDatabase_with_handle E w d :
  db (this w) = Some d ->
  refreshDatabase E w =
    tryCatch
      (deleteDatabase E ;;;
       initializeDatabase E ;;;
       let* d' := thisDb "name" in
       dispatchEvent "database:afterRefresh" (DetailDbName (dexie_name d')))
      (fun error => throw (Error (failedToRefresh +:+ message error)))
      (record (lifecycle "database:beforeRefresh" (dexie_name d)) w).
Proof.
  intros Hd. unfold refreshDatabase, bind at 1, getThis. rewrite Hd. reflexivity.
Qed.

Lemma refreshDatabase_starts E w d :
  db (this w) = Some d ->
  (exists rest,
     trace (refreshDatabase E w).2 =
       trace w ++ lifecycle "database:beforeRefresh" (dexie_name d)
               :: lifecycle "database:beforeDelete" (dexie_name d) :: rest)
  /\ (refreshDatabase E w).1 <> Throw (Error noDatabaseToRefresh).
Proof.
  intros Hd. rewrite (refreshDatabase_with_handle E w d Hd).
  set (w1 := record _ w).
  destruct (deleteDatabase_starts E w1 d Hd) as [rest Hrest].
  set (after := (initializeDatabase E ;;;
                 let* d' := thisDb "name" in
                 dispatchEvent "database:afterRefresh" (DetailDbName (dexie_name d')))%js).
  assert (Hafter : growsM after).
  { apply growsM_bind; [apply growsM_initializeDatabase|]. intros _. apply growsM_lifecycle. }
  unfold tryCatch, bind.
  destruct (deleteDatabase E w1) as [[[]|e|] w2]; simpl in Hrest.
  - destruct (Hafter w2) as [rest' Hrest'].
    destruct (after w2) as [[[]|e|] w3]; simpl in *;
      (split; [|first [discriminate | apply not_found_is_not_wrapped]]);
      exists (rest ++ rest'); rewrite Hrest', Hrest; unfold w1; simpl;
      rewrite <- !app_assoc; reflexivity.
  - simpl. split; [|apply not_found_is_not_wrapped].
    exists rest. rewrite Hrest. unfold w1. simpl. rewrite <- app_assoc. reflexivity.
  - simpl. split; [|discriminate].
    exists rest. rewrite Hrest. unfold w1. simpl. rewrite <- app_assoc. reflexivity.
Qed.

(** C10.  When the delete request fails with a handle [d] in place, the
    error is re-thrown and [this] is unchanged, so [this.db] is still [d];
    a following [deleteDatabase] or [refreshDatabase] therefore passes its
    handle check, which shows in the events it goes on to dispatch. *)
Theorem deleteDatabase_failure_keeps_handle (E : Env) (w : World) (d : Dexie) (e : JsError) :
  db (this w) = Some d ->
  deleteRequest E (dexie_name d) = Some e ->
  let w' := (deleteDatabase E w).2 in
  (deleteDatabase E w).1 = Throw (Error (failedToDelete +:+ message e))
  /\ this w' = this w
  /\ db (this w') = Some d
  /\ (forall E', exists rest,
        trace (deleteDatabase E' w').2 =
          trace w' ++ lifecycle "database:beforeDelete" (dexie_name d) :: rest)
  /\ (forall E', exists rest,
        trace (refreshDatabase E' w').2 =
          trace w' ++ lifecycle "database:beforeRefresh" (dexie_name d)
                   :: lifecycle "database:beforeDelete" (dexie_name d) :: rest)
  /\ (forall E', (refreshDatabase E' w').1 <> Throw (Error noDatabaseToRefresh)).
Proof.
  intros Hd He w'. subst w'. rewrite (deleteDatabase_refused E w d e Hd He). simpl.
  set (w1 := record _ (record _ w)).
  assert (Hd1 : db (this w1) = Some d) by exact Hd.
  split; [reflexivity|]. split; [reflexivity|]. split; [exact Hd|].
  split; [intros E'; apply deleteDatabase_starts; exact Hd1|].
  split; intros E'; apply (refreshDatabase_starts E' w1 d Hd1).
Qed.

Lemma deleteDatabase_failure_keeps_handle_witness :
  (deleteDatabase Scenario.deleteRefused Scenario.connected).1
    = Throw (Error "DexieManager: Failed to delete the database: The operation is insecure.")
  /\ db (this (deleteDatabase Scenario.deleteRefused Scenario.connected).2)
    = db (this Scenario.connected)
  /\ (refreshDatabase Scenario.offline
        (deleteDatabase Scenario.deleteRefused Scenario.connected).2).1
    <> Throw (Error noDatabaseToRefresh).
Proof.
  assert (Hd : db (this Scenario.connected)
               = Some Scenario.handle) by reflexivity.
  destruct (deleteDatabase_failure_keeps_handle Scenario.deleteRefused Scenario.connected
              _ (Error "The operation is insecure.") Hd eq_refl)
    as (Hthrow & Hthis & Hdb & _ & _ & Hrefresh).
  split; [exact Hthrow|]. split; [rewrite Hthis; reflexivity|]. apply Hrefresh.
Defined.

Lemma storable_version c :
  storable c = true -> (config_version c <=? 0)%Z = false.
Proof.
  unfold storable. intros H. apply andb_true_iff in H as [H _].
  apply Z.ltb_lt in H. apply Z.leb_gt. exact H.
Qed.

Lemma storable_schemas c :
  storable c = true -> schemaMissing (storesOf c) = false.
Proof.
  unfold storable. intros H. apply andb_true_iff in H as [_ H].
  apply negb_true_iff in H. exact H.
Qed.

Lemma storable_false c :
  storable c = false ->
  (config_version c <=? 0)%Z = true
  \/ (config_version c <=? 0)%Z = false /\ schemaMissing (storesOf c) = true.
Proof.
  unfold storable. intros H. apply andb_false_iff in H as [H|H].
  - left. apply Z.ltb_ge in H. apply Z.leb_le. exact H.
  - apply negb_false_iff in H.
    destruct (config_version c <=? 0)%Z; [left; reflexivity|right; split; [reflexivity|exact H]].
Qed.

Lemma initializeDatabase_same_locale E w :
  dbLocale (this w) = userLocale (this w) ->
  trace (initializeDatabase E w).2 =
    trace w ++ [lifecycle "database:beforeCreate" (config_name (config (this w)));
                NewDexie (config_name (config (this w)));
                lifecycle "database:afterCreate" (config_name (config (this w)))]
            ++ binding E (config (this w)).
Proof.
  intros Heq. unfold binding.
  destruct (storable (config (this w))) eqn:Hs.
  - pose proof (storable_version _ Hs) as Hv. pose proof (storable_schemas _ Hs) as Hm.
    unfold storesOf in Hm.
    unfold initializeDatabase, connecting. js_unfold. simpl.
    rewrite Heq, String.eqb_refl. simpl. rewrite Hv, Hm. simpl.
    destruct (openRequest E _); simpl; rewrite <- !app_assoc; reflexivity.
  - destruct (storable_false _ Hs) as [Hv|[Hv Hm]]; [|unfold storesOf in Hm];
      unfold initializeDatabase; js_unfold; simpl;
      rewrite Heq, String.eqb_refl; simpl; rewrite Hv; simpl; rewrite ?Hm; simpl;
      rewrite <- !app_assoc; reflexivity.
Qed.

Lemma initializeDatabase_reset E w :
  dbLocale (this w) <> userLocale (this w) ->
  deleteRequest E (config_name (config (this w))) = None ->
  trace (initializeDatabase E w).2 =
    trace w ++ [lifecycle "database:beforeCreate" (config_name (config (this w)));
                NewDexie (config_name (config (this w)));
                lifecycle "database:beforeDelete" (config_name (config (this w)));
                DexieDelete (config_name (config (this w)));
                lifecycle "database:afterDelete" (config_name (config (this w)));
                localeChanged (dbLocale (this w)) (userLocale (this w));
                NewDexie (config_name (config (this w)));
                lifecycle "database:afterCreate" (config_name (config (this w)))]
            ++ binding E (config (this w)).
Proof.
  intros Hne Hdel. apply String.eqb_neq in Hne. unfold binding.
  destruct (storable (config (this w))) eqn:Hs.
  - pose proof (storable_version _ Hs) as Hv. pose proof (storable_schemas _ Hs) as Hm.
    unfold storesOf in Hm.
    unfold initializeDatabase, connecting. js_unfold. simpl.
    rewrite Hne. simpl. rewrite Hdel. simpl. rewrite Hv, Hm. simpl.
    destruct (openRequest E _); simpl; rewrite <- !app_assoc; reflexivity.
  - destruct (storable_false _ Hs) as [Hv|[Hv Hm]]; [|unfold storesOf in Hm];
      unfold initializeDatabase; js_unfold; simpl;
      rewrite Hne; simpl; rewrite Hdel; simpl; rewrite Hv; simpl; rewrite ?Hm; simpl;
      rewrite <- !app_assoc; reflexivity.
Qed.

(** A version that is not positive: [version] throws, whatever the
    locale check did before. *)
Lemma initializeDatabase_not_positive E w :
  (config_version (config (this w)) <= 0)%Z ->
  dbLocale (this w) = userLocale (this w)
  \/ deleteRequest E (config_name (config (this w))) = None ->
  (initializeDatabase E w).1 = Throw (Error (failedToInitialize +:+ notPositive)).
Proof.
  intros Hv Hcase. apply Z.leb_le in Hv.
  unfold initializeDatabase. js_unfold. simpl.
  destruct (String.eqb_spec (dbLocale (this w)) (userLocale (this w))) as [Heq|Hne]; simpl.
  - rewrite Hv. reflexivity.
  - destruct Hcase as [Heq|Hdel]; [contradiction|].
    rewrite Hdel. simpl. rewrite Hv. reflexivity.
Qed.

Lemma initializeDatabase_reset_refused E w e :
  dbLocale (this w) <> userLocale (this w) ->
  deleteRequest E (config_name (config (this w))) = Some e ->
  (initializeDatabase E w).1 =
    Throw (Error (failedToInitialize +:+ failedToDelete +:+ message e))
  /\ trace (initializeDatabase E w).2 =
    trace w ++ [lifecycle "database:beforeCreate" (config_name (config (this w)));
                NewDexie (config_name (config (this w)));
                lifecycle "database:beforeDelete" (config_name (config (this w)));
                DexieDelete (config_name (config (this w)))].
Proof.
  intros Hne Hdel. apply String.eqb_neq in Hne.
  unfold initializeDatabase. js_unfold. simpl.
  rewrite Hne. simpl. rewrite Hdel. simpl.
  split; [reflexivity|]. rewrite <- !app_assoc; reflexivity.
Qed.

(** C4, as the code has it.  With different locales and a delete that
    succeeds, the trace of [initializeDatabase] holds exactly one
    [database:localeChanged], with the pair of the manager, after
    [database:beforeDelete] and [database:afterDelete] and before the
    schema is bound by [stores]; with equal locales there is neither a
    delete nor a locale event.  In both cases the binding is reached
    after [database:afterCreate], and is [binding]: the call of [stores]
    and the connection, or nothing when [version(..).stores(..)] throws.
    When the delete request is refused the call stops there and throws:
    no locale event, no schema binding.  When the version is not a
    positive number the call throws once the binding is reached. *)
Theorem initializeDatabase_locale_reset (E : Env) (w : World) :
  let m := this w in
  let name := config_name (config m) in
  (dbLocale m <> userLocale m -> deleteRequest E name = None ->
     trace (initializeDatabase E w).2 =
       trace w ++ [lifecycle "database:beforeCreate" name; NewDexie name;
                   lifecycle "database:beforeDelete" name; DexieDelete name;
                   lifecycle "database:afterDelete" name;
                   localeChanged (dbLocale m) (userLocale m);
                   NewDexie name;
                   lifecycle "database:afterCreate" name]
               ++ binding E (config m))
  /\ (dbLocale m = userLocale m ->
     trace (initializeDatabase E w).2 =
       trace w ++ [lifecycle "database:beforeCreate" name; NewDexie name;
                   lifecycle "database:afterCreate" name]
               ++ binding E (config m))
  /\ (forall e, dbLocale m <> userLocale m -> deleteRequest E name = Some e ->
     (initializeDatabase E w).1 =
       Throw (Error (failedToInitialize +:+ failedToDelete +:+ message e))
     /\ trace (initializeDatabase E w).2 =
       trace w ++ [lifecycle "database:beforeCreate" name; NewDexie name;
                   lifecycle "database:beforeDelete" name; DexieDelete name])
  /\ ((config_version (config m) <= 0)%Z ->
      dbLocale m = userLocale m \/ deleteRequest E name = None ->
      (initializeDatabase E w).1 = Throw (Error (failedToInitialize +:+ notPositive))
      /\ binding E (config m) = []).
Proof.
  intros m name. split; [|split; [|split]].
  - apply initializeDatabase_reset.
  - apply initializeDatabase_same_locale.
  - intros e. apply initializeDatabase_reset_refused.
  - intros Hv Hcase. split; [apply initializeDatabase_not_positive; assumption|].
    unfold binding, storable. rewrite (proj2 (Z.ltb_ge _ _) Hv). reflexivity.
Qed.

Lemma initializeDatabase_locale_reset_witness :
  dispatched (trace (initializeDatabase Scenario.offline (Scenario.constructed "fr" "en")).2) =
    [ {| type := "database:beforeCreate"; detail := DetailDbName "pokedex" |};
      {| type := "database:beforeDelete"; detail := DetailDbName "pokedex" |};
      {| type := "database:afterDelete"; detail := DetailDbName "pokedex" |};
      {| type := "database:localeChanged"; detail := DetailLocale "fr" "en" |};
      {| type := "database:afterCreate"; detail := DetailDbName "pokedex" |};
      {| type := "database:beforeConnect"; detail := DetailDbName "pokedex" |};
      {| type := "database:afterConnect"; detail := DetailDbName "pokedex" |} ]
  /\ dispatched (trace (initializeDatabase Scenario.offline (Scenario.constructed "en" "en")).2) =
    [ {| type := "database:beforeCreate"; detail := DetailDbName "pokedex" |};
      {| type := "database:afterCreate"; detail := DetailDbName "pokedex" |};
      {| type := "database:beforeConnect"; detail := DetailDbName "pokedex" |};
      {| type := "database:afterConnect"; detail := DetailDbName "pokedex" |} ].
Proof.
  destruct (initializeDatabase_locale_reset Scenario.offline (Scenario.constructed "fr" "en"))
    as (Hreset & _ & _).
  destruct (initializeDatabase_locale_reset Scenario.offline (Scenario.constructed "en" "en"))
    as (_ & Hsame & _).
  split.
  - rewrite Hreset; [reflexivity|discriminate|reflexivity].
  - rewrite Hsame; reflexivity.
Defined.

(** C4 as it is stated fails when the delete request is refused: the
    locales differ and no [database:localeChanged] is dispatched. *)
Lemma initializeDatabase_locale_reset_refused :
  dbLocale (this (Scenario.constructed "fr" "en"))
    <> userLocale (this (Scenario.constructed "fr" "en"))
  /\ ofType "database:localeChanged"
       (dispatched (trace (initializeDatabase Scenario.deleteRefused
                             (Scenario.constructed "fr" "en")).2)) = []
  /\ (initializeDatabase Scenario.deleteRefused (Scenario.constructed "fr" "en")).1 =
       Throw (Error "DexieManager: Failed to initialize the database: DexieManager: Failed to delete the database: The operation is insecure.").
Proof.
  split; [discriminate|]. split; reflexivity.
Qed.

(** ** The constructor *)

Lemma invalidConfig_spec (c : JsValue Config) : invalidConfig c = true <-> badConfig c.
Proof.
  unfold invalidConfig, badConfig, absent.
  destruct c as [| |b|x|s| |keys o]; simpl; split; intros H; auto; try discriminate.
  all: try (right; left; discriminate).
  - right; right. destruct keys; [reflexivity|discriminate].
  - destruct H as [[H|H]|[H|H]]; try discriminate; try congruence.
    rewrite H. reflexivity.
Qed.

Lemma invalidLocale_spec (l : JsValue unit) : invalidLocale l = true <-> badLocale l.
Proof.
  unfold invalidLocale, badLocale, absent, blank.
  destruct l as [| |b|x|s| |keys o]; simpl; split; intros H; auto.
  all: try (right; left; discriminate).
  all: try (destruct b; reflexivity).
  all: try (destruct x; reflexivity).
  - right; right. exists s. split; [reflexivity|].
    rewrite orb_false_r in H. apply orb_true_iff in H as [H|H].
    + apply negb_true_iff in H. rewrite negb_false_iff in H.
      apply String.eqb_eq in H. subst s. reflexivity.
    + apply String.eqb_eq in H. exact H.
  - destruct H as [[H|H]|[H|(s' & Hs & Ht)]]; try discriminate; try congruence.
    injection Hs as <-. rewrite Ht. simpl. rewrite orb_true_r. reflexivity.
Qed.

Lemma constructor_outcome (c : JsValue Config) (d u : JsValue unit) :
  constructor c d u =
    if invalidConfig c then Throw (Error configurationMessage)
    else if invalidLocale d then Throw (Error dbLocaleMessage)
    else if invalidLocale u then Throw (Error userLocaleMessage)
    else
      match c, d, u with
      | JsObject _ thisConfig, JsString thisDbLocale, JsString thisUserLocale =>
          Normal {| config := thisConfig; dbLocale := thisDbLocale;
                    userLocale := thisUserLocale; locale := None; this_db := DbUndefined |}
      | _, _, _ => Throw (Error configurationMessage)
      end.
Proof.
  unfold constructor.
  destruct (invalidConfig c) eqn:Hc; [reflexivity|].
  destruct c as [| |b|x|s| |keys o]; try discriminate Hc.
  destruct (invalidLocale d) eqn:Hd; [reflexivity|].
  destruct d as [| |b|x|s| |keys' o']; try discriminate Hd;
    try (destruct b; discriminate Hd); try (destruct x; discriminate Hd).
  destruct (invalidLocale u) eqn:Hu; [reflexivity|].
  destruct u as [| |b|x|s'| |keys' o']; try discriminate Hu;
    try (destruct b; discriminate Hu); try (destruct x; discriminate Hu).
  reflexivity.
Qed.

(** C7, as the code has it.  The configuration error is thrown exactly
    when the configuration is absent, not an object or without keys.  A
    locale error is thrown exactly when the configuration passes that
    check and one of the two locales is absent, not a string or blank once
    trimmed: the configuration is checked first, so a bad locale next to a
    bad configuration is reported as a configuration error.  No outcome of
    the constructor carries a database handle. *)
Theorem constructor_contract (c : JsValue Config) (d u : JsValue unit) :
  (constructor c d u = Throw (Error configurationMessage) <-> badConfig c)
  /\ (constructor c d u = Throw (Error dbLocaleMessage)
      \/ constructor c d u = Throw (Error userLocaleMessage)
      <-> ~ badConfig c /\ (badLocale d \/ badLocale u))
  /\ handleOf (constructor c d u) = None.
Proof.
  rewrite constructor_outcome.
  rewrite <- (invalidConfig_spec c), <- (invalidLocale_spec d), <- (invalidLocale_spec u).
  destruct (invalidConfig c) eqn:Hc; [|destruct (invalidLocale d) eqn:Hd;
    [|destruct (invalidLocale u) eqn:Hu]].
  - split; [split; reflexivity|]. split; [|reflexivity]. split.
    + intros [H|H]; exfalso; vm_compute in H; discriminate H.
    + intros [H _]. exfalso. apply H. reflexivity.
  - split; [split; intros H; exfalso; [vm_compute in H|]; discriminate H|].
    split; [|reflexivity]. split.
    + intros _. split; [discriminate|left; reflexivity].
    + intros _. left. reflexivity.
  - split; [split; intros H; exfalso; [vm_compute in H|]; discriminate H|].
    split; [|reflexivity]. split.
    + intros _. split; [discriminate|right; reflexivity].
    + intros _. right. reflexivity.
  - destruct c as [| |b|x|s| |keys o]; try discriminate Hc.
    destruct d as [| |b|x|s| |keys' o']; try discriminate Hd;
      try (destruct b; discriminate Hd); try (destruct x; discriminate Hd).
    destruct u as [| |b|x|s'| |keys' o']; try discriminate Hu;
      try (destruct b; discriminate Hu); try (destruct x; discriminate Hu).
    split; [split; intros H; discriminate H|].
    split; [|reflexivity]. split.
    + intros [H|H]; discriminate H.
    + intros [_ [H|H]]; discriminate H.
Qed.

(** C7 as it is stated fails: with the configuration [null] and a blank
    stored locale the constructor throws the configuration error, not a
    locale error. *)
Lemma constructor_locale_error_masked :
  badLocale (JsString "  ")
  /\ constructor JsNull (JsString "  ") (JsString "en") = Throw (Error configurationMessage)
  /\ constructor JsNull (JsString "  ") (JsString "en") <> Throw (Error dbLocaleMessage)
  /\ constructor JsNull (JsString "  ") (JsString "en") <> Throw (Error userLocaleMessage).
Proof.
  split; [right; right; exists "  "; split; reflexivity|].
  split; [reflexivity|]. split; vm_compute; discriminate.
Qed.

(** ** Scanning for empty tables *)

Lemma tableCount_bound w d t :
  db (this w) = Some d ->
  is_Some (dexie_tables d !! table_name t) ->
  tableCount (table_name t) w = (Normal (rowCount w d t), w).
Proof.
  intros Hd [schema Hs]. js_unfold. simpl. rewrite Hd. simpl. rewrite Hs. reflexivity.
Qed.

Lemma countEmptyTables_for_spec w d : forall tables emptyTables,
  db (this w) = Some d ->
  bindsAll d tables = true ->
  countEmptyTables_for tables emptyTables w =
    (Normal (emptyTables ++ filter (fun t => rowCount w d t = 0%nat) tables), w).
Proof.
  induction tables as [|table rest IH]; intros emptyTables Hd Hb; simpl.
  - rewrite app_nil_r. reflexivity.
  - simpl in Hb. apply andb_true_iff in Hb as [Hb1 Hb2].
    apply bool_decide_eq_true in Hb1.
    unfold bind. rewrite (tableCount_bound w d table Hd Hb1).
    rewrite filter_cons.
    destruct (Nat.eqb_spec (rowCount w d table) 0) as [Hz|Hz].
    + rewrite (IH _ Hd Hb2). rewrite decide_True by exact Hz.
      rewrite <- app_assoc. reflexivity.
    + rewrite (IH _ Hd Hb2). rewrite decide_False by exact Hz. reflexivity.
Qed.




(** ** Pagination *)

Lemma tableAdd_bound w d tableName row :
  db (this w) = Some d ->
  is_Some (dexie_tables d !! tableName) ->
  (tableAdd tableName row w).1 = Normal tt
  /\ trace (tableAdd tableName row w).2 = trace w
  /\ is_Some (rowsOf (tableAdd tableName row w).2 (dexie_name d) tableName !! row_id row).
Proof.
  intros Hd [schema Hs]. js_unfold. simpl. rewrite Hd. simpl. rewrite Hs. simpl.
  split; [reflexivity|].
  destruct (rowsOf w (dexie_name d) tableName !! row_id row) as [old|] eqn:Hold.
  - rewrite Hold. eauto.
  - split; [reflexivity|].
    rewrite rowsOf_insert. rewrite decide_True by done. rewrite lookup_insert_eq. eauto.
Qed.

Lemma forEachAdd_bound d tableName records : forall w,
  db (this w) = Some d ->
  is_Some (dexie_tables d !! tableName) ->
  (forEachAdd tableName records w).1 = Normal tt
  /\ trace (forEachAdd tableName records w).2 = trace w
  /\ (forall r, r ∈ records ->
        is_Some (rowsOf (forEachAdd tableName records w).2 (dexie_name d) tableName
                   !! member_id r)).
Proof.
  induction records as [|r rest IH]; intros w Hd Hb; unfold forEachAdd; fold forEachAdd.
  - split; [reflexivity|]. split; [reflexivity|]. intros r Hr. inversion Hr.
  - unfold bind, addRecord.
    pose proof (tableAdd_bound w d tableName {| row_id := member_id r; row_meta := r |} Hd Hb)
      as (Hn & Ht & Hrow).
    pose proof (quietM_tableAdd tableName {| row_id := member_id r; row_meta := r |} w)
      as (Hthis & _).
    destruct (tableAdd tableName _ w) as [c w1]; simpl in *. subst c.
    assert (Hd1 : db (this w1) = Some d) by (rewrite Hthis; exact Hd).
    destruct (IH w1 Hd1 Hb) as (Hn' & Ht' & Hrows).
    split; [exact Hn'|]. split; [congruence|].
    intros r' Hr'. apply elem_of_cons in Hr' as [->|Hr']; [|apply Hrows; exact Hr'].
    destruct Hrow as [row Hrow].
    pose proof (quietM_forEachAdd tableName rest w1) as (_ & _ & _ & Hkeep).
    exists row. apply Hkeep. exact Hrow.
Qed.

(** A page with members and a cursor, stored through a bound table: the
    call goes on as the call for the next page. *)
Lemma fetchTable_follows fuel E table w d data r rs cursor :
  db (this w) = Some d ->
  is_Some (dexie_tables d !! table_name table) ->
  remote E (fullUrlOf (this w) table) = FetchData data ->
  member data = Some (r :: rs) ->
  nextCursor data = Some cursor ->
  fetchTable (S fuel) E (Some table) w =
    fetchTable fuel E (Some (nextPage table cursor))
      (forEachAdd (table_name table) (r :: rs)
         (record (Fetch (fullUrlOf (this w) table)) w)).2.
Proof.
  intros Hd Hb Hdata Hmember Hcursor.
  rewrite (fetchTable_unfold (S fuel)). rewrite Hd.
  unfold fetchPage, tryCatch, bind at 1, fetchJson, bind at 1, modify.
  rewrite Hdata. unfold ret at 1. rewrite Hmember. unfold bind at 1.
  set (w1 := record (Fetch (fullUrlOf (this w) table)) w).
  assert (Hd1 : db (this w1) = Some d) by exact Hd.
  pose proof (forEachAdd_bound d (table_name table) (r :: rs) w1 Hd1 Hb) as (Hn & _ & _).
  pose proof (quietM_forEachAdd (table_name table) (r :: rs) w1) as (Hthis & _).
  destruct (forEachAdd _ _ w1) as [c w2]; simpl in *. subst c.
  rewrite Hcursor.
  assert (Hd2 : db (this w2) <> None) by (rewrite Hthis, Hd1; discriminate).
  pose proof (fun e => fetchTable_never_throws fuel E (Some (nextPage table cursor)) w2 e Hd2)
    as Hnt.
  destruct (fetchTable fuel E _ w2) as [[[]|e|] w3]; simpl in *; try reflexivity.
  exfalso. eapply Hnt. reflexivity.
Qed.

Lemma fetchTable_first_fetch fuel E table w d :
  db (this w) = Some d ->
  exists rest,
    trace (fetchTable fuel E (Some table) w).2 =
      trace w ++ Fetch (fullUrlOf (this w) table) :: rest.
Proof.
  intros Hd. rewrite fetchTable_unfold, Hd.
  unfold fetchPage.
  set (w1 := record (Fetch (fullUrlOf (this w) table)) w).
  set (k := fun data : Response =>
     match member data with
     | Some ((_ :: _) as records) =>
         forEachAdd (table_name table) records ;;;
         match nextCursor data with
         | Some cursor =>
             match fuel with
             | O => pending
             | S fuel' => fetchTable fuel' E (Some (nextPage table cursor))
             end
         | None => ret tt
         end
     | _ => ret tt
     end).
  assert (Hk : forall data, quietM (k data)).
  { intros data. unfold k. destruct (member data) as [[|r rs]|]; try apply quietM_ret.
    apply quietM_bind; [apply quietM_forEachAdd|]. intros _.
    destruct (nextCursor data); [|apply quietM_ret].
    destruct fuel; [apply quietM_pending|apply quietM_fetchTable]. }
  unfold tryCatch, bind at 1, fetchJson, bind at 1, modify. fold w1.
  destruct (remote E _) as [data|e].
  - destruct (Hk data w1) as (_ & _ & [rest Hrest] & _). fold (k data).
    unfold ret at 1.
    destruct (k data w1) as [[[]|e|] w2]; simpl in *.
    1,3: exists rest; rewrite Hrest; unfold w1; simpl; rewrite <- app_assoc; reflexivity.
    eexists. rewrite Hrest. unfold w1. simpl. rewrite <- !app_assoc. reflexivity.
  - simpl. eexists. rewrite <- app_assoc. reflexivity.
Qed.

Lemma fetchTable_last_page fuel E table w d data r rs :
  db (this w) = Some d ->
  is_Some (dexie_tables d !! table_name table) ->
  remote E (fullUrlOf (this w) table) = FetchData data ->
  member data = Some (r :: rs) ->
  nextCursor data = None ->
  fetchTable fuel E (Some table) w =
    (Normal tt,
     (forEachAdd (table_name table) (r :: rs)
        (record (Fetch (fullUrlOf (this w) table)) w)).2).
Proof.
  intros Hd Hb Hdata Hmember Hcursor.
  rewrite fetchTable_unfold. rewrite Hd.
  unfold fetchPage, tryCatch, bind at 1, fetchJson, bind at 1, modify.
  rewrite Hdata. unfold ret at 1. rewrite Hmember. unfold bind at 1.
  set (w1 := record (Fetch (fullUrlOf (this w) table)) w).
  assert (Hd1 : db (this w1) = Some d) by exact Hd.
  pose proof (forEachAdd_bound d (table_name table) (r :: rs) w1 Hd1 Hb) as (Hn & _ & _).
  destruct (forEachAdd _ _ w1) as [c w2]; simpl in *. subst c.
  rewrite Hcursor. reflexivity.
Qed.

Lemma fetchTable_no_members fuel E table w d data :
  db (this w) = Some d ->
  remote E (fullUrlOf (this w) table) = FetchData data ->
  member data = None \/ member data = Some [] ->
  fetchTable fuel E (Some table) w =
    (Normal tt, record (Fetch (fullUrlOf (this w) table)) w).
Proof.
  intros Hd Hdata Hmember.
  rewrite fetchTable_unfold. rewrite Hd.
  unfold fetchPage, tryCatch, bind at 1, fetchJson, bind at 1, modify.
  rewrite Hdata. unfold ret at 1. destruct Hmember as [-> | ->]; reflexivity.
Qed.

(** One page of [fetchTable], with a handle in place that has a table
    property for the table.  When the page has members and a cursor,
    they are stored and the next request goes to that cursor; when it
    has members and no cursor, they are stored and the chain ends; when
    its member list is absent or empty, nothing is stored, nothing is
    logged as an error, the call returns normally, and the chain ends
    there, whether or not the page names a cursor. *)
Lemma fetchTable_pagination (fuel : nat) (E : Env) (table : Table) (w : World)
    (d : Dexie) (data : Response) :
  db (this w) = Some d ->
  is_Some (dexie_tables d !! table_name table) ->
  remote E (fullUrlOf (this w) table) = FetchData data ->
  let requested := record (Fetch (fullUrlOf (this w) table)) w in
  (forall r rs cursor,
     member data = Some (r :: rs) -> nextCursor data = Some cursor ->
     fetchTable (S fuel) E (Some table) w =
       fetchTable fuel E (Some (nextPage table cursor))
         (forEachAdd (table_name table) (r :: rs) requested).2
     /\ exists rest,
          trace (fetchTable (S fuel) E (Some table) w).2 =
            trace w ++ Fetch (fullUrlOf (this w) table)
                    :: Fetch (fullUrlOf (this w) (nextPage table cursor)) :: rest)
  /\ (forall r rs,
     member data = Some (r :: rs) -> nextCursor data = None ->
     fetchTable fuel E (Some table) w =
       (Normal tt, (forEachAdd (table_name table) (r :: rs) requested).2)
     /\ trace (fetchTable fuel E (Some table) w).2 =
          trace w ++ [Fetch (fullUrlOf (this w) table)])
  /\ (member data = None \/ member data = Some [] ->
     fetchTable fuel E (Some table) w = (Normal tt, requested)).
Proof.
  intros Hd Hb Hdata requested. split; [|split].
  - intros r rs cursor Hmember Hcursor.
    pose proof (fetchTable_follows fuel E table w d data r rs cursor
                  Hd Hb Hdata Hmember Hcursor) as Hstep.
    split; [exact Hstep|]. rewrite Hstep. clear Hstep.
    pose proof (forEachAdd_bound d (table_name table) (r :: rs) requested Hd Hb)
      as (_ & Htrace & _).
    pose proof (quietM_forEachAdd (table_name table) (r :: rs) requested) as (Hthis & _).
    subst requested.
    set (stored := (forEachAdd (table_name table) (r :: rs) _).2) in *.
    assert (Hd2 : db (this stored) = Some d) by (rewrite Hthis; exact Hd).
    destruct (fetchTable_first_fetch fuel E (nextPage table cursor) stored d Hd2)
      as [rest Hrest].
    exists rest. rewrite Hrest, Htrace, Hthis. simpl.
    rewrite <- app_assoc. reflexivity.
  - intros r rs Hmember Hcursor.
    rewrite (fetchTable_last_page fuel E table w d data r rs Hd Hb Hdata Hmember Hcursor).
    split; [reflexivity|].
    pose proof (forEachAdd_bound d (table_name table) (r :: rs) requested Hd Hb)
      as (_ & Htrace & _).
    cbn [snd]. fold requested. rewrite Htrace. reflexivity.
  - apply (fetchTable_no_members fuel E table w d data Hd Hdata).
Qed.

Lemma fetchTable_pagination_witness :
  exists rest,
    trace (fetchTable 1 Scenario.healthy (Some Scenario.pokemon) Scenario.connected).2 =
      trace Scenario.connected
        ++ Fetch "https://pokedex.test/api/en/pokemon"
        :: Fetch "https://pokedex.test/api/en/pokemon?page=2" :: rest.
Proof.
  assert (Hd : db (this Scenario.connected)
               = Some Scenario.handle) by reflexivity.
  assert (Hb : is_Some (storesOf Scenario.pokedex !! "pokemon")) by (vm_compute; eauto).
  destruct (fetchTable_pagination 0 Scenario.healthy Scenario.pokemon Scenario.connected
              _ Scenario.firstPage Hd Hb eq_refl) as (Hfollow & _ & _).
  destruct (Hfollow Scenario.bulbasaur [] "/api/{locale}/pokemon?page=2" eq_refl eq_refl)
    as [_ Htrace].
  exact Htrace.
Defined.

(** C1.  The code on a page that names a cursor and has no members: the
    cursor is not followed, one request is all there is.  The test of
    [data.view.next] sits inside the test of [data.member.length], so
    the chain ends at such a page, where the comment of [fetchTable] has
    it continue whenever [data.view.next] exists. *)
Theorem fetchTable_hollow_page_not_followed :
  remote Scenario.hollow (fullUrlOf (this Scenario.connected) Scenario.pokemon)
    = FetchData Scenario.hollowPage
  /\ nextCursor Scenario.hollowPage = Some "/api/{locale}/pokemon?page=2"
  /\ fetchTable 5 Scenario.hollow (Some Scenario.pokemon) Scenario.connected
     = (Normal tt, record (Fetch "https://pokedex.test/api/en/pokemon") Scenario.connected).
Proof.
  split; [reflexivity|]. split; [reflexivity|]. vm_compute. reflexivity.
Qed.

(** ** A table whose synchronisation fails *)

Lemma syncTable_empty_table fuel E table w d :
  db (this w) = Some d ->
  is_Some (dexie_tables d !! table_name table) ->
  rowCount w d table = 0%nat ->
  syncTable fuel E (Some table) w =
    tryCatch (fetchTable fuel E (Some table))
             (fun error => consoleError (syncErrorText table) error) w.
Proof.
  intros Hd Hb Hz. unfold syncTable, bind at 1, getThis. rewrite Hd.
  unfold tryCatch, bind. rewrite (tableCount_bound w d table Hd Hb). rewrite Hz.
  reflexivity.
Qed.

Lemma syncTable_first_fetch_fails fuel E table w d e :
  db (this w) = Some d ->
  is_Some (dexie_tables d !! table_name table) ->
  rowCount w d table = 0%nat ->
  remote E (fullUrlOf (this w) table) = FetchThrows e ->
  syncTable fuel E (Some table) w =
    (Normal tt,
     record (ConsoleError (fetchErrorText table) e)
       (record (Fetch (fullUrlOf (this w) table)) w)).
Proof.
  intros Hd Hb Hz He. rewrite (syncTable_empty_table fuel E table w d Hd Hb Hz).
  unfold tryCatch. rewrite fetchTable_unfold, Hd.
  unfold fetchPage, tryCatch, bind, fetchJson, bind, modify. rewrite He. reflexivity.
Qed.

Lemma syncTable_first_page_stays fuel E table w d data r rs :
  db (this w) = Some d ->
  is_Some (dexie_tables d !! table_name table) ->
  rowCount w d table = 0%nat ->
  remote E (fullUrlOf (this w) table) = FetchData data ->
  member data = Some (r :: rs) ->
  (0 < rowCount (syncTable fuel E (Some table) w).2 d table)%nat.
Proof.
  intros Hd Hb Hz Hdata Hmember.
  rewrite (syncTable_empty_table fuel E table w d Hd Hb Hz).
  set (requested := record (Fetch (fullUrlOf (this w) table)) w).
  pose proof (forEachAdd_bound d (table_name table) (r :: rs) requested Hd Hb)
    as (Hn & _ & Hrows).
  destruct (Hrows r) as [row Hrow]; [left|].
  set (stored := (forEachAdd (table_name table) (r :: rs) requested).2) in *.
  assert (Hkeep : forall w', quiet stored w' ->
            (0 < rowCount w' d table)%nat).
  { intros w' (_ & _ & _ & Hk). specialize (Hk _ _ _ _ Hrow).
    unfold rowCount. destruct (size _) eqn:Hsize; [|lia].
    apply map_size_empty_iff in Hsize. rewrite Hsize in Hk.
    rewrite lookup_empty in Hk. discriminate. }
  assert (Hfetch : quiet stored (fetchTable fuel E (Some table) w).2).
  { rewrite fetchTable_unfold, Hd.
    unfold fetchPage, tryCatch, bind at 1, fetchJson, bind at 1, modify.
    rewrite Hdata. unfold ret at 1. rewrite Hmember. unfold bind at 1.
    fold requested. fold stored.
    destruct (forEachAdd (table_name table) (r :: rs) requested) as [c w2] eqn:Hf.
    simpl in Hn. subst c. subst stored. simpl.
    destruct (nextCursor data) as [cursor|]; [|apply quiet_refl].
    destruct fuel as [|fuel']; [apply quiet_refl|].
    pose proof (quietM_fetchTable fuel' E (Some (nextPage table cursor)) w2) as Hq.
    destruct (fetchTable fuel' E _ w2) as [[[]|e|] w3]; simpl in *; try exact Hq.
    eapply quiet_trans; [exact Hq|]. apply quietM_consoleError. }
  apply Hkeep. unfold tryCatch.
  destruct (fetchTable fuel E (Some table) w) as [[[]|e|] w3]; simpl in *; try exact Hfetch.
  eapply quiet_trans; [exact Hfetch|]. apply quietM_consoleError.
Qed.




(** ** The progress values *)

Lemma div_self s m e :
  JsNum.div (S754_finite s m e) (S754_finite s m e)
  = S754_finite false 4503599627370496 (-52).
Proof.
  unfold JsNum.div, SFdiv, SFdiv_core_binary.
  replace (Zdigits2 (Z.pos m) + e - (Zdigits2 (Z.pos m) + e))%Z with 0%Z by lia.
  replace (e - e)%Z with 0%Z by lia.
  change (Z.min (fexp JsNum.prec JsNum.emax 0) 0) with (-53)%Z.
  change (0 - -53)%Z with 53%Z.
  cbv iota beta.
  rewrite Z.shiftl_mul_pow2 by lia.
  rewrite Z.mul_comm.
  assert (H : Z.div_eucl (2 ^ 53 * Z.pos m) (Z.pos m) = (2 ^ 53, 0)%Z).
  { pose proof (Z_div_mod (2 ^ 53 * Z.pos m) (Z.pos m) eq_refl) as H.
    destruct (Z.div_eucl _ _) as [q r]. destruct H as [H1 H2].
    assert (q = 2 ^ 53)%Z by nia. subst q. f_equal. lia. }
  rewrite H.
  assert (Hloc : new_location (Z.pos m) 0 = loc_Exact).
  { unfold new_location, new_location_even, new_location_odd.
    destruct (Z.even _); reflexivity. }
  rewrite Hloc. destruct s; reflexivity.
Qed.

Lemma digits2_pos_size p : digits2_pos p = Pos.size p.
Proof. induction p; simpl; congruence. Qed.

Lemma digits2_pos_iter_xO p k :
  digits2_pos (Pos.iter xO p k) = (digits2_pos p + k)%positive.
Proof.
  induction k using Pos.peano_ind.
  - simpl. lia.
  - rewrite Pos.iter_succ. simpl. rewrite IHk. lia.
Qed.

Lemma digits2_pos_le p : (Z.pos p < 2 ^ 53)%Z -> (Z.pos (digits2_pos p) <= 53)%Z.
Proof.
  intros Hp. rewrite digits2_pos_size.
  pose proof (Pos.size_le p) as Hle.
  destruct (Z_le_gt_dec (Z.pos (Pos.size p)) 53) as [|Hgt]; [assumption|exfalso].
  assert (H54 : (2 ^ 54 <= 2 ^ Z.pos (Pos.size p))%Z) by (apply Z.pow_le_mono_r; lia).
  assert (Hz : (Z.pos (2 ^ Pos.size p) <= Z.pos p~0)%Z) by lia.
  rewrite Pos2Z.inj_pow in Hz. lia.
Qed.

(** The double of a positive integer below 2^53 is finite and
    positive. *)
Lemma ofNat_finite n :
  (0 < n)%nat -> (Z.of_nat n <= JsNum.maxSafeInteger)%Z ->
  exists m e, JsNum.ofNat n = S754_finite false m e.
Proof.
  intros Hn Hb. unfold JsNum.maxSafeInteger in Hb. unfold JsNum.ofNat.
  destruct (Z.of_nat n) as [|p|p] eqn:Hz; try lia.
  assert (Hp : (Z.pos p < 2 ^ 53)%Z) by lia.
  pose proof (digits2_pos_le p Hp) as Hd.
  unfold binary_normalize, binary_round.
  set (d := digits2_pos p) in *.
  assert (Hf : fexp JsNum.prec JsNum.emax (Z.pos d + 0) = (Z.pos d - 53)%Z).
  { unfold fexp, emin, JsNum.prec, JsNum.emax. lia. }
  rewrite Hf. unfold shl_align.
  assert (Hshift : exists mz,
     (match (Z.pos d - 53 - 0)%Z with
      | Z.neg k => (Pos.iter xO p k, (Z.pos d - 53)%Z)
      | _ => (p, 0%Z)
      end) = (mz, (Z.pos d - 53)%Z) /\ Z.pos (digits2_pos mz) = 53%Z).
  { destruct (Z.pos d - 53 - 0)%Z as [|k|k] eqn:Hk; try lia.
    - exists p. split; [f_equal; lia|]. fold d. lia.
    - exists (Pos.iter xO p k). split; [reflexivity|].
      rewrite digits2_pos_iter_xO. fold d. lia. }
  destruct Hshift as (mz & -> & Hmz).
  unfold binary_round_aux, shr_fexp. simpl Zdigits2. rewrite Hmz.
  assert (Hf2 : (fexp JsNum.prec JsNum.emax (53 + (Z.pos d - 53)) - (Z.pos d - 53))%Z = 0%Z).
  { unfold fexp, emin, JsNum.prec, JsNum.emax. lia. }
  rewrite Hf2. simpl. rewrite Hmz, Hf2. simpl.
  assert (Hle : (Z.pos d - 53 <=? JsNum.emax - JsNum.prec)%Z = true).
  { apply Z.leb_le. unfold JsNum.emax, JsNum.prec. lia. }
  rewrite Hle. eauto.
Qed.

(** The last table of a run reports [1.00]. *)
Lemma progressOf_last n :
  (0 < n)%nat -> (Z.of_nat n <= JsNum.maxSafeInteger)%Z -> progressOf n n = "1.00".
Proof.
  intros Hn Hb. unfold progressOf.
  destruct (ofNat_finite n Hn Hb) as (m & e & ->).
  rewrite div_self. reflexivity.
Qed.

Lemma strictUpTo_100 : forallb strictUpTo (seq 1 100) = true.
Proof. vm_compute. reflexivity. Qed.

Lemma progressOf_strict n index :
  (n <= 100)%nat -> (1 <= index)%nat -> (S index <= n)%nat ->
  numericLt (JsString (progressOf index n)) (JsString (progressOf (S index) n)) = true.
Proof.
  intros Hn Hi Hs.
  pose proof strictUpTo_100 as H. rewrite forallb_forall in H.
  assert (Hin : In n (seq 1 100)) by (apply in_seq; lia).
  specialize (H n Hin). unfold strictUpTo in H. rewrite forallb_forall in H.
  apply H. apply in_seq. lia.
Qed.

(** ** The quotient [index / tables.length] as a double *)

Local Open Scope Z_scope.

Lemma iter_xO_value p k : Z.pos (Pos.iter xO p k) = Z.pos p * 2 ^ Z.pos k.
Proof.
  induction k using Pos.peano_ind.
  - simpl. lia.
  - rewrite Pos.iter_succ, Pos2Z.inj_xO, IHk, Pos2Z.inj_succ, Z.pow_succ_r by lia. lia.
Qed.

Lemma digits2_pos_bounds q :
  2 ^ (Z.pos (digits2_pos q) - 1) <= Z.pos q < 2 ^ Z.pos (digits2_pos q).
Proof.
  rewrite digits2_pos_size.
  pose proof (Pos.size_gt q) as Hgt. pose proof (Pos.size_le q) as Hle.
  assert (Hgt' : Z.pos q < Z.pos (2 ^ Pos.size q)) by lia.
  assert (Hle' : Z.pos (2 ^ Pos.size q) <= Z.pos q~0) by lia.
  rewrite Pos2Z.inj_pow in Hgt', Hle'.
  split; [|exact Hgt'].
  replace (Z.pos (Pos.size q)) with (Z.succ (Z.pos (Pos.size q) - 1)) in Hle' by lia.
  rewrite Z.pow_succ_r in Hle' by lia. lia.
Qed.

Lemma digits2_pos_unique q d :
  2 ^ (d - 1) <= Z.pos q < 2 ^ d -> Z.pos (digits2_pos q) = d.
Proof.
  intros [Hlo Hhi]. pose proof (digits2_pos_bounds q) as [Hlo' Hhi'].
  set (d' := Z.pos (digits2_pos q)) in *.
  assert (0 < d).
  { destruct (Z_lt_le_dec 0 d) as [|Hd]; [assumption|exfalso].
    destruct (Z.eq_dec d 0) as [->|Hne]; [simpl in Hhi; lia|].
    rewrite Z.pow_neg_r in Hhi by lia. lia. }
  destruct (Z.lt_trichotomy d' d) as [Hlt|[Heq|Hgt]]; [|exact Heq|].
  - assert (2 ^ d' <= 2 ^ (d - 1)) by (apply Z.pow_le_mono_r; lia). lia.
  - assert (2 ^ d <= 2 ^ (d' - 1)) by (apply Z.pow_le_mono_r; lia). lia.
Qed.

(** The double of a positive integer below 2^53, in canonical form. *)
Lemma ofNat_canonical n :
  (0 < n)%nat -> Z.of_nat n <= JsNum.maxSafeInteger ->
  exists m a,
    JsNum.ofNat n = S754_finite false m (- a)
    /\ 0 <= a <= 52
    /\ 2 ^ 52 <= Z.pos m < 2 ^ 53
    /\ Z.pos m = Z.of_nat n * 2 ^ a.
Proof.
  intros Hn Hb. unfold JsNum.maxSafeInteger in Hb. unfold JsNum.ofNat.
  destruct (Z.of_nat n) as [|p|p] eqn:Hz; try lia.
  assert (Hp : Z.pos p < 2 ^ 53) by lia.
  pose proof (digits2_pos_le p Hp) as Hd.
  pose proof (digits2_pos_bounds p) as Hpb.
  unfold binary_normalize, binary_round.
  set (d := digits2_pos p) in *.
  assert (Hf : fexp JsNum.prec JsNum.emax (Z.pos d + 0) = Z.pos d - 53).
  { unfold fexp, emin, JsNum.prec, JsNum.emax. lia. }
  rewrite Hf. unfold shl_align.
  assert (Hshift : exists mz,
     (match Z.pos d - 53 - 0 with
      | Z.neg k => (Pos.iter xO p k, Z.pos d - 53)
      | _ => (p, 0)
      end) = (mz, Z.pos d - 53)
     /\ Z.pos (digits2_pos mz) = 53
     /\ Z.pos mz = Z.pos p * 2 ^ (53 - Z.pos d)).
  { destruct (Z.pos d - 53 - 0) as [|k|k] eqn:Hk; try lia.
    - exists p. split; [f_equal; lia|]. split; [fold d; lia|].
      replace (53 - Z.pos d) with 0 by lia. lia.
    - exists (Pos.iter xO p k). split; [reflexivity|]. split.
      + rewrite digits2_pos_iter_xO. fold d. lia.
      + rewrite iter_xO_value. f_equal. f_equal. lia. }
  destruct Hshift as (mz & -> & Hmz & Hval).
  unfold binary_round_aux, shr_fexp. simpl Zdigits2. rewrite Hmz.
  assert (Hf2 : fexp JsNum.prec JsNum.emax (53 + (Z.pos d - 53)) - (Z.pos d - 53) = 0).
  { unfold fexp, emin, JsNum.prec, JsNum.emax. lia. }
  rewrite Hf2. simpl. rewrite Hmz, Hf2. simpl.
  assert (Hle : (Z.pos d - 53 <=? JsNum.emax - JsNum.prec) = true).
  { apply Z.leb_le. unfold JsNum.emax, JsNum.prec. lia. }
  rewrite Hle. exists mz, (53 - Z.pos d).
  split; [f_equal; lia|]. split; [lia|]. split; [|exact Hval].
  pose proof (digits2_pos_bounds mz) as Hmb. rewrite Hmz in Hmb. simpl in Hmb. lia.
Qed.

Lemma fexp_normal x : -1021 <= x -> fexp JsNum.prec JsNum.emax x = x - 53.
Proof. intros H. unfold fexp, emin, JsNum.prec, JsNum.emax. lia. Qed.

Lemma round_nearest_even_bounds m l :
  m <= round_nearest_even m l <= m + 1.
Proof.
  unfold round_nearest_even. destruct l as [|[| |]]; try lia.
  destruct (Z.even m); lia.
Qed.

Lemma loc_of_shr_record_of_loc m l : loc_of_shr_record (shr_record_of_loc m l) = l.
Proof. destruct l as [|[| |]]; reflexivity. Qed.

Lemma shr_m_of_loc m l : shr_m (shr_record_of_loc m l) = m.
Proof. destruct l as [|[| |]]; reflexivity. Qed.

Lemma shr_m_shr_1 q l :
  shr_m (shr_1 (shr_record_of_loc (Z.pos q) l)) = Z.pos q / 2.
Proof.
  destruct l as [|[| |]]; destruct q as [p|p|]; try reflexivity; cbn [shr_record_of_loc shr_1 shr_m].
  all: try (rewrite Pos2Z.inj_xI; apply Z.div_unique with (r := 1); lia).
  all: try (rewrite Pos2Z.inj_xO; apply Z.div_unique with (r := 0); lia).
Qed.

(** The last stage of the rounding: a mantissa of 53 bits is kept, the
    mantissa 2^53 is renormalised. *)
Lemma round_finish (m : positive) e :
  2 ^ 52 <= Z.pos m <= 2 ^ 53 -> -1000 <= e <= 900 ->
  exists M E,
    (let '(mrs, e2) := shr_fexp JsNum.prec JsNum.emax (Z.pos m) e loc_Exact in
     match shr_m mrs with
     | Z0 => S754_zero false
     | Zpos mm =>
         if e2 <=? JsNum.emax - JsNum.prec then S754_finite false mm e2
         else S754_infinity false
     | _ => S754_nan
     end) = S754_finite false M E
    /\ e <= E <= e + 1
    /\ 2 ^ 52 <= Z.pos M
    /\ Z.pos M * 2 ^ (E - e) = Z.pos m.
Proof.
  intros Hm He. unfold shr_fexp. simpl Zdigits2.
  destruct (Z.eq_dec (Z.pos m) (2 ^ 53)) as [Heq|Hne].
  - assert (Hd : Z.pos (digits2_pos m) = 54) by (apply digits2_pos_unique; simpl; lia).
    rewrite Hd, fexp_normal by lia.
    replace (54 + e - 53 - e) with 1 by lia.
    injection Heq as ->. simpl.
    replace (e + 1 <=? JsNum.emax - JsNum.prec) with true
      by (symmetry; apply Z.leb_le; unfold JsNum.emax, JsNum.prec; lia).
    exists 4503599627370496%positive, (e + 1). split; [reflexivity|]. split; [lia|].
    split; [simpl; lia|].
    replace (e + 1 - e) with 1 by lia. reflexivity.
  - assert (Hd : Z.pos (digits2_pos m) = 53) by (apply digits2_pos_unique; simpl; lia).
    rewrite Hd, fexp_normal by lia.
    replace (53 + e - 53 - e) with 0 by lia. simpl.
    replace (e <=? JsNum.emax - JsNum.prec) with true
      by (symmetry; apply Z.leb_le; unfold JsNum.emax, JsNum.prec; lia).
    exists m, e. split; [reflexivity|]. split; [lia|]. split; [lia|].
    replace (e - e) with 0 by lia. lia.
Qed.

Lemma binary_round_aux_sandwich (q : positive) e l :
  2 ^ 52 <= Z.pos q < 2 ^ 54 -> -1000 <= e <= 800 ->
  exists M E,
    binary_round_aux JsNum.prec JsNum.emax false (Z.pos q) e l = S754_finite false M E
    /\ e <= E <= e + 2
    /\ 2 ^ 52 <= Z.pos M
    /\ (Z.pos q < 2 ^ 53 -> Z.pos q <= Z.pos M * 2 ^ (E - e) <= Z.pos q + 1)
    /\ (2 ^ 53 <= Z.pos q -> Z.pos q - 1 <= Z.pos M * 2 ^ (E - e) <= Z.pos q + 2).
Proof.
  intros Hq He. unfold binary_round_aux.
  destruct (Z_lt_le_dec (Z.pos q) (2 ^ 53)) as [Hlt|Hge].
  - assert (Hd : Zdigits2 (Z.pos q) = 53) by (apply digits2_pos_unique; simpl; lia).
    unfold shr_fexp at 1. rewrite Hd, fexp_normal by lia.
    replace (53 + e - 53 - e) with 0 by lia. unfold shr at 1.
    rewrite loc_of_shr_record_of_loc, shr_m_of_loc.
    pose proof (round_nearest_even_bounds (Z.pos q) l) as Hr.
    destruct (round_nearest_even (Z.pos q) l) as [|m|m] eqn:Hround; try lia.
    destruct (round_finish m e) as (M & E & Hfin & HE & HM & Hval); [lia|lia|].
    exists M, E. split; [exact Hfin|]. split; [lia|]. split; [exact HM|].
    split; [intros _; lia|lia].
  - assert (Hd : Zdigits2 (Z.pos q) = 54) by (apply digits2_pos_unique; simpl; lia).
    unfold shr_fexp at 1. rewrite Hd, fexp_normal by lia.
    replace (54 + e - 53 - e) with 1 by lia. unfold shr at 1.
    unfold SpecFloat.iter_pos.
    pose proof (shr_m_shr_1 q l) as Hhalf.
    set (mrs := shr_1 (shr_record_of_loc (Z.pos q) l)) in *.
    cbv beta iota. rewrite Hhalf.
    assert (Hh : 2 ^ 52 <= Z.pos q / 2 < 2 ^ 53).
    { split; [apply Z.div_le_lower_bound; lia|apply Z.div_lt_upper_bound; lia]. }
    pose proof (round_nearest_even_bounds (Z.pos q / 2) (loc_of_shr_record mrs)) as Hr.
    destruct (round_nearest_even (Z.pos q / 2) (loc_of_shr_record mrs)) as [|m|m] eqn:Hround;
      try lia.
    destruct (round_finish m (e + 1)) as (M & E & Hfin & HE & HM & Hval); [lia|lia|].
    exists M, E. split; [exact Hfin|]. split; [lia|]. split; [exact HM|].
    split; [lia|]. intros _.
    replace (E - e) with (Z.succ (E - (e + 1))) by lia.
    rewrite Z.pow_succ_r by lia.
    pose proof (Z.div_mod (Z.pos q) 2 ltac:(lia)) as Hdm.
    pose proof (Z.mod_pos_bound (Z.pos q) 2 ltac:(lia)) as Hmod.
    nia.
Qed.

Lemma bound_low P q V N I K :
  0 <= P -> 1 <= N -> 0 <= q -> q <= V <= q + 1 -> q * N <= I * K < (q + 1) * N -> P <= K ->
  (I * P - N) * K <= N * P * V <= (I * P + N) * K.
Proof.
  intros HP HN Hq0 HV HqN HK.
  assert (A1 : N * P * V <= N * P * (q + 1)) by (apply Z.mul_le_mono_nonneg_l; nia).
  assert (A2 : N * P * q <= N * P * V) by (apply Z.mul_le_mono_nonneg_l; nia).
  assert (A3 : P * (q * N) <= P * (I * K)) by (apply Z.mul_le_mono_nonneg_l; lia).
  assert (A4 : P * (I * K) <= P * ((q + 1) * N)) by (apply Z.mul_le_mono_nonneg_l; lia).
  assert (A5 : N * P <= N * K) by (apply Z.mul_le_mono_nonneg_l; lia).
  split.
  - replace ((I * P - N) * K) with (P * (I * K) - N * K) by ring.
    replace (P * ((q + 1) * N)) with (N * P * q + N * P) in A4 by ring. lia.
  - replace ((I * P + N) * K) with (P * (I * K) + N * K) by ring.
    replace (N * P * (q + 1)) with (P * (q * N) + N * P) in A1 by ring. lia.
Qed.

Lemma bound_high P q V N I K :
  0 <= P -> 1 <= N -> 1 <= q -> q - 1 <= V <= q + 2 -> q * N <= I * K < (q + 1) * N ->
  2 * P <= K ->
  (I * P - N) * K <= N * P * V <= (I * P + N) * K.
Proof.
  intros HP HN Hq0 HV HqN HK.
  assert (A1 : N * P * V <= N * P * (q + 2)) by (apply Z.mul_le_mono_nonneg_l; nia).
  assert (A2 : N * P * (q - 1) <= N * P * V) by (apply Z.mul_le_mono_nonneg_l; nia).
  assert (A3 : P * (q * N) <= P * (I * K)) by (apply Z.mul_le_mono_nonneg_l; lia).
  assert (A4 : P * (I * K) <= P * ((q + 1) * N)) by (apply Z.mul_le_mono_nonneg_l; lia).
  assert (A5 : N * (2 * P) <= N * K) by (apply Z.mul_le_mono_nonneg_l; lia).
  split.
  - replace ((I * P - N) * K) with (P * (I * K) - N * K) by ring.
    replace (P * ((q + 1) * N)) with (N * P * (q - 1) + N * (2 * P)) in A4 by ring. lia.
  - replace ((I * P + N) * K) with (P * (I * K) + N * K) by ring.
    replace (N * P * (q + 2)) with (P * (q * N) + N * (2 * P)) in A1 by ring. lia.
Qed.

(** From the bound on [M * T] to the exponent: the mantissa has 53 bits
    and the value is at most one and a bit. *)
Lemma bound_exponent P M T D N I K V :
  P = 2 ^ 52 -> V = M * T -> K = D * T -> 0 < T -> 0 < D -> 1 <= I <= N -> P <= M ->
  N * P * V <= (I * P + N) * K ->
  2 ^ 51 < D.
Proof.
  intros -> -> -> HT HD HIN HM Hup.
  assert (B1 : (I * 2 ^ 52 + N) * (D * T) <= (N * 2 ^ 52 + N) * (D * T)).
  { apply Z.mul_le_mono_nonneg_r; nia. }
  assert (B2 : N * 2 ^ 52 * (2 ^ 52 * T) <= N * 2 ^ 52 * (M * T)).
  { apply Z.mul_le_mono_nonneg_l; nia. }
  assert (B3 : N * (2 ^ 104 * T) <= N * ((2 ^ 52 + 1) * D * T)).
  { replace (N * (2 ^ 104 * T)) with (N * 2 ^ 52 * (2 ^ 52 * T)) by ring.
    replace (N * ((2 ^ 52 + 1) * D * T)) with ((N * 2 ^ 52 + N) * (D * T)) by ring. lia. }
  assert (B4 : 2 ^ 104 * T <= (2 ^ 52 + 1) * D * T).
  { apply Z.mul_le_mono_pos_l with (p := N); lia. }
  assert (B5 : 2 ^ 104 <= (2 ^ 52 + 1) * D).
  { apply Z.mul_le_mono_pos_r with (p := T); [lia|]. lia. }
  lia.
Qed.

Lemma bound_cancel A B C D T :
  0 < T -> A * (D * T) <= B * (C * T) -> A * D <= B * C.
Proof.
  intros HT H. apply Z.mul_le_mono_pos_r with (p := T); [exact HT|].
  replace (A * D * T) with (A * (D * T)) by ring.
  replace (B * C * T) with (B * (C * T)) by ring. exact H.
Qed.

(** The quotient of two integer doubles, [index / total] with
    [index <= total]: a finite double [M * 2^E] within 2^-52 of the exact
    quotient. *)
Lemma div_error (i n : nat) :
  (1 <= i <= n)%nat -> Z.of_nat n <= JsNum.maxSafeInteger ->
  exists M E,
    JsNum.div (JsNum.ofNat i) (JsNum.ofNat n) = S754_finite false M E
    /\ E <= -52
    /\ (Z.of_nat i * 2 ^ 52 - Z.of_nat n) * 2 ^ (- E) <= Z.of_nat n * 2 ^ 52 * Z.pos M
    /\ Z.of_nat n * 2 ^ 52 * Z.pos M <= (Z.of_nat i * 2 ^ 52 + Z.of_nat n) * 2 ^ (- E).
Proof.
  intros Hin Hsafe.
  destruct (ofNat_canonical i) as (mi & a & -> & Ha & Hmi & Hvi); [lia|lia|].
  destruct (ofNat_canonical n) as (mn & b & -> & Hb & Hmn & Hvn); [lia|lia|].
  set (I := Z.of_nat i) in *. set (N := Z.of_nat n) in *.
  assert (HIN : 1 <= I <= N) by lia.
  unfold JsNum.div, SFdiv, SFdiv_core_binary.
  assert (Hdi : Zdigits2 (Z.pos mi) = 53) by (apply digits2_pos_unique; simpl; lia).
  assert (Hdn : Zdigits2 (Z.pos mn) = 53) by (apply digits2_pos_unique; simpl; lia).
  rewrite Hdi, Hdn.
  replace (53 + - a - (53 + - b)) with (b - a) by lia.
  rewrite fexp_normal by lia.
  replace (- a - - b) with (b - a) by lia.
  replace (Z.min (b - a - 53) (b - a)) with (b - a - 53) by lia.
  replace (b - a - (b - a - 53)) with 53 by lia.
  cbv iota beta. rewrite Z.shiftl_mul_pow2 by lia.
  pose proof (Z_div_mod (Z.pos mi * 2 ^ 53) (Z.pos mn) eq_refl) as Hdiv.
  destruct (Z.div_eucl (Z.pos mi * 2 ^ 53) (Z.pos mn)) as [q r].
  destruct Hdiv as [Hq Hr].
  set (k := a - b + 53).
  assert (Hk : 1 <= k <= 105) by (unfold k; lia).
  assert (Hpow : 2 ^ (a + 53) = 2 ^ k * 2 ^ b).
  { unfold k. rewrite <- Z.pow_add_r by lia. f_equal. lia. }
  assert (Hb0 : 0 < 2 ^ b) by (apply Z.pow_pos_nonneg; lia).
  assert (Hk0 : 0 < 2 ^ k) by (apply Z.pow_pos_nonneg; lia).
  assert (HqN : q * N <= I * 2 ^ k < (q + 1) * N).
  { assert (Hmi53 : Z.pos mi * 2 ^ 53 = I * 2 ^ k * 2 ^ b).
    { rewrite Hvi. rewrite <- Z.mul_assoc, <- Z.pow_add_r by lia. rewrite Hpow. lia. }
    rewrite Hmi53, Hvn in Hq. rewrite Hvn in Hr. nia. }
  assert (Hqb : 2 ^ 52 <= q < 2 ^ 54) by nia.
  assert (HqK : q <= 2 ^ k) by nia.
  destruct q as [|q|q]; try lia.
  destruct (binary_round_aux_sandwich q (b - a - 53) (new_location (Z.pos mn) r))
    as (M & E & HR & HE & HM & Hlow & Hhigh); [lia|lia|].
  cbn [xorb]. rewrite HR. exists M, E. split; [reflexivity|].
  assert (Hk52 : 52 <= k).
  { destruct (Z_le_gt_dec 52 k) as [|Hlt]; [assumption|exfalso].
    assert (2 ^ k <= 2 ^ 51) by (apply Z.pow_le_mono_r; lia). lia. }
  assert (Hk53 : 2 ^ 53 <= Z.pos q -> 53 <= k).
  { intros Hbig. destruct (Z_le_gt_dec 53 k) as [|Hlt]; [assumption|exfalso].
    assert (2 ^ k <= 2 ^ 52) by (apply Z.pow_le_mono_r; lia). lia. }
  set (t := E - (b - a - 53)) in *.
  assert (Ht : 0 <= t <= 2) by (unfold t; lia).
  assert (HEk : - E = k - t) by (unfold t, k; lia).
  assert (Ht0 : 0 < 2 ^ t) by (apply Z.pow_pos_nonneg; lia).
  assert (Hkt : 2 ^ k = 2 ^ (k - t) * 2 ^ t).
  { rewrite <- Z.pow_add_r by lia. f_equal. lia. }
  assert (HK52 : 2 ^ 52 <= 2 ^ k) by (apply Z.pow_le_mono_r; lia).
  assert (HK53 : 2 ^ 53 <= Z.pos q -> 2 * 2 ^ 52 <= 2 ^ k).
  { intros Hbig. change (2 * 2 ^ 52) with (2 ^ 53).
    apply Z.pow_le_mono_r; [lia|]. apply Hk53. exact Hbig. }
  rewrite HEk.
  assert (HV : (I * 2 ^ 52 - N) * 2 ^ k <= N * 2 ^ 52 * (Z.pos M * 2 ^ t)
               <= (I * 2 ^ 52 + N) * 2 ^ k).
  { destruct (Z_lt_le_dec (Z.pos q) (2 ^ 53)) as [Hsmall|Hbig].
    - specialize (Hlow Hsmall). apply (bound_low (2 ^ 52) (Z.pos q)); lia.
    - specialize (Hhigh Hbig). specialize (HK53 Hbig).
      apply (bound_high (2 ^ 52) (Z.pos q)); lia. }
  assert (HD : 0 < 2 ^ (k - t)) by (apply Z.pow_pos_nonneg; lia).
  assert (Hlt : 2 ^ 51 < 2 ^ (k - t)).
  { apply (bound_exponent (2 ^ 52) (Z.pos M) (2 ^ t) (2 ^ (k - t)) N I (2 ^ k)
             (Z.pos M * 2 ^ t)); try lia. }
  assert (Hkt52 : 52 <= k - t).
  { destruct (Z_le_gt_dec 52 (k - t)) as [Hge|Hlt']; [assumption|exfalso].
    assert (2 ^ (k - t) <= 2 ^ 51) by (apply Z.pow_le_mono_r; lia). lia. }
  split; [lia|]. rewrite Hkt in HV. destruct HV as [HV1 HV2]. split.
  - apply (bound_cancel _ _ _ _ (2 ^ t) Ht0).
    replace (N * 2 ^ 52 * (Z.pos M * 2 ^ t)) with ((N * 2 ^ 52) * (Z.pos M * 2 ^ t)) by ring.
    exact HV1.
  - apply (bound_cancel _ _ _ _ (2 ^ t) Ht0).
    replace (N * 2 ^ 52 * Z.pos M * (1 * 2 ^ t)) with (N * 2 ^ 52 * (Z.pos M * 2 ^ t)) by ring.
    exact HV2.
Qed.

Lemma div_le_cross a b c d : 0 < b -> 0 < d -> a * d <= c * b -> a / b <= c / d.
Proof.
  intros Hb Hd H. apply Z.div_le_lower_bound; [exact Hd|].
  pose proof (Z.mul_div_le a b Hb) as Hq.
  apply Z.mul_le_mono_pos_l with (p := b); [exact Hb|].
  replace (b * (d * (a / b))) with (d * (b * (a / b))) by ring.
  assert (d * (b * (a / b)) <= d * a) by (apply Z.mul_le_mono_nonneg_l; lia).
  lia.
Qed.

Lemma cross_order N P Mi Mj Ti Tj I J :
  0 < N -> 0 < P -> 2 * N <= P -> I + 1 <= J -> 0 < Ti -> 0 < Tj ->
  N * P * Mi <= (I * P + N) * Ti ->
  (J * P - N) * Tj <= N * P * Mj ->
  Mi * Tj <= Mj * Ti.
Proof.
  intros HN HP H2 HIJ HTi HTj Hi Hj.
  assert (C0 : I * P + N <= J * P - N) by nia.
  assert (C1 : N * P * Mi * Tj <= (I * P + N) * Ti * Tj)
    by (apply Z.mul_le_mono_nonneg_r; lia).
  assert (C2 : (J * P - N) * Tj * Ti <= N * P * Mj * Ti)
    by (apply Z.mul_le_mono_nonneg_r; lia).
  assert (C3 : (I * P + N) * (Ti * Tj) <= (J * P - N) * (Ti * Tj))
    by (apply Z.mul_le_mono_nonneg_r; nia).
  assert (C4 : N * P * (Mi * Tj) <= N * P * (Mj * Ti)).
  { replace (N * P * (Mi * Tj)) with (N * P * Mi * Tj) by ring.
    replace (N * P * (Mj * Ti)) with (N * P * Mj * Ti) by ring.
    replace ((I * P + N) * Ti * Tj) with ((I * P + N) * (Ti * Tj)) in C1 by ring.
    replace ((J * P - N) * Tj * Ti) with ((J * P - N) * (Ti * Tj)) in C2 by ring.
    lia. }
  apply Z.mul_le_mono_pos_l with (p := N * P); [nia|exact C4].
Qed.

Lemma hundredths_le (i j n : nat) :
  (1 <= i <= j)%nat -> (j <= n)%nat -> Z.of_nat n <= JsNum.maxArrayLength ->
  hundredths i n <= hundredths j n.
Proof.
  intros Hij Hjn Hn. unfold JsNum.maxArrayLength in Hn.
  assert (Hsafe : Z.of_nat n <= JsNum.maxSafeInteger) by (unfold JsNum.maxSafeInteger; lia).
  destruct (Nat.eq_dec i j) as [->|Hne]; [lia|].
  destruct (div_error i n) as (Mi & Ei & Hi & HEi & Hlo_i & Hhi_i); [lia|exact Hsafe|].
  destruct (div_error j n) as (Mj & Ej & Hj & HEj & Hlo_j & Hhi_j); [lia|exact Hsafe|].
  unfold hundredths. rewrite Hi, Hj.
  destruct Ei as [|pi|pi]; try lia. destruct Ej as [|pj|pj]; try lia.
  unfold JsNum.nearestScaled.
  change (- Z.neg pi) with (Z.pos pi) in *. change (- Z.neg pj) with (Z.pos pj) in *.
  assert (Hti : 0 < 2 ^ Z.pos pi) by (apply Z.pow_pos_nonneg; lia).
  assert (Htj : 0 < 2 ^ Z.pos pj) by (apply Z.pow_pos_nonneg; lia).
  assert (Hc : Z.pos Mi * 2 ^ Z.pos pj <= Z.pos Mj * 2 ^ Z.pos pi).
  { apply (cross_order (Z.of_nat n) (2 ^ 52) _ _ _ _ (Z.of_nat i) (Z.of_nat j)); try lia. }
  apply div_le_cross; lia.
Qed.

Lemma hundredths_last n :
  (0 < n)%nat -> Z.of_nat n <= JsNum.maxSafeInteger -> hundredths n n = 100.
Proof.
  intros Hn Hsafe. unfold hundredths.
  destruct (ofNat_finite n Hn Hsafe) as (m & e & ->). rewrite div_self. reflexivity.
Qed.

Lemma progressOf_hundredths (i n : nat) :
  (1 <= i <= n)%nat -> Z.of_nat n <= JsNum.maxArrayLength ->
  progressOf i n = JsNum.fixedNotation 2 (hundredths i n)
  /\ 0 <= hundredths i n <= 100.
Proof.
  intros Hin Hn.
  assert (Hsafe : Z.of_nat n <= JsNum.maxSafeInteger)
    by (unfold JsNum.maxArrayLength in Hn; unfold JsNum.maxSafeInteger; lia).
  pose proof (hundredths_le i n n ltac:(lia) ltac:(lia) Hn) as Hle.
  rewrite (hundredths_last n ltac:(lia) Hsafe) in Hle.
  destruct (div_error i n) as (M & E & Hd & HE & _); [lia|exact Hsafe|].
  unfold progressOf, hundredths in *. rewrite Hd in *. simpl JsNum.toFixed.
  split; [reflexivity|]. split; [|exact Hle].
  destruct E as [|p|p]; try lia. unfold JsNum.nearestScaled.
  apply Z.div_pos; [|]; assert (0 < 2 ^ Z.pos p) by (apply Z.pow_pos_nonneg; lia); lia.
Qed.

Lemma orderedUpTo_100 : orderedUpTo 100 = true.
Proof. vm_compute. reflexivity. Qed.

Lemma fixedNotation_ordered c c' :
  0 <= c <= c' -> c' <= 100 ->
  numericLe (JsString (JsNum.fixedNotation 2 c)) (JsString (JsNum.fixedNotation 2 c')) = true.
Proof.
  intros Hc Hc'. pose proof orderedUpTo_100 as H. unfold orderedUpTo in H.
  rewrite forallb_forall in H.
  specialize (H (Z.to_nat c) ltac:(apply in_seq; lia)).
  rewrite forallb_forall in H.
  specialize (H (Z.to_nat c') ltac:(apply in_seq; lia)).
  rewrite !Z2Nat.id in H by lia.
  replace (Z.to_nat c <=? Z.to_nat c')%nat with true in H
    by (symmetry; apply Nat.leb_le; lia).
  exact H.
Qed.

(** The progress values never decrease. *)
Lemma progressOf_ordered (i j n : nat) :
  (1 <= i <= j)%nat -> (j <= n)%nat -> Z.of_nat n <= JsNum.maxArrayLength ->
  numericLe (JsString (progressOf i n)) (JsString (progressOf j n)) = true.
Proof.
  intros Hij Hjn Hn.
  destruct (progressOf_hundredths i n) as [-> Hi]; [lia|exact Hn|].
  destruct (progressOf_hundredths j n) as [-> Hj]; [lia|exact Hn|].
  pose proof (hundredths_le i j n Hij Hjn Hn).
  apply fixedNotation_ordered; lia.
Qed.

Local Close Scope Z_scope.

(** ** The events of a population run *)

Lemma progressEvents_length total tables : forall index,
  length (progressEvents total tables index) = length tables.
Proof. induction tables as [|t rest IH]; intros index; simpl; [|rewrite IH]; reflexivity. Qed.

Lemma progressEvents_lookup total tables : forall index k,
  progressEvents total tables index !! k
  = progressEvent total (index + k) <$> tables !! k.
Proof.
  induction tables as [|t rest IH]; intros index k; [reflexivity|].
  destruct k as [|k]; simpl.
  - rewrite Nat.add_0_r. reflexivity.
  - rewrite IH. replace (S index + k)%nat with (index + S k)%nat by lia. reflexivity.
Qed.

Lemma progressEvents_types total tables : forall index,
  Forall (fun e => type e = "database:progress") (progressEvents total tables index).
Proof.
  induction tables as [|t rest IH]; intros index; simpl; constructor; [reflexivity|apply IH].
Qed.

Lemma progressEvents_indices total tables : forall index,
  currentIndexOf <$> progressEvents total tables index = Some <$> seq index (length tables).
Proof.
  induction tables as [|t rest IH]; intros index; simpl; [reflexivity|].
  rewrite IH. reflexivity.
Qed.

Lemma progressEvents_last total tables : forall index e,
  last (progressEvents total tables index) = Some e ->
  progressValueOf e
  = Some (JsString (progressOf (index + length tables - 1) total)).
Proof.
  induction tables as [|t rest IH]; intros index e; [discriminate|].
  destruct rest as [|t' rest'].
  - simpl. intros [= <-]. simpl. replace (index + 1 - 1)%nat with index by lia. reflexivity.
  - intros Hlast. change (last (progressEvents total (t' :: rest') (S index)) = Some e) in Hlast.
    rewrite (IH (S index) e Hlast). simpl length. do 3 f_equal. lia.
Qed.

(** C2, as the code has it.  A run over [n > 0] tables, with a handle
    and against a remote whose cursor chains end, dispatches exactly [n]
    progress events and then one [database:ready]; their [currentIndex]
    goes from 1 to [n] in order and the last progress value is [1.00].
    The values have two decimals: read as numbers they never decrease, and
    they grow strictly as long as there are at most a hundred tables. *)
Theorem populateEmptyTables_progress (fuel : nat) (E : Env) (tables : list Table) (w : World) :
  (0 < length tables)%nat ->
  (Z.of_nat (length tables) <= JsNum.maxArrayLength)%Z ->
  db (this w) <> None ->
  forallb (settles fuel E (this w)) tables = true ->
  exists w' progress,
    populateEmptyTables fuel E tables w = (Normal tt, w')
    /\ dispatched (trace w') = dispatched (trace w) ++ progress ++ [readyEvent]
    /\ length progress = length tables
    /\ Forall (fun e => type e = "database:progress") progress
    /\ currentIndexOf <$> progress = Some <$> seq 1 (length tables)
    /\ (exists e, last progress = Some e /\ progressValueOf e = Some (JsString "1.00"))
    /\ (forall k k' e1 e2,
          (k <= k')%nat -> progress !! k = Some e1 -> progress !! k' = Some e2 ->
          exists a b,
            progressValueOf e1 = Some a /\ progressValueOf e2 = Some b
            /\ numericLe a b = true)
    /\ ((length tables <= 100)%nat ->
        forall k e1 e2,
          progress !! k = Some e1 -> progress !! S k = Some e2 ->
          exists a b,
            progressValueOf e1 = Some a /\ progressValueOf e2 = Some b
            /\ numericLt a b = true).
Proof.
  intros Hpos Hlen Hdb Hs.
  assert (Hsafe : (Z.of_nat (length tables) <= JsNum.maxSafeInteger)%Z).
  { unfold JsNum.maxArrayLength in Hlen. unfold JsNum.maxSafeInteger. lia. }
  destruct (populateEmptyTables_run fuel E tables w Hdb Hs) as (w' & Hrun & _ & Hevents).
  exists w', (progressEvents (length tables) tables 1).
  split; [exact Hrun|]. split; [exact Hevents|].
  split; [apply progressEvents_length|].
  split; [apply progressEvents_types|].
  split; [apply progressEvents_indices|].
  split; [|split; [intros k k' e1 e2 Hk|intros Hsmall k e1 e2]].
  - destruct (last (progressEvents (length tables) tables 1)) as [e|] eqn:Hlast.
    + exists e. split; [reflexivity|].
      rewrite (progressEvents_last _ _ _ _ Hlast).
      replace (1 + length tables - 1)%nat with (length tables) by lia.
      rewrite (progressOf_last _ Hpos Hsafe). reflexivity.
    + apply last_None in Hlast. apply (f_equal length) in Hlast.
      rewrite progressEvents_length in Hlast. simpl in Hlast. lia.
  - rewrite !progressEvents_lookup.
    destruct (tables !! k) as [t1|] eqn:H1; [|discriminate].
    destruct (tables !! k') as [t2|] eqn:H2; [|discriminate].
    simpl. intros [= <-] [= <-]. eexists _, _. split; [reflexivity|]. split; [reflexivity|].
    apply lookup_lt_Some in H2.
    apply progressOf_ordered; [lia|lia|exact Hlen].
  - rewrite !progressEvents_lookup.
    destruct (tables !! k) as [t1|] eqn:H1; [|discriminate].
    destruct (tables !! S k) as [t2|] eqn:H2; [|discriminate].
    simpl. intros [= <-] [= <-]. eexists _, _. split; [reflexivity|]. split; [reflexivity|].
    apply lookup_lt_Some in H2.
    replace (1 + S k)%nat with (S (1 + k)) by lia.
    apply progressOf_strict; lia.
Qed.

Lemma populateEmptyTables_progress_witness :
  exists w',
    populateEmptyTables 1 Scenario.healthy [Scenario.pokemon; Scenario.berries]
      Scenario.connected = (Normal tt, w')
    /\ dispatched (trace w') =
         dispatched (trace Scenario.connected) ++
         [ {| type := "database:progress";
              detail := DetailProgress 1 2 "pokemon" (JsString "0.50") |};
           {| type := "database:progress";
              detail := DetailProgress 2 2 "berries" (JsString "1.00") |};
           readyEvent ].
Proof.
  destruct (populateEmptyTables_progress 1 Scenario.healthy
              [Scenario.pokemon; Scenario.berries] Scenario.connected)
    as (w' & progress & Hrun & Hevents & _);
    [simpl; lia|vm_compute; discriminate|vm_compute; discriminate|vm_compute; reflexivity|].
  exists w'. split; [exact Hrun|].
  replace w' with (populateEmptyTables 1 Scenario.healthy
                     [Scenario.pokemon; Scenario.berries] Scenario.connected).2
    by (rewrite Hrun; reflexivity).
  vm_compute. reflexivity.
Defined.

(** C2 as it is stated fails for a run over a hundred and one tables:
    the tables fifty and fifty-one both report [0.50], so the progress
    values do not grow strictly. *)
Lemma populateEmptyTables_progress_repeats :
  (populateEmptyTables 0 Scenario.offline Scenario.manyTables Scenario.wideConnected).1
    = Normal tt
  /\ ofType "database:progress"
       (dispatched (trace (populateEmptyTables 0 Scenario.offline Scenario.manyTables
                             Scenario.wideConnected).2)) !! 49%nat
     = Some {| type := "database:progress";
               detail := DetailProgress 50 101 "t50" (JsString "0.50") |}
  /\ ofType "database:progress"
       (dispatched (trace (populateEmptyTables 0 Scenario.offline Scenario.manyTables
                             Scenario.wideConnected).2)) !! 50%nat
     = Some {| type := "database:progress";
               detail := DetailProgress 51 101 "t51" (JsString "0.50") |}
  /\ numericLt (JsString "0.50") (JsString "0.50") = false.
Proof.
  split; [vm_compute; reflexivity|]. split; [vm_compute; reflexivity|].
  split; vm_compute; reflexivity.
Qed.

Lemma progressEvents_shape total tables : forall index,
  Forall (fun e => exists i t,
            (index <= i < index + length tables)%nat /\ e = progressEvent total i t)
         (progressEvents total tables index).
Proof.
  induction tables as [|t rest IH]; intros index; simpl; constructor.
  - exists index, t. split; [lia|reflexivity].
  - eapply Forall_impl; [apply IH|]. intros e (i & t' & Hi & ->).
    exists i, t'. split; [lia|reflexivity].
Qed.

(** What the listener of the application makes of the last progress
    value, and of one whose product with 100 is not an integer. *)
Lemma listenerProgress_examples :
  listenerProgress (JsString "1.00") = JsNum.ofNat 100
  /\ listenerProgress (JsString "0.07") = S754_finite false 7881299347898369 (-50)
  /\ JsNum.ofNat 7 = S754_finite false 7881299347898368 (-50).
Proof. repeat split; vm_compute; reflexivity. Qed.

(** C9.  Whatever the outcome of the run, every [database:progress]
    event that [populateEmptyTables] dispatches carries, as
    [detail.progress], the string that [toFixed(2)] makes of
    [index / tables.length]: its [typeof] is [string], not [number], and
    the listener that multiplies it by 100 goes through the number that
    the string reads as. *)
Theorem populateEmptyTables_progress_text (fuel : nat) (E : Env)
    (tables : list Table) (w : World) :
  exists events,
    dispatched (trace (populateEmptyTables fuel E tables w).2)
      = dispatched (trace w) ++ events
    /\ Forall (fun e =>
         type e = "database:progress" ->
         exists index tableName text,
           (1 <= index <= length tables)%nat
           /\ text = JsNum.toFixed
                       (JsNum.div (JsNum.ofNat index) (JsNum.ofNat (length tables))) 2
           /\ detail e = DetailProgress index (length tables) tableName (JsString text)
           /\ typeof (JsString (O := unit) text) = "string"
           /\ typeof (JsString (O := unit) text) <> "number"
           /\ listenerProgress (JsString text)
              = JsNum.mul (JsNum.stringToNumber text) (JsNum.ofNat 100))
       events.
Proof.
  destruct (populateEmptyTables_events fuel E tables w) as (events & Hevents & [rest Hrest]).
  exists events. split; [exact Hevents|].
  assert (Hall : Forall (fun e =>
         type e = "database:progress" ->
         exists index tableName text,
           (1 <= index <= length tables)%nat
           /\ text = JsNum.toFixed
                       (JsNum.div (JsNum.ofNat index) (JsNum.ofNat (length tables))) 2
           /\ detail e = DetailProgress index (length tables) tableName (JsString text)
           /\ typeof (JsString (O := unit) text) = "string"
           /\ typeof (JsString (O := unit) text) <> "number"
           /\ listenerProgress (JsString text)
              = JsNum.mul (JsNum.stringToNumber text) (JsNum.ofNat 100))
         (progressEvents (length tables) tables 1 ++ [readyEvent])).
  { apply Forall_app. split.
    - eapply Forall_impl; [apply progressEvents_shape|].
      intros e (i & t & Hi & ->) _.
      exists i, (table_name t), (progressOf i (length tables)).
      split; [lia|]. split; [reflexivity|]. split; [reflexivity|].
      split; [reflexivity|]. split; [discriminate|reflexivity].
    - constructor; [|constructor]. intros H. discriminate H. }
  rewrite Hrest in Hall. apply Forall_app in Hall. apply Hall.
Qed.

(** * Further properties of the code *)

(** ** Initializing and refreshing *)

(** The whole run of an [initializeDatabase] whose requests succeed. *)
Lemma initializeDatabase_done E w :
  let m := this w in
  let name := config_name (config m) in
  storable (config m) = true ->
  (dbLocale m = userLocale m \/ deleteRequest E name = None) ->
  openRequest E name = None ->
  initializeDatabase E w =
    (Normal tt,
     {| this := initialized E m;
        indexedDB := opened name (storesOf (config m)) (afterReset m (indexedDB w));
        trace := trace w ++ creating m
                   ++ [lifecycle "database:beforeConnect" name; DexieOpen name;
                       lifecycle "database:afterConnect" name] |}).
Proof.
  intros m name Hs Hreset Hopen. subst m name.
  pose proof (storable_version _ Hs) as Hv. pose proof (storable_schemas _ Hs) as Hm.
  unfold storesOf in Hm.
  unfold initializeDatabase, creating, resetting, afterReset, opened, initialized, boundHandle.
  js_unfold. simpl.
  destruct (String.eqb (dbLocale (this w)) (userLocale (this w))) eqn:Heq; simpl.
  - rewrite Hv, Hm. simpl. rewrite Hopen. simpl. cbv [record set_indexedDB set_this set_db set_locale this indexedDB trace config dbLocale userLocale locale db this_db storesOf]; rewrite <- ?app_assoc; reflexivity.
  - destruct Hreset as [Hsame|Hdel]; [apply String.eqb_eq in Hsame; congruence|].
    rewrite Hdel. simpl. rewrite Hv, Hm. simpl. rewrite Hopen. simpl. cbv [record set_indexedDB set_this set_db set_locale this indexedDB trace config dbLocale userLocale locale db this_db storesOf]; rewrite <- ?app_assoc; reflexivity.
Qed.

(** The run of an [initializeDatabase] whose open request fails. *)
Lemma initializeDatabase_refused_open E w e :
  let m := this w in
  let name := config_name (config m) in
  storable (config m) = true ->
  (dbLocale m = userLocale m \/ deleteRequest E name = None) ->
  openRequest E name = Some e ->
  initializeDatabase E w =
    (Throw (Error (failedToInitialize +:+ failedToConnect +:+ message e)),
     {| this := initialized E m;
        indexedDB := afterReset m (indexedDB w);
        trace := trace w ++ creating m
                   ++ [lifecycle "database:beforeConnect" name; DexieOpen name] |}).
Proof.
  intros m name Hs Hreset Hopen. subst m name.
  pose proof (storable_version _ Hs) as Hv. pose proof (storable_schemas _ Hs) as Hm.
  unfold storesOf in Hm.
  unfold initializeDatabase, creating, resetting, afterReset, initialized, boundHandle.
  js_unfold. simpl.
  destruct (String.eqb (dbLocale (this w)) (userLocale (this w))) eqn:Heq; simpl.
  - rewrite Hv, Hm. simpl. rewrite Hopen. simpl. cbv [record set_indexedDB set_this set_db set_locale this indexedDB trace config dbLocale userLocale locale db this_db storesOf]; rewrite <- ?app_assoc; reflexivity.
  - destruct Hreset as [Hsame|Hdel]; [apply String.eqb_eq in Hsame; congruence|].
    rewrite Hdel. simpl. rewrite Hv, Hm. simpl. rewrite Hopen. simpl. cbv [record set_indexedDB set_this set_db set_locale this indexedDB trace config dbLocale userLocale locale db this_db storesOf]; rewrite <- ?app_assoc; reflexivity.
Qed.

Lemma rowsOf_opened w w' name tables dn tn :
  indexedDB w' = opened name tables (indexedDB w) ->
  rowsOf w' dn tn = rowsOf w dn tn.
Proof.
  intros HI. unfold rowsOf. rewrite HI. unfold opened.
  destruct (decide (name = dn)) as [->|Hne].
  - rewrite lookup_insert_eq. simpl. rewrite lookup_union.
    destruct (indexedDB w !! dn) as [existing|]; simpl.
    + destruct (existing !! tn) as [rows|]; simpl.
      * destruct (((fun _ => ∅) <$> tables) !! tn); reflexivity.
      * rewrite lookup_fmap. destruct (tables !! tn); reflexivity.
    + rewrite lookup_empty, lookup_fmap. destruct (tables !! tn); reflexivity.
  - rewrite lookup_insert_ne by exact Hne. reflexivity.
Qed.

Lemma rowsOf_deleted w w' name tn :
  indexedDB w' = delete name (indexedDB w) -> rowsOf w' name tn = ∅.
Proof. intros HI. unfold rowsOf. rewrite HI, lookup_delete_eq. reflexivity. Qed.

Lemma rowsOf_deleted_ne w w' name dn tn :
  indexedDB w' = delete name (indexedDB w) -> dn <> name ->
  rowsOf w' dn tn = rowsOf w dn tn.
Proof.
  intros HI Hne. unfold rowsOf. rewrite HI, lookup_delete_ne by congruence. reflexivity.
Qed.

(** The rows behind an [initializeDatabase] whose requests succeed are
    those that the locale check left. *)
Lemma initializeDatabase_rows E w :
  storable (config (this w)) = true ->
  (dbLocale (this w) = userLocale (this w)
   \/ deleteRequest E (config_name (config (this w))) = None) ->
  openRequest E (config_name (config (this w))) = None ->
  forall dn tn,
    rowsOf (initializeDatabase E w).2 dn tn
    = rowsOf (set_indexedDB (afterReset (this w) (indexedDB w)) w) dn tn.
Proof.
  intros Hs Hreset Hopen dn tn.
  rewrite (initializeDatabase_done E w Hs Hreset Hopen). cbn [snd].
  apply (rowsOf_opened _ _ (config_name (config (this w))) (storesOf (config (this w)))).
  reflexivity.
Qed.

Lemma afterReset_same m databases :
  dbLocale m = userLocale m -> afterReset m databases = databases.
Proof. intros H. unfold afterReset. apply String.eqb_eq in H. rewrite H. reflexivity. Qed.

Lemma afterReset_differ m databases :
  dbLocale m <> userLocale m ->
  afterReset m databases = delete (config_name (config m)) databases.
Proof. intros H. unfold afterReset. apply String.eqb_neq in H. rewrite H. reflexivity. Qed.



(** X2.  With a configuration that [version(..).stores(..)] accepts,
    different locales and requests that succeed, [initializeDatabase]
    returns normally with the same manager state as above, but every
    table of the manager's database is left without rows; the other
    databases of the browser keep theirs. *)
Theorem initializeDatabase_reset_empties (E : Env) (w : World) :
  storable (config (this w)) = true ->
  dbLocale (this w) <> userLocale (this w) ->
  deleteRequest E (config_name (config (this w))) = None ->
  openRequest E (config_name (config (this w))) = None ->
  (initializeDatabase E w).1 = Normal tt
  /\ this (initializeDatabase E w).2 = initialized E (this w)
  /\ (forall tn,
        rowsOf (initializeDatabase E w).2 (config_name (config (this w))) tn = ∅)
  /\ (forall dn tn, dn <> config_name (config (this w)) ->
        rowsOf (initializeDatabase E w).2 dn tn = rowsOf w dn tn).
Proof.
  intros Hs Hne Hdel Hopen.
  split; [rewrite (initializeDatabase_done E w Hs (or_intror Hdel) Hopen); reflexivity|].
  split; [rewrite (initializeDatabase_done E w Hs (or_intror Hdel) Hopen); reflexivity|].
  split.
  - intros tn. rewrite (initializeDatabase_rows E w Hs (or_intror Hdel) Hopen).
    rewrite (afterReset_differ _ _ Hne). apply (rowsOf_deleted w). reflexivity.
  - intros dn tn Hdn. rewrite (initializeDatabase_rows E w Hs (or_intror Hdel) Hopen).
    rewrite (afterReset_differ _ _ Hne).
    apply (rowsOf_deleted_ne w _ (config_name (config (this w)))); [reflexivity|exact Hdn].
Qed.

Lemma initializeDatabase_reset_empties_witness :
  size (rowsOf (Cases.relaunched "fr" "en") "pokedex" "pokemon") = 2%nat
  /\ size (rowsOf (initializeDatabase Scenario.offline (Cases.relaunched "fr" "en")).2
             "pokedex" "pokemon") = 0%nat.
Proof.
  split; [vm_compute; reflexivity|].
  assert (Hne : dbLocale (this (Cases.relaunched "fr" "en"))
                <> userLocale (this (Cases.relaunched "fr" "en"))) by discriminate.
  assert (Hs : storable (config (this (Cases.relaunched "fr" "en"))) = true)
    by (vm_compute; reflexivity).
  destruct (initializeDatabase_reset_empties Scenario.offline (Cases.relaunched "fr" "en")
              Hs Hne eq_refl eq_refl) as (_ & _ & Hempty & _).
  exact (f_equal size (Hempty "pokemon")).
Defined.

Lemma ofType_app ty (l1 l2 : list CustomEvent) :
  ofType ty (l1 ++ l2) = ofType ty l1 ++ ofType ty l2.
Proof. unfold ofType. apply filter_app. Qed.

(** X3.  With a configuration that [version(..).stores(..)] accepts,
    when the open request fails, [initializeDatabase] throws the
    connection failure wrapped in the initialization failure.  The trace
    ends with [database:beforeConnect] and the open request: no
    [database:afterConnect] is dispatched.  The handle stays in
    [this.db], and with equal locales the databases are as they were. *)
Theorem initializeDatabase_connect_failure (E : Env) (w : World) (e : JsError) :
  storable (config (this w)) = true ->
  (dbLocale (this w) = userLocale (this w)
   \/ deleteRequest E (config_name (config (this w))) = None) ->
  openRequest E (config_name (config (this w))) = Some e ->
  let w' := (initializeDatabase E w).2 in
  (initializeDatabase E w).1
    = Throw (Error (failedToInitialize +:+ failedToConnect +:+ message e))
  /\ this w' = initialized E (this w)
  /\ trace w' = trace w ++ creating (this w)
                  ++ [lifecycle "database:beforeConnect" (config_name (config (this w)));
                      DexieOpen (config_name (config (this w)))]
  /\ ofType "database:afterConnect" (dispatched (trace w'))
     = ofType "database:afterConnect" (dispatched (trace w))
  /\ (dbLocale (this w) = userLocale (this w) -> indexedDB w' = indexedDB w).
Proof.
  intros Hs Hreset Hopen w'. subst w'.
  rewrite (initializeDatabase_refused_open E w e Hs Hreset Hopen). simpl.
  split; [reflexivity|]. split; [reflexivity|]. split; [reflexivity|]. split.
  - unfold creating, resetting. rewrite dispatched_app, ofType_app.
    destruct (String.eqb (dbLocale (this w)) (userLocale (this w)));
      (match goal with |- _ ++ ?x = _ =>
         replace x with (@nil CustomEvent) by reflexivity end; apply app_nil_r).
  - intros Heq. unfold afterReset. apply String.eqb_eq in Heq. rewrite Heq. reflexivity.
Qed.

Lemma initializeDatabase_connect_failure_witness :
  (initializeDatabase Cases.openRefused (Scenario.constructed "en" "en")).1
  = Throw (Error "DexieManager: Failed to initialize the database: DexieManager: Failed to connect to the database: The database could not be opened.").
Proof.
  assert (Hs : storable (config (this (Scenario.constructed "en" "en"))) = true)
    by (vm_compute; reflexivity).
  exact (proj1 (initializeDatabase_connect_failure Cases.openRefused
                  (Scenario.constructed "en" "en")
                  (Error "The database could not be opened.")
                  Hs (or_introl eq_refl) eq_refl)).
Defined.

(** The run of an [initializeDatabase] whose configuration
    [version(..).stores(..)] does not accept. *)
Lemma initializeDatabase_unstorable E w :
  let m := this w in
  let name := config_name (config m) in
  storable (config m) = false ->
  (dbLocale m = userLocale m \/ deleteRequest E name = None) ->
  initializeDatabase E w =
    (Throw (Error (failedToInitialize +:+
                   (if (config_version (config m) <=? 0)%Z then notPositive
                    else message (undefinedProperty "split")))),
     {| this := {| config := config m; dbLocale := dbLocale m; userLocale := userLocale m;
                   locale := Some (userLocale m);
                   this_db := DbHandle {| dexie_name := name; dexie_stores := ∅;
                                          dexie_tables := ∅;
                                          dexie_members := dexieMembers E |} |};
        indexedDB := afterReset m (indexedDB w);
        trace := trace w ++ [lifecycle "database:beforeCreate" name; NewDexie name]
                   ++ resetting m ++ [lifecycle "database:afterCreate" name] |}).
Proof.
  intros m name Hs Hreset. subst m name.
  unfold initializeDatabase, resetting, afterReset.
  js_unfold. simpl.
  destruct (storable_false _ Hs) as [Hv|[Hv Hm]]; [|unfold storesOf in Hm];
    (destruct (String.eqb (dbLocale (this w)) (userLocale (this w))) eqn:Heq; simpl;
     [|destruct Hreset as [Hsame|Hdel]; [apply String.eqb_eq in Hsame; congruence|];
       rewrite Hdel; simpl]);
    rewrite Hv; simpl; rewrite ?Hm; simpl;
    cbv [record set_indexedDB set_this set_db set_locale this indexedDB trace config
         dbLocale userLocale locale db this_db];
    rewrite <- ?app_assoc; reflexivity.
Qed.

(** X29.  A configuration that [version(..).stores(..)] does not accept.
    When the locale check passes (equal locales, or a delete request
    that succeeds), [initializeDatabase] throws under the prefix of a
    failed initialization: the error of [version] when the version is
    not a positive number, otherwise the [TypeError] of the schema that
    is missing.  The trace ends with [database:afterCreate]: the schemas
    are not bound and nothing is opened.  [this.db] holds the new
    handle, without table properties, and the databases are as the
    locale check left them. *)
Theorem initializeDatabase_rejected (E : Env) (w : World) :
  let m := this w in
  let name := config_name (config m) in
  storable (config m) = false ->
  (dbLocale m = userLocale m \/ deleteRequest E name = None) ->
  let w' := (initializeDatabase E w).2 in
  (initializeDatabase E w).1 =
    Throw (Error (failedToInitialize +:+
                  (if (config_version (config m) <=? 0)%Z then notPositive
                   else message (undefinedProperty "split"))))
  /\ trace w' = trace w ++ [lifecycle "database:beforeCreate" name; NewDexie name]
                  ++ resetting m ++ [lifecycle "database:afterCreate" name]
  /\ db (this w') = Some {| dexie_name := name; dexie_stores := ∅; dexie_tables := ∅;
                            dexie_members := dexieMembers E |}
  /\ indexedDB w' = afterReset m (indexedDB w)
  /\ ofType "database:beforeConnect" (dispatched (trace w'))
     = ofType "database:beforeConnect" (dispatched (trace w)).
Proof.
  intros m name Hs Hreset w'. subst w'.
  rewrite (initializeDatabase_unstorable E w Hs Hreset). fold m name. cbn [fst snd trace this].
  split; [reflexivity|]. split; [reflexivity|]. split; [reflexivity|].
  split; [reflexivity|].
  unfold resetting. rewrite !dispatched_app, !ofType_app.
  destruct (String.eqb (dbLocale m) (userLocale m)); cbn; rewrite app_nil_r; reflexivity.
Qed.

Lemma initializeDatabase_rejected_witness :
  (initializeDatabase Scenario.offline (Cases.launching Cases.unversioned)).1
  = Throw (Error "DexieManager: Failed to initialize the database: Given version is not a positive number")
  /\ dispatched (trace (initializeDatabase Scenario.offline
                          (Cases.launching Cases.unversioned)).2)
     = [ {| type := "database:beforeCreate"; detail := DetailDbName "pokedex" |};
         {| type := "database:afterCreate"; detail := DetailDbName "pokedex" |} ].
Proof.
  assert (Hs : storable (config (this (Cases.launching Cases.unversioned))) = false)
    by (vm_compute; reflexivity).
  destruct (initializeDatabase_rejected Scenario.offline (Cases.launching Cases.unversioned)
              Hs (or_introl eq_refl)) as (Hthrow & Htrace & _).
  split; [exact Hthrow|]. rewrite Htrace. reflexivity.
Defined.

(** X4.  The failures of [refreshDatabase].  Without a handle it throws
    the bare not-found error and touches nothing.  With a handle whose
    delete request fails it throws the deletion failure wrapped in the
    refresh failure, after [database:beforeRefresh],
    [database:beforeDelete] and the request: the handle and the
    databases are as before and no [database:afterRefresh] is
    dispatched. *)
Theorem refreshDatabase_failures (E : Env) (w : World) :
  (db (this w) = None ->
     refreshDatabase E w = (Throw (Error noDatabaseToRefresh), w))
  /\ (forall d e,
        db (this w) = Some d ->
        deleteRequest E (dexie_name d) = Some e ->
        refreshDatabase E w =
          (Throw (Error (failedToRefresh +:+ failedToDelete +:+ message e)),
           {| this := this w;
              indexedDB := indexedDB w;
              trace := trace w ++ [lifecycle "database:beforeRefresh" (dexie_name d);
                                   lifecycle "database:beforeDelete" (dexie_name d);
                                   DexieDelete (dexie_name d)] |})).
Proof.
  split.
  - intros Hd. unfold refreshDatabase, bind, getThis. rewrite Hd. reflexivity.
  - intros d e Hd He. rewrite (refreshDatabase_with_handle E w d Hd).
    unfold tryCatch, bind at 1.
    rewrite (deleteDatabase_refused E _ d e); [|exact Hd|exact He].
    unfold throw, record, lifecycle. simpl. rewrite <- !app_assoc. reflexivity.
Qed.

Lemma refreshDatabase_failures_witness :
  refreshDatabase Scenario.offline (Scenario.constructed "en" "en")
  = (Throw (Error "DexieManager: No database found to refresh."),
     Scenario.constructed "en" "en").
Proof.
  exact (proj1 (refreshDatabase_failures Scenario.offline (Scenario.constructed "en" "en"))
           eq_refl).
Defined.

(** The whole run of a [refreshDatabase] whose requests succeed. *)
Lemma refreshDatabase_run E w d :
  let name := config_name (config (this w)) in
  storable (config (this w)) = true ->
  db (this w) = Some d ->
  dexie_name d = name ->
  deleteRequest E name = None ->
  openRequest E name = None ->
  refreshDatabase E w =
    (Normal tt,
     {| this := initialized E (this w);
        indexedDB := opened name (storesOf (config (this w)))
                       (afterReset (this w) (delete name (indexedDB w)));
        trace := (((trace w ++ [lifecycle "database:beforeRefresh" name])
                   ++ [lifecycle "database:beforeDelete" name; DexieDelete name;
                       lifecycle "database:afterDelete" name])
                  ++ creating (this w)
                  ++ [lifecycle "database:beforeConnect" name; DexieOpen name;
                      lifecycle "database:afterConnect" name])
                 ++ [lifecycle "database:afterRefresh" name] |}).
Proof.
  intros name Hs Hd Hname Hdel Hopen.
  rewrite (refreshDatabase_with_handle E w d Hd).
  unfold tryCatch, bind at 1.
  rewrite (deleteDatabase_done E _ d); [|exact Hd|simpl; rewrite Hname; exact Hdel].
  unfold bind at 1.
  match goal with |- context [initializeDatabase E ?w1] =>
    rewrite (initializeDatabase_done E w1 Hs (or_intror Hdel) Hopen) end.
  rewrite Hname. reflexivity.
Qed.

(** X5.  A [refreshDatabase] whose requests succeed, on a handle named
    after the configuration, with a configuration that
    [version(..).stores(..)] accepts: it returns normally; the trace is that of a
    delete followed by that of an [initializeDatabase] (which deletes
    once more when the locales differ), between [database:beforeRefresh]
    and [database:afterRefresh]; the manager's database ends up with no
    row in any table and the other databases keep theirs. *)
Theorem refreshDatabase_done (E : Env) (w : World) (d : Dexie) :
  let name := config_name (config (this w)) in
  storable (config (this w)) = true ->
  db (this w) = Some d ->
  dexie_name d = name ->
  deleteRequest E name = None ->
  openRequest E name = None ->
  let w' := (refreshDatabase E w).2 in
  (refreshDatabase E w).1 = Normal tt
  /\ this w' = initialized E (this w)
  /\ trace w' = trace w
       ++ [lifecycle "database:beforeRefresh" name;
           lifecycle "database:beforeDelete" name; DexieDelete name;
           lifecycle "database:afterDelete" name]
       ++ creating (this w)
       ++ [lifecycle "database:beforeConnect" name; DexieOpen name;
           lifecycle "database:afterConnect" name;
           lifecycle "database:afterRefresh" name]
  /\ (forall tn, rowsOf w' name tn = ∅)
  /\ (forall dn tn, dn <> name -> rowsOf w' dn tn = rowsOf w dn tn).
Proof.
  intros name Hs Hd Hname Hdel Hopen w'. subst w'.
  rewrite (refreshDatabase_run E w d Hs Hd Hname Hdel Hopen). fold name. simpl.
  split; [reflexivity|]. split; [reflexivity|]. split.
  { unfold lifecycle, creating, resetting. fold name.
    destruct (String.eqb (dbLocale (this w)) (userLocale (this w)));
      simpl; rewrite <- ?app_assoc; reflexivity. }
  set (w0 := set_indexedDB (delete name (indexedDB w)) w).
  set (w1 := set_indexedDB (afterReset (this w) (delete name (indexedDB w))) w).
  assert (Hreset : forall dn tn, rowsOf w1 dn tn = rowsOf w0 dn tn).
  { intros dn tn. subst w0 w1. unfold afterReset, rowsOf. cbn [indexedDB set_indexedDB].
    destruct (String.eqb (dbLocale (this w)) (userLocale (this w))); [reflexivity|].
    fold name. destruct (decide (dn = name)) as [->|Hne].
    - rewrite !lookup_delete_eq. reflexivity.
    - rewrite (lookup_delete_ne (delete name (indexedDB w))) by congruence. reflexivity. }
  split.
  - intros tn.
    rewrite (rowsOf_opened w1 _ name (storesOf (config (this w)))) by reflexivity.
    rewrite Hreset. apply (rowsOf_deleted w). reflexivity.
  - intros dn tn Hdn.
    rewrite (rowsOf_opened w1 _ name (storesOf (config (this w)))) by reflexivity.
    rewrite Hreset. apply (rowsOf_deleted_ne w w0 name); [reflexivity|exact Hdn].
Qed.

Lemma refreshDatabase_done_witness :
  (refreshDatabase Scenario.offline Cases.stocked).1 = Normal tt
  /\ size (rowsOf Cases.stocked "pokedex" "pokemon") = 2%nat
  /\ size (rowsOf (refreshDatabase Scenario.offline Cases.stocked).2 "pokedex" "pokemon")
     = 0%nat.
Proof.
  assert (Hs : storable (config (this Cases.stocked)) = true) by (vm_compute; reflexivity).
  assert (Hd : db (this Cases.stocked) = Some Scenario.handle) by (vm_compute; reflexivity).
  destruct (refreshDatabase_done Scenario.offline Cases.stocked
              Scenario.handle
              Hs Hd eq_refl eq_refl eq_refl) as (Hrun & _ & _ & Hempty & _).
  split; [exact Hrun|]. split; [vm_compute; reflexivity|].
  exact (f_equal size (Hempty "pokemon")).
Defined.

(** ** Deleting twice, and a refresh that cannot reconnect *)

(** X6.  A [deleteDatabase] whose request succeeds returns normally
    after [database:beforeDelete], the request and
    [database:afterDelete]; the handle is gone, the database of the
    handle has no rows left and the other databases keep theirs.  A
    second [deleteDatabase] then fails with the wrapped not-found error
    and dispatches nothing more. *)
Theorem deleteDatabase_twice (E : Env) (w : World) (d : Dexie) :
  db (this w) = Some d ->
  deleteRequest E (dexie_name d) = None ->
  let w' := (deleteDatabase E w).2 in
  (deleteDatabase E w).1 = Normal tt
  /\ db (this w') = None
  /\ trace w' = trace w ++ [lifecycle "database:beforeDelete" (dexie_name d);
                            DexieDelete (dexie_name d);
                            lifecycle "database:afterDelete" (dexie_name d)]
  /\ (forall tn, rowsOf w' (dexie_name d) tn = ∅)
  /\ (forall dn tn, dn <> dexie_name d -> rowsOf w' dn tn = rowsOf w dn tn)
  /\ (deleteDatabase E ;;; deleteDatabase E) w
     = (Throw (Error (failedToDelete +:+ noDatabaseToDelete)), w').
Proof.
  intros Hd Hdel w'. subst w'. unfold bind.
  rewrite (deleteDatabase_done E w d Hd Hdel). cbn [fst snd].
  split; [reflexivity|]. split; [reflexivity|]. split; [reflexivity|].
  split; [intros tn; apply (rowsOf_deleted w); reflexivity|].
  split; [intros dn tn Hne; apply (rowsOf_deleted_ne w _ (dexie_name d));
          [reflexivity|exact Hne]|].
  apply deleteDatabase_no_handle. reflexivity.
Qed.

Lemma deleteDatabase_twice_witness :
  (deleteDatabase Scenario.offline ;;; deleteDatabase Scenario.offline) Cases.stocked
  = (Throw (Error "DexieManager: Failed to delete the database: DexieManager: No database found to delete."),
     (deleteDatabase Scenario.offline Cases.stocked).2)
  /\ size (rowsOf (deleteDatabase Scenario.offline Cases.stocked).2 "pokedex" "pokemon")
     = 0%nat.
Proof.
  assert (Hd : db (this Cases.stocked) = Some Scenario.handle) by (vm_compute; reflexivity).
  destruct (deleteDatabase_twice Scenario.offline Cases.stocked
              Scenario.handle
              Hd eq_refl) as (_ & _ & _ & Hempty & _ & Htwice).
  split; [exact Htwice|]. exact (f_equal size (Hempty "pokemon")).
Defined.

Lemma refreshDatabase_refused_open E w d e :
  let name := config_name (config (this w)) in
  storable (config (this w)) = true ->
  db (this w) = Some d ->
  dexie_name d = name ->
  deleteRequest E name = None ->
  openRequest E name = Some e ->
  refreshDatabase E w =
    (Throw (Error (failedToRefresh +:+ failedToInitialize +:+ failedToConnect
                     +:+ message e)),
     {| this := initialized E (this w);
        indexedDB := afterReset (this w) (delete name (indexedDB w));
        trace := ((trace w ++ [lifecycle "database:beforeRefresh" name])
                  ++ [lifecycle "database:beforeDelete" name; DexieDelete name;
                      lifecycle "database:afterDelete" name])
                 ++ creating (this w)
                 ++ [lifecycle "database:beforeConnect" name; DexieOpen name] |}).
Proof.
  intros name Hs Hd Hname Hdel Hopen.
  rewrite (refreshDatabase_with_handle E w d Hd).
  unfold tryCatch, bind at 1.
  rewrite (deleteDatabase_done E _ d); [|exact Hd|simpl; rewrite Hname; exact Hdel].
  unfold bind at 1.
  match goal with |- context [initializeDatabase E ?w1] =>
    rewrite (initializeDatabase_refused_open E w1 e Hs (or_intror Hdel) Hopen) end.
  rewrite Hname. reflexivity.
Qed.

(** X7.  A [refreshDatabase] whose delete request succeeds and whose
    open request fails, on a handle named after the configuration, with
    a configuration that [version(..).stores(..)] accepts: it
    throws the connection failure wrapped in the initialization failure
    wrapped in the refresh failure; no [database:afterConnect] and no
    [database:afterRefresh] is dispatched; a handle is in place again,
    but the rows of the database are gone. *)
Theorem refreshDatabase_open_failure (E : Env) (w : World) (d : Dexie) (e : JsError) :
  let name := config_name (config (this w)) in
  storable (config (this w)) = true ->
  db (this w) = Some d ->
  dexie_name d = name ->
  deleteRequest E name = None ->
  openRequest E name = Some e ->
  let w' := (refreshDatabase E w).2 in
  (refreshDatabase E w).1
    = Throw (Error (failedToRefresh +:+ failedToInitialize +:+ failedToConnect
                      +:+ message e))
  /\ this w' = initialized E (this w)
  /\ trace w' = trace w
       ++ [lifecycle "database:beforeRefresh" name;
           lifecycle "database:beforeDelete" name; DexieDelete name;
           lifecycle "database:afterDelete" name]
       ++ creating (this w)
       ++ [lifecycle "database:beforeConnect" name; DexieOpen name]
  /\ (forall tn, rowsOf w' name tn = ∅).
Proof.
  intros name Hs Hd Hname Hdel Hopen w'. subst w'.
  rewrite (refreshDatabase_refused_open E w d e Hs Hd Hname Hdel Hopen). fold name.
  cbn [fst snd this trace].
  split; [reflexivity|]. split; [reflexivity|]. split.
  { rewrite <- !app_assoc. reflexivity. }
  intros tn. unfold rowsOf, afterReset. cbn [indexedDB].
  destruct (String.eqb (dbLocale (this w)) (userLocale (this w)));
    rewrite ?lookup_delete_eq; reflexivity.
Qed.

Lemma refreshDatabase_open_failure_witness :
  (refreshDatabase Cases.openRefused Cases.stocked).1
  = Throw (Error "DexieManager: Failed to refresh the database: DexieManager: Failed to initialize the database: DexieManager: Failed to connect to the database: The database could not be opened.")
  /\ size (rowsOf (refreshDatabase Cases.openRefused Cases.stocked).2 "pokedex" "pokemon")
     = 0%nat.
Proof.
  assert (Hs : storable (config (this Cases.stocked)) = true) by (vm_compute; reflexivity).
  assert (Hd : db (this Cases.stocked) = Some Scenario.handle) by (vm_compute; reflexivity).
  destruct (refreshDatabase_open_failure Cases.openRefused Cases.stocked
              Scenario.handle
              (Error "The database could not be opened.")
              Hs Hd eq_refl eq_refl eq_refl) as (Hrun & _ & _ & Hempty).
  split; [exact Hrun|]. exact (f_equal size (Hempty "pokemon")).
Defined.

(** ** What the methods keep of the manager *)

Lemma keepsThis_quietM {A} (c : M A) : quietM c -> keepsThis c.
Proof. intros Hq w. apply (Hq w). Qed.

Lemma keepsThis_bind {A B} (c : M A) (k : A -> M B) :
  keepsThis c -> (forall a, keepsThis (k a)) -> keepsThis (bind c k).
Proof.
  intros Hc Hk w. unfold bind. specialize (Hc w).
  destruct (c w) as [[a|e|] w1]; simpl in *; [|exact Hc|exact Hc].
  rewrite (Hk a w1). exact Hc.
Qed.

Lemma keepsThis_dispatchEvent ty det : keepsThis (dispatchEvent ty det).
Proof. intros w. reflexivity. Qed.

Lemma keepsThis_countEmptyTables_for : forall tables emptyTables,
  keepsThis (countEmptyTables_for tables emptyTables).
Proof.
  induction tables as [|t rest IH]; intros emptyTables; simpl.
  - intros w. reflexivity.
  - apply keepsThis_bind; [apply keepsThis_quietM, quietM_tableCount|].
    intros count. destruct (count =? 0)%nat; apply IH.
Qed.

Lemma keepsThis_countEmptyTables : keepsThis countEmptyTables.
Proof.
  apply keepsThis_bind; [intros w; reflexivity|].
  intros m. apply keepsThis_countEmptyTables_for.
Qed.

Lemma keepsThis_populateEmptyTables fuel E tables :
  keepsThis (populateEmptyTables fuel E tables).
Proof.
  apply keepsThis_bind; [|intros _; apply keepsThis_dispatchEvent].
  intros w. apply (populateEmptyTables_for_run fuel E (length tables) tables 1 w).
Qed.

Lemma keepsSetup_keepsThis {A} (c : M A) : keepsThis c -> keepsSetup c.
Proof.
  intros Hc w. rewrite (Hc w). split; [|auto]. repeat split.
Qed.

Lemma keepsSetup_deleteDatabase E : keepsSetup (deleteDatabase E).
Proof.
  intros w. destruct (db (this w)) as [d|] eqn:Hd.
  - destruct (deleteRequest E (dexie_name d)) as [e|] eqn:He.
    + rewrite (deleteDatabase_refused E w d e Hd He). simpl.
      split; [repeat split|auto].
    + rewrite (deleteDatabase_done E w d Hd He). simpl.
      split; [repeat split|]. intros _ d' Hd'. discriminate Hd'.
  - rewrite (deleteDatabase_no_handle E w Hd). simpl. split; [repeat split|auto].
Qed.

Lemma initializeDatabase_coherent E w :
  sameSetup (this w) (this (initializeDatabase E w).2)
  /\ coherent (this (initializeDatabase E w).2).
Proof.
  unfold initializeDatabase. js_unfold. simpl.
  destruct (String.eqb (dbLocale (this w)) (userLocale (this w))); simpl;
    [|destruct (deleteRequest E _); simpl];
    try (destruct (_ <=? _)%Z; simpl; [|destruct (schemaMissing _); simpl;
           [|destruct (openRequest E _); simpl]]);
    (split; [repeat split|]); intros d [= <-]; simpl; split; reflexivity.
Qed.

Lemma keepsThis_lifecycle p ty :
  keepsThis (let* d := thisDb p in dispatchEvent ty (DetailDbName (dexie_name d))).
Proof.
  apply keepsThis_bind; [apply keepsThis_quietM, quietM_thisDb|].
  intros d. apply keepsThis_dispatchEvent.
Qed.

Lemma keepsSetup_refreshDatabase E : keepsSetup (refreshDatabase E).
Proof.
  intros w. destruct (db (this w)) as [d|] eqn:Hd.
  - rewrite (refreshDatabase_with_handle E w d Hd).
    set (w0 := record (lifecycle "database:beforeRefresh" (dexie_name d)) w).
    match goal with |- context [(?c w0).2] => remember (c w0) as r eqn:Hr end.
    unfold tryCatch, bind at 1, throw in Hr.
    destruct (keepsSetup_deleteDatabase E w0) as [Hs1 Hc1].
    change (this w0) with (this w) in *.
    destruct (deleteDatabase E w0) as [[[]|e|] w1]; cbn [snd] in Hs1, Hc1;
      [|subst r; split; assumption|subst r; split; assumption].
    unfold bind at 1 in Hr.
    destruct (initializeDatabase_coherent E w1) as [Hs2 Hc2].
    assert (Hs : sameSetup (this w) (this (initializeDatabase E w1).2)).
    { destruct Hs1 as (?&?&?), Hs2 as (?&?&?). repeat split; congruence. }
    destruct (initializeDatabase E w1) as [[[]|e|] w2]; cbn [snd] in Hs, Hc2;
      [|subst r; split; [assumption|intros _; assumption]
       |subst r; split; [assumption|intros _; assumption]].
    pose proof (keepsThis_lifecycle "name" "database:afterRefresh" w2) as Hk.
    destruct ((let* d' := thisDb "name" in
               dispatchEvent "database:afterRefresh" (DetailDbName (dexie_name d'))) w2)
      as [[[]|e|] w3]; cbn [snd] in Hk; subst r; cbn [snd]; rewrite Hk;
      (split; [assumption|intros _; assumption]).
  - unfold refreshDatabase, bind, getThis. rewrite Hd. simpl.
    split; [repeat split|auto].
Qed.

Lemma keepsThis_ite fuel E (emptyTables : list Table) :
  keepsThis (if (0 <? length emptyTables)%nat
             then populateEmptyTables fuel E emptyTables
             else dispatchEvent "database:ready" DetailNull).
Proof.
  destruct (0 <? length emptyTables)%nat;
    [apply keepsThis_populateEmptyTables|apply keepsThis_dispatchEvent].
Qed.

(** X8.  No method changes the configuration or the two locales of the
    manager, and every method keeps the handle coherent: whenever
    [this.db] holds a handle, it is named after the configuration and
    [this.locale] is the locale of the user.  The constructor starts
    from a coherent manager, and [initializeDatabase] ends in one
    whatever its outcome. *)
Theorem methods_keep_setup (fuel : nat) (E : Env) (tables : list Table) (table : option Table) :
  keepsSetup (initializeDatabase E)
  /\ keepsSetup (deleteDatabase E)
  /\ keepsSetup (refreshDatabase E)
  /\ keepsSetup countEmptyTables
  /\ keepsSetup (populateEmptyTables fuel E tables)
  /\ keepsSetup (syncTable fuel E table)
  /\ keepsSetup (fetchTable fuel E table)
  /\ keepsSetup (populateOnceConnected fuel E)
  /\ (forall c d u m, constructor c d u = Normal m -> coherent m)
  /\ (forall w, coherent (this (initializeDatabase E w).2)).
Proof.
  split.
  { intros w. destruct (initializeDatabase_coherent E w) as [Hs Hc]. split; auto. }
  split; [apply keepsSetup_deleteDatabase|].
  split; [apply keepsSetup_refreshDatabase|].
  split; [apply keepsSetup_keepsThis, keepsThis_countEmptyTables|].
  split; [apply keepsSetup_keepsThis, keepsThis_populateEmptyTables|].
  split; [apply keepsSetup_keepsThis, keepsThis_quietM, quietM_syncTable|].
  split; [apply keepsSetup_keepsThis, keepsThis_quietM, quietM_fetchTable|].
  split.
  { apply keepsSetup_keepsThis. apply keepsThis_bind; [apply keepsThis_countEmptyTables|].
    intros emptyTables. apply keepsThis_ite. }
  split.
  - intros c d u m Hc. rewrite constructor_outcome in Hc.
    destruct (invalidConfig c); [discriminate|].
    destruct (invalidLocale d); [discriminate|].
    destruct (invalidLocale u); [discriminate|].
    destruct c; try discriminate. destruct d; try discriminate.
    destruct u; try discriminate. injection Hc as <-.
    intros d' Hd'. discriminate Hd'.
  - intros w. apply initializeDatabase_coherent.
Qed.

(** ** The population that follows the connection *)

Lemma countEmptyTables_run w d :
  db (this w) = Some d ->
  bindsAll d (config_tables (config (this w))) = true ->
  countEmptyTables w =
    (Normal (filter (fun t => rowCount w d t = 0%nat) (config_tables (config (this w)))), w).
Proof.
  intros Hd Hb. unfold countEmptyTables, bind, getThis.
  rewrite (countEmptyTables_for_spec w d _ [] Hd Hb). reflexivity.
Qed.

Lemma populateOnceConnected_spec fuel E w d :
  db (this w) = Some d ->
  bindsAll d (config_tables (config (this w))) = true ->
  let emptyTables :=
    filter (fun t => rowCount w d t = 0%nat) (config_tables (config (this w))) in
  forallb (settles fuel E (this w)) emptyTables = true ->
  exists w',
    populateOnceConnected fuel E w = (Normal tt, w')
    /\ dispatched (trace w') =
         dispatched (trace w)
           ++ progressEvents (length emptyTables) emptyTables 1 ++ [readyEvent]
    /\ (emptyTables = [] -> w' = record (Dispatch readyEvent) w).
Proof.
  intros Hd Hb emptyTables Hs.
  assert (Hdb : db (this w) <> None) by (rewrite Hd; discriminate).
  unfold populateOnceConnected, bind. rewrite (countEmptyTables_run w d Hd Hb).
  fold emptyTables. destruct emptyTables as [|t rest] eqn:Hempty.
  - simpl. eexists. split; [reflexivity|]. split; [|reflexivity].
    simpl. rewrite dispatched_app. reflexivity.
  - replace (0 <? length (t :: rest))%nat with true by reflexivity.
    destruct (populateEmptyTables_run fuel E (t :: rest) w Hdb Hs) as (w' & Hrun & _ & Hev).
    exists w'. split; [exact Hrun|]. split; [exact Hev|]. discriminate.
Qed.

(** X9.  The callback that follows the connection, on a handle that
    binds the configured tables: it populates the tables that have no
    row, in the order of the configuration, one progress event each, and
    dispatches [database:ready] last; a table that has rows gets no
    event.  When no table is empty it dispatches [database:ready] and
    does nothing else: no request is sent. *)
Theorem populateOnceConnected_run (fuel : nat) (E : Env) (w : World) (d : Dexie) :
  db (this w) = Some d ->
  bindsAll d (config_tables (config (this w))) = true ->
  let emptyTables :=
    filter (fun t => rowCount w d t = 0%nat) (config_tables (config (this w))) in
  forallb (settles fuel E (this w)) emptyTables = true ->
  exists w',
    populateOnceConnected fuel E w = (Normal tt, w')
    /\ dispatched (trace w') =
         dispatched (trace w)
           ++ progressEvents (length emptyTables) emptyTables 1 ++ [readyEvent]
    /\ (emptyTables = [] -> w' = record (Dispatch readyEvent) w).
Proof. apply populateOnceConnected_spec. Qed.

Lemma populateOnceConnected_run_witness :
  exists w',
    populateOnceConnected 1 Scenario.healthy Cases.stocked = (Normal tt, w')
    /\ dispatched (trace w') =
         dispatched (trace Cases.stocked)
           ++ [ {| type := "database:progress";
                   detail := DetailProgress 1 1 "berries" (JsString "1.00") |};
                readyEvent ].
Proof.
  destruct (populateOnceConnected_run 1 Scenario.healthy Cases.stocked
              Scenario.handle) as (w' & Hrun & Hev & _).
  - vm_compute. reflexivity.
  - vm_compute. reflexivity.
  - vm_compute. reflexivity.
  - exists w'. split; [exact Hrun|]. rewrite Hev. vm_compute. reflexivity.
Defined.

Lemma fromEntries_binds {V} (entries : list (string * V)) : forall (acc : gmap string V) k,
  is_Some (acc !! k) \/ k ∈ map fst entries ->
  is_Some (fold_left (fun o kv => <[fst kv := snd kv]> o) entries acc !! k).
Proof.
  induction entries as [|[k0 v0] rest IH]; intros acc k H; simpl.
  - destruct H as [H|H]; [exact H|]. simpl in H. inversion H.
  - apply IH. destruct (decide (k0 = k)) as [->|Hne].
    + left. rewrite lookup_insert_eq. eauto.
    + destruct H as [H|H].
      * left. rewrite lookup_insert_ne by exact Hne. exact H.
      * simpl in H. apply elem_of_cons in H. destruct H as [H|H]; [congruence|].
        right. exact H.
Qed.

Lemma storesOf_declares (c : Config) t :
  In t (config_tables c) -> is_Some (storesOf c !! table_name t).
Proof.
  intros Ht. unfold storesOf, fromEntries.
  apply fromEntries_binds. right. rewrite map_map. simpl.
  apply list_elem_of_In. apply in_map_iff. exists t. split; [reflexivity|exact Ht].
Qed.

Lemma tableProperties_lookup members tables name :
  tableProperties members tables !! name =
    match members !! name with
    | Some _ => None
    | None => tables !! name
    end.
Proof.
  unfold tableProperties. rewrite map_lookup_imap.
  destruct (tables !! name) as [schema|]; simpl; destruct (members !! name); reflexivity.
Qed.

Lemma boundHandle_binds (E : Env) (c : Config) (tables : list Table) :
  (forall t, In t tables -> In t (config_tables c)) ->
  unshadowed E tables = true ->
  bindsAll (boundHandle E c) tables = true.
Proof.
  unfold unshadowed, bindsAll. rewrite !forallb_forall. intros Hsub Hfree t Ht.
  apply bool_decide_eq_true. cbn [boundHandle dexie_tables].
  rewrite tableProperties_lookup.
  specialize (Hfree t Ht). apply bool_decide_eq_true in Hfree. rewrite Hfree.
  apply storesOf_declares. apply Hsub. exact Ht.
Qed.

Lemma storesOf_binds (E : Env) (c : Config) :
  unshadowed E (config_tables c) = true ->
  bindsAll (boundHandle E c) (config_tables c) = true.
Proof. apply boundHandle_binds. auto. Qed.

Lemma fullUrlOf_locale m m' table : locale m = locale m' -> fullUrlOf m table = fullUrlOf m' table.
Proof. intros H. unfold fullUrlOf. rewrite H. reflexivity. Qed.

Lemma settles_locale fuel E m m' : locale m = locale m' ->
  forall table, settles fuel E m table = settles fuel E m' table.
Proof.
  intros H. induction fuel as [|fuel IH]; intros table; simpl;
    rewrite (fullUrlOf_locale m m' table H); [reflexivity|].
  destruct (remote E _); [|reflexivity]. destruct (member data) as [[|r rs]|]; try reflexivity.
  destruct (nextCursor data); [apply IH|reflexivity].
Qed.

(** The run of [initializeThenPopulate] when the requests of the
    lifecycle succeed, in terms of the tables that are empty once the
    database is open. *)
Lemma initializeThenPopulate_run fuel E w :
  let m := this w in
  let name := config_name (config m) in
  storable (config m) = true ->
  unshadowed E (config_tables (config m)) = true ->
  (dbLocale m = userLocale m \/ deleteRequest E name = None) ->
  openRequest E name = None ->
  let w1 := (initializeDatabase E w).2 in
  let emptyTables :=
    filter (fun t => rowCount w1 (boundHandle E (config m)) t = 0%nat)
           (config_tables (config m)) in
  forallb (settles fuel E (initialized E m)) emptyTables = true ->
  exists w',
    initializeThenPopulate fuel E w = (Normal tt, w')
    /\ this w' = initialized E m
    /\ dispatched (trace w') =
         dispatched (trace w1)
           ++ progressEvents (length emptyTables) emptyTables 1 ++ [readyEvent]
    /\ (emptyTables = [] -> w' = record (Dispatch readyEvent) w1).
Proof.
  intros m name Hst Hfree Hreset Hopen. cbv zeta. unfold initializeThenPopulate, bind.
  rewrite (initializeDatabase_done E w Hst Hreset Hopen). cbn [snd fst]. fold m name.
  match goal with |- context [rowCount ?W _ _] => set (w1 := W) end.
  set (emptyTables := filter _ _). intros Hs.
  assert (Hthis : this w1 = initialized E m) by reflexivity.
  assert (Hd : db (this w1) = Some (boundHandle E (config m))) by (rewrite Hthis; reflexivity).
  assert (Hb : bindsAll (boundHandle E (config m)) (config_tables (config (this w1))) = true).
  { rewrite Hthis. apply storesOf_binds. exact Hfree. }
  destruct (populateOnceConnected_spec fuel E w1 (boundHandle E (config m)) Hd Hb)
    as (w' & Hpop & Hev & Hnone).
  { rewrite Hthis. exact Hs. }
  rewrite Hthis in Hev, Hnone. simpl in Hev, Hnone.
  exists w'. split; [exact Hpop|]. split; [|split; [exact Hev|exact Hnone]].
  pose proof (keepsThis_bind _ _ keepsThis_countEmptyTables
                (fun emptyTables : list Table =>
                   keepsThis_ite fuel E emptyTables) w1) as Hk.
  unfold populateOnceConnected in Hpop. rewrite Hpop in Hk. simpl in Hk.
  rewrite Hk. exact Hthis.
Qed.

Lemma filter_all {A} (P : A -> Prop) `{forall x, Decision (P x)} (l : list A) :
  (forall x, x ∈ l -> P x) -> filter P l = l.
Proof.
  induction l as [|x l IH]; intros Hall; [reflexivity|].
  rewrite filter_cons_True by (apply Hall; left).
  f_equal. apply IH. intros y Hy. apply Hall. right. exact Hy.
Qed.

(** The events of [initializeThenPopulate] when the requests of the
    lifecycle succeed, in terms of the rows that the locale check
    left. *)
Lemma initializeThenPopulate_events fuel E w :
  let m := this w in
  let name := config_name (config m) in
  storable (config m) = true ->
  unshadowed E (config_tables (config m)) = true ->
  (dbLocale m = userLocale m \/ deleteRequest E name = None) ->
  openRequest E name = None ->
  let emptyTables :=
    filter (fun t => size (rowsOf (set_indexedDB (afterReset m (indexedDB w)) w)
                             name (table_name t)) = 0%nat)
           (config_tables (config m)) in
  forallb (settles fuel E (initialized E m)) emptyTables = true ->
  exists w',
    initializeThenPopulate fuel E w = (Normal tt, w')
    /\ dispatched (trace w') =
         dispatched (trace w) ++ dispatched (creating m)
           ++ [ {| type := "database:beforeConnect"; detail := DetailDbName name |};
                {| type := "database:afterConnect"; detail := DetailDbName name |} ]
           ++ progressEvents (length emptyTables) emptyTables 1 ++ [readyEvent].
Proof.
  intros m name Hst Hfree Hreset Hopen emptyTables Hs.
  pose proof (initializeThenPopulate_run fuel E w Hst Hfree Hreset Hopen) as Hrun.
  cbv zeta in Hrun. fold m name in Hrun.
  assert (Hfilter :
            filter (fun t => rowCount (initializeDatabase E w).2 (boundHandle E (config m)) t
                             = 0%nat) (config_tables (config m)) = emptyTables).
  { apply list_filter_iff. intros t. unfold rowCount.
    rewrite (initializeDatabase_rows E w Hst Hreset Hopen). reflexivity. }
  rewrite Hfilter in Hrun. destruct (Hrun Hs) as (w' & Hrun' & _ & Hev & _).
  exists w'. split; [exact Hrun'|]. rewrite Hev.
  rewrite (initializeDatabase_done E w Hst Hreset Hopen). cbn [snd trace].
  fold m name. rewrite !dispatched_app. rewrite <- !app_assoc. reflexivity.
Qed.

(** X10.  A launch with equal locales whose open request succeeds, the
    population included, with a configuration that
    [version(..).stores(..)] accepts and in which no table is named
    after a member of the Dexie instances: it returns normally and
    dispatches
    [database:beforeCreate], [database:afterCreate],
    [database:beforeConnect] and [database:afterConnect], then one
    progress event for each configured table that had no row stored
    before the launch, in the order of the configuration, then
    [database:ready].  So [database:afterConnect] precedes every
    progress event, and a table that has rows is left alone. *)
Theorem initializeThenPopulate_same_locale (fuel : nat) (E : Env) (w : World) :
  let m := this w in
  let name := config_name (config m) in
  storable (config m) = true ->
  unshadowed E (config_tables (config m)) = true ->
  dbLocale m = userLocale m ->
  openRequest E name = None ->
  let emptyTables :=
    filter (fun t => size (rowsOf w name (table_name t)) = 0%nat)
           (config_tables (config m)) in
  forallb (settles fuel E (initialized E m)) emptyTables = true ->
  exists w',
    initializeThenPopulate fuel E w = (Normal tt, w')
    /\ dispatched (trace w') =
         dispatched (trace w)
           ++ [ {| type := "database:beforeCreate"; detail := DetailDbName name |};
                {| type := "database:afterCreate"; detail := DetailDbName name |};
                {| type := "database:beforeConnect"; detail := DetailDbName name |};
                {| type := "database:afterConnect"; detail := DetailDbName name |} ]
           ++ progressEvents (length emptyTables) emptyTables 1 ++ [readyEvent].
Proof.
  intros m name Hst Hfree Heq Hopen emptyTables Hs.
  pose proof (initializeThenPopulate_events fuel E w Hst Hfree (or_introl Heq) Hopen) as Hrun.
  cbv zeta in Hrun. fold m name in Hrun.
  rewrite (afterReset_same m _ Heq) in Hrun.
  destruct (Hrun Hs) as (w' & Hrun' & Hev).
  exists w'. split; [exact Hrun'|]. rewrite Hev.
  unfold creating, resetting. apply String.eqb_eq in Heq. rewrite Heq. reflexivity.
Qed.

Lemma initializeThenPopulate_same_locale_witness :
  exists w',
    initializeThenPopulate 1 Scenario.healthy (Cases.relaunched "en" "en") = (Normal tt, w')
    /\ dispatched (trace w') =
         [ {| type := "database:beforeCreate"; detail := DetailDbName "pokedex" |};
           {| type := "database:afterCreate"; detail := DetailDbName "pokedex" |};
           {| type := "database:beforeConnect"; detail := DetailDbName "pokedex" |};
           {| type := "database:afterConnect"; detail := DetailDbName "pokedex" |};
           {| type := "database:progress";
              detail := DetailProgress 1 1 "berries" (JsString "1.00") |};
           readyEvent ].
Proof.
  destruct (initializeThenPopulate_same_locale 1 Scenario.healthy
              (Cases.relaunched "en" "en")) as (w' & Hrun & Hev).
  - vm_compute. reflexivity.
  - vm_compute. reflexivity.
  - reflexivity.
  - reflexivity.
  - vm_compute. reflexivity.
  - exists w'. split; [exact Hrun|]. rewrite Hev. vm_compute. reflexivity.
Defined.

(** X11.  A launch with different locales whose requests succeed, the
    population included, with a configuration that
    [version(..).stores(..)] accepts and in which no table is named
    after a member of the Dexie instances: after
    [database:beforeCreate] the database is
    deleted ([database:beforeDelete], [database:afterDelete]),
    [database:localeChanged] carries the pair of the manager, the
    database is created and connected, and then every configured table
    is populated again: one progress event for each, in the order of the
    configuration, and [database:ready] last. *)
Theorem initializeThenPopulate_reset (fuel : nat) (E : Env) (w : World) :
  let m := this w in
  let name := config_name (config m) in
  storable (config m) = true ->
  unshadowed E (config_tables (config m)) = true ->
  dbLocale m <> userLocale m ->
  deleteRequest E name = None ->
  openRequest E name = None ->
  forallb (settles fuel E (initialized E m)) (config_tables (config m)) = true ->
  exists w',
    initializeThenPopulate fuel E w = (Normal tt, w')
    /\ dispatched (trace w') =
         dispatched (trace w)
           ++ [ {| type := "database:beforeCreate"; detail := DetailDbName name |};
                {| type := "database:beforeDelete"; detail := DetailDbName name |};
                {| type := "database:afterDelete"; detail := DetailDbName name |};
                {| type := "database:localeChanged";
                   detail := DetailLocale (dbLocale m) (userLocale m) |};
                {| type := "database:afterCreate"; detail := DetailDbName name |};
                {| type := "database:beforeConnect"; detail := DetailDbName name |};
                {| type := "database:afterConnect"; detail := DetailDbName name |} ]
           ++ progressEvents (length (config_tables (config m))) (config_tables (config m)) 1
           ++ [readyEvent].
Proof.
  intros m name Hst Hfree Hne Hdel Hopen Hs.
  pose proof (initializeThenPopulate_events fuel E w Hst Hfree (or_intror Hdel) Hopen) as Hrun.
  cbv zeta in Hrun. fold m name in Hrun.
  assert (Hfilter :
            filter (fun t => size (rowsOf (set_indexedDB (afterReset m (indexedDB w)) w)
                                     name (table_name t)) = 0%nat)
                   (config_tables (config m))
            = config_tables (config m)).
  { apply filter_all. intros t _. rewrite (afterReset_differ m _ Hne).
    match goal with |- size ?rows = _ => replace rows with (∅ : gmap Z Row) end;
      [reflexivity|].
    symmetry. apply (rowsOf_deleted w). reflexivity. }
  rewrite Hfilter in Hrun. destruct (Hrun Hs) as (w' & Hrun' & Hev).
  exists w'. split; [exact Hrun'|]. rewrite Hev.
  unfold creating, resetting. apply String.eqb_neq in Hne. fold m. rewrite Hne. reflexivity.
Qed.

Lemma initializeThenPopulate_reset_witness :
  exists w',
    initializeThenPopulate 1 Scenario.healthy (Cases.relaunched "fr" "en") = (Normal tt, w')
    /\ dispatched (trace w') =
         [ {| type := "database:beforeCreate"; detail := DetailDbName "pokedex" |};
           {| type := "database:beforeDelete"; detail := DetailDbName "pokedex" |};
           {| type := "database:afterDelete"; detail := DetailDbName "pokedex" |};
           {| type := "database:localeChanged"; detail := DetailLocale "fr" "en" |};
           {| type := "database:afterCreate"; detail := DetailDbName "pokedex" |};
           {| type := "database:beforeConnect"; detail := DetailDbName "pokedex" |};
           {| type := "database:afterConnect"; detail := DetailDbName "pokedex" |};
           {| type := "database:progress";
              detail := DetailProgress 1 2 "pokemon" (JsString "0.50") |};
           {| type := "database:progress";
              detail := DetailProgress 2 2 "berries" (JsString "1.00") |};
           readyEvent ].
Proof.
  assert (Hne : dbLocale (this (Cases.relaunched "fr" "en"))
                <> userLocale (this (Cases.relaunched "fr" "en"))) by discriminate.
  destruct (initializeThenPopulate_reset 1 Scenario.healthy
              (Cases.relaunched "fr" "en")) as (w' & Hrun & Hev).
  - vm_compute. reflexivity.
  - vm_compute. reflexivity.
  - exact Hne.
  - reflexivity.
  - reflexivity.
  - vm_compute. reflexivity.
  - exists w'. split; [exact Hrun|]. rewrite Hev. vm_compute. reflexivity.
Defined.

(** ** A table is populated once *)

Lemma filter_none {A} (P : A -> Prop) `{forall x, Decision (P x)} (l : list A) :
  (forall x, x ∈ l -> ~ P x) -> filter P l = [].
Proof.
  induction l as [|x l IH]; intros Hall; [reflexivity|].
  rewrite filter_cons_False by (apply Hall; left).
  apply IH. intros y Hy. apply Hall. right. exact Hy.
Qed.

Lemma rowsKept_refl w : rowsKept w w.
Proof. intros dn tn k r H. exact H. Qed.

Lemma rowsKept_trans w1 w2 w3 : rowsKept w1 w2 -> rowsKept w2 w3 -> rowsKept w1 w3.
Proof. intros H12 H23 dn tn k r H. apply H23, H12, H. Qed.

Lemma rowsKept_quiet w w' : quiet w w' -> rowsKept w w'.
Proof. intros (_ & _ & _ & H). exact H. Qed.

Lemma rowCount_kept w w' d t : rowsKept w w' -> (rowCount w d t <= rowCount w' d t)%nat.
Proof.
  intros Hkept. unfold rowCount. apply map_subseteq_size.
  apply map_subseteq_spec. intros k r. apply Hkept.
Qed.

Lemma populateEmptyTables_for_stocks fuel E total d : forall tables index w,
  db (this w) = Some d ->
  bindsAll d tables = true ->
  forallb (settles fuel E (this w)) tables = true ->
  forallb (stocks E (this w)) tables = true ->
  let w' := (populateEmptyTables_for fuel E total tables index w).2 in
  this w' = this w
  /\ rowsKept w w'
  /\ (forall t, In t tables -> (0 < rowCount w' d t)%nat).
Proof.
  induction tables as [|t rest IH]; intros index w Hd Hb Hs Hst; cbv zeta.
  - split; [reflexivity|]. split; [apply rowsKept_refl|]. intros t [].
  - simpl in Hb, Hs, Hst.
    apply andb_true_iff in Hb, Hs, Hst.
    destruct Hb as [Hbt Hb], Hs as [Hset Hs], Hst as [Hstt Hst].
    apply bool_decide_eq_true in Hbt.
    assert (Hdb : db (this w) <> None) by (rewrite Hd; discriminate).
    rewrite populateEmptyTables_for_cons.
    pose proof (syncTable_settles fuel E t w Hdb Hset) as Hnormal.
    pose proof (quietM_syncTable fuel E (Some t) w) as Hquiet.
    assert (Hrows : (0 < rowCount (syncTable fuel E (Some t) w).2 d t)%nat).
    { destruct (rowCount w d t) as [|n] eqn:Hcount.
      - unfold stocks in Hstt.
        destruct (remote E (fullUrlOf (this w) t)) as [data|e] eqn:Hremote;
          [|discriminate].
        destruct (member data) as [[|r rs]|] eqn:Hmember; try discriminate.
        apply (syncTable_first_page_stays fuel E t w d data r rs);
          assumption.
      - pose proof (rowCount_kept w _ d t (rowsKept_quiet _ _ Hquiet)). lia. }
    destruct (syncTable fuel E (Some t) w) as [c w1]. cbn [fst snd] in *. subst c.
    destruct Hquiet as (Hthis1 & Hq).
    set (w2 := record (Dispatch (progressEvent total index t)) w1).
    assert (Hd2 : db (this w2) = Some d) by (cbn; rewrite Hthis1; exact Hd).
    assert (Hthis2 : this w2 = this w) by exact Hthis1.
    destruct (IH (S index) w2 Hd2 Hb) as (Hthis' & Hkept' & Hrest).
    { rewrite Hthis2. exact Hs. }
    { rewrite Hthis2. exact Hst. }
    split; [congruence|]. split.
    + eapply rowsKept_trans; [|exact Hkept'].
      intros dn tn k r H. apply Hq in H. exact H.
    + intros t' [<-|Hin]; [|apply Hrest; exact Hin].
      pose proof (rowCount_kept w2 _ d t Hkept') as Hle.
      change (rowCount w2 d t) with (rowCount w1 d t) in Hle. lia.
Qed.

(** X12.  A population that succeeds is not repeated.  On a handle
    that binds the configured tables, against a remote whose cursor
    chains end and whose first pages have members, the callback that
    follows the connection leaves every configured table with at least
    one row; run once more, it finds no empty table, sends no request
    and only dispatches [database:ready]. *)
Theorem populateOnceConnected_once (fuel : nat) (E : Env) (w : World) (d : Dexie) :
  let tables := config_tables (config (this w)) in
  db (this w) = Some d ->
  bindsAll d tables = true ->
  forallb (settles fuel E (this w)) tables = true ->
  forallb (stocks E (this w)) tables = true ->
  let w' := (populateOnceConnected fuel E w).2 in
  (forall t, In t tables -> (0 < rowCount w' d t)%nat)
  /\ populateOnceConnected fuel E w' = (Normal tt, record (Dispatch readyEvent) w').
Proof.
  intros tables Hd Hb Hs Hst w'.
  set (emptyTables := filter (fun t => rowCount w d t = 0%nat) tables).
  assert (Hsub : forall t, In t emptyTables -> In t tables).
  { intros t Hin. apply list_elem_of_In in Hin. apply list_elem_of_In.
    apply list_elem_of_filter in Hin. apply Hin. }
  assert (Hall : forall (f : Table -> bool),
            forallb f tables = true -> forallb f emptyTables = true).
  { intros f Hf. apply forallb_forall. intros t Hin.
    rewrite forallb_forall in Hf. apply Hf, Hsub, Hin. }
  assert (Hthis : this w' = this w
                  /\ rowsKept w w'
                  /\ (forall t, In t emptyTables -> (0 < rowCount w' d t)%nat)).
  { subst w'. unfold populateOnceConnected, bind.
    rewrite (countEmptyTables_run w d Hd Hb). fold tables emptyTables.
    destruct (0 <? length emptyTables)%nat eqn:Hlen.
    - unfold populateEmptyTables, bind.
      destruct (populateEmptyTables_for_stocks fuel E (length emptyTables) d emptyTables 1 w
                  Hd (Hall _ Hb) (Hall _ Hs) (Hall _ Hst)) as (Ht & Hk & Hr).
      destruct (populateEmptyTables_for fuel E (length emptyTables) emptyTables 1 w)
        as [[[]|e|] w1]; cbn [snd] in *; auto.
    - destruct emptyTables; [|discriminate Hlen].
      split; [reflexivity|]. split; [intros dn tn k r H; exact H|]. intros t []. }
  destruct Hthis as (Hthis & Hkept & Hfilled).
  assert (Hrows : forall t, In t tables -> (0 < rowCount w' d t)%nat).
  { intros t Hin. destruct (rowCount w d t) as [|n] eqn:Hcount.
    - apply Hfilled. apply list_elem_of_In. apply list_elem_of_filter.
      split; [exact Hcount|apply list_elem_of_In; exact Hin].
    - pose proof (rowCount_kept w w' d t Hkept). lia. }
  split; [exact Hrows|].
  assert (Hd' : db (this w') = Some d) by (rewrite Hthis; exact Hd).
  assert (Hb' : bindsAll d (config_tables (config (this w'))) = true)
    by (rewrite Hthis; exact Hb).
  assert (Hnone : filter (fun t => rowCount w' d t = 0%nat)
                         (config_tables (config (this w'))) = []).
  { rewrite Hthis. fold tables. apply filter_none. intros t Hin Hzero.
    apply list_elem_of_In in Hin. specialize (Hrows t Hin). lia. }
  destruct (populateOnceConnected_spec fuel E w' d Hd' Hb') as (w'' & Hrun & _ & Hready).
  { rewrite Hnone. reflexivity. }
  rewrite Hrun. f_equal. apply Hready. exact Hnone.
Qed.

Lemma populateOnceConnected_once_witness :
  populateOnceConnected 1 Cases.plentiful
    (populateOnceConnected 1 Cases.plentiful Scenario.connected).2
  = (Normal tt,
     record (Dispatch readyEvent)
       (populateOnceConnected 1 Cases.plentiful Scenario.connected).2).
Proof.
  refine (proj2 (populateOnceConnected_once 1 Cases.plentiful Scenario.connected
                   Scenario.handle
                   _ _ _ _)); vm_compute; reflexivity.
Defined.

(** ** Tables that are skipped, unbound or without handle *)



Lemma syncTable_unbound fuel E w d table :
  db (this w) = Some d ->
  dexie_tables d !! table_name table = None ->
  syncTable fuel E (Some table) w
  = (Normal tt,
     record (ConsoleError (syncErrorText table) (noTable d (table_name table) "count")) w).
Proof.
  intros Hd Hnone. unfold syncTable, bind at 1, getThis. rewrite Hd.
  unfold tryCatch, bind, tableCount, bind, dexieTable, bind, thisDb, bind, getThis.
  rewrite Hd. unfold ret. rewrite Hnone. reflexivity.
Qed.

(** X14.  A table for which the handle has no table property: one that
    is not in the configuration, or one that is named after a member of
    the handle.  [syncTable] fails on the count, logs the [TypeError]
    and returns normally without sending a request.  [fetchTable] sends
    its request; when the page has members the first insertion fails,
    the [TypeError] is logged, nothing is stored and the cursor of the
    page is not followed.  The [TypeError] is that of reading the method
    of [undefined] when the name is no member of the handle, that of
    reading it of [null] when the member holds [null], and otherwise
    that of calling what is not a function. *)
Theorem unbound_table (fuel : nat) (E : Env) (w : World) (d : Dexie) (table : Table) :
  db (this w) = Some d ->
  dexie_tables d !! table_name table = None ->
  let error :=
    match dexie_members d !! table_name table with
    | None => undefinedProperty
    | Some HoldsNull => nullProperty
    | Some HoldsValue => notAFunction
    end in
  syncTable fuel E (Some table) w
    = (Normal tt, record (ConsoleError (syncErrorText table) (error "count")) w)
  /\ (forall data r rs,
        remote E (fullUrlOf (this w) table) = FetchData data ->
        member data = Some (r :: rs) ->
        fetchTable fuel E (Some table) w
          = (Normal tt,
             record (ConsoleError (fetchErrorText table) (error "add"))
               (record (Fetch (fullUrlOf (this w) table)) w))).
Proof.
  intros Hd Hnone error.
  assert (Herror : forall method, noTable d (table_name table) method = error method).
  { intros method. unfold noTable, error.
    destruct (dexie_members d !! table_name table) as [[]|]; reflexivity. }
  split.
  - rewrite (syncTable_unbound fuel E w d table Hd Hnone), Herror. reflexivity.
  - intros data r rs Hdata Hmember. rewrite fetchTable_unfold, Hd.
    unfold fetchPage, tryCatch, bind at 1, fetchJson, bind at 1, modify.
    rewrite Hdata. unfold ret. rewrite Hmember.
    unfold bind at 1, forEachAdd, bind at 1, addRecord, tableAdd, bind at 1,
      dexieTable, bind, thisDb, bind, getThis. simpl. rewrite Hd. unfold ret.
    rewrite Hnone. unfold throw. rewrite Herror. reflexivity.
Qed.

Lemma unbound_table_witness :
  syncTable 1 Scenario.healthy (Some Cases.moves) Scenario.connected
  = (Normal tt,
     record (ConsoleError "Error syncing table 'moves':"
               (TypeError "Cannot read properties of undefined (reading 'count')"))
       Scenario.connected).
Proof.
  assert (Hd : db (this Scenario.connected) = Some Scenario.handle)
    by (vm_compute; reflexivity).
  assert (Hnone : dexie_tables Scenario.handle !! table_name Cases.moves = None)
    by (vm_compute; reflexivity).
  exact (proj1 (unbound_table 1 Scenario.healthy Scenario.connected
                  Scenario.handle Cases.moves Hd Hnone)).
Defined.

(** X15.  Without a handle.  [syncTable] and [fetchTable] throw the
    bare not-found error, even when no table is given: the handle is
    checked first.  [populateEmptyTables] therefore throws on its first
    table and dispatches nothing, not even [database:ready]; on an empty
    list it dispatches [database:ready].  [countEmptyTables] fails on
    the first configured table with the [TypeError] of reading the table
    name as a property of [this.db]: of [undefined] after the
    constructor, of [null] after a [deleteDatabase]; with no configured
    table it returns the empty list. *)
Theorem methods_without_handle (fuel : nat) (E : Env) (w : World) :
  db (this w) = None ->
  (forall table, syncTable fuel E table w = (Throw (Error noDatabase), w))
  /\ (forall table, fetchTable fuel E table w = (Throw (Error noDatabase), w))
  /\ (forall table rest,
        populateEmptyTables fuel E (table :: rest) w = (Throw (Error noDatabase), w))
  /\ populateEmptyTables fuel E [] w = (Normal tt, record (Dispatch readyEvent) w)
  /\ (forall table rest,
        config_tables (config (this w)) = table :: rest ->
        countEmptyTables w =
          (Throw (match this_db (this w) with
                  | DbNull => nullProperty (table_name table)
                  | _ => undefinedProperty (table_name table)
                  end), w))
  /\ (config_tables (config (this w)) = [] -> countEmptyTables w = (Normal [], w)).
Proof.
  intros Hd.
  assert (Hsync : forall table, syncTable fuel E table w = (Throw (Error noDatabase), w)).
  { intros table. unfold syncTable, bind, getThis. rewrite Hd. reflexivity. }
  split; [exact Hsync|]. split; [|split; [|split; [|split]]].
  - intros table. rewrite fetchTable_unfold, Hd. reflexivity.
  - intros table rest. unfold populateEmptyTables, bind at 1.
    rewrite populateEmptyTables_for_cons, Hsync. reflexivity.
  - reflexivity.
  - intros table rest Htables. unfold countEmptyTables, bind at 1, getThis.
    rewrite Htables. unfold countEmptyTables_for, bind at 1, tableCount, bind at 1,
      dexieTable, bind at 1, thisDb, bind, getThis. rewrite Hd. reflexivity.
  - intros Htables. unfold countEmptyTables, bind, getThis. rewrite Htables. reflexivity.
Qed.

Lemma methods_without_handle_witness :
  populateEmptyTables 1 Scenario.healthy [Scenario.pokemon; Scenario.berries]
    (Scenario.constructed "en" "en")
  = (Throw (Error "DexieManager: No database found."), Scenario.constructed "en" "en")
  /\ countEmptyTables (Scenario.constructed "en" "en")
     = (Throw (TypeError "Cannot read properties of undefined (reading 'pokemon')"),
        Scenario.constructed "en" "en").
Proof.
  destruct (methods_without_handle 1 Scenario.healthy (Scenario.constructed "en" "en")
              eq_refl) as (_ & _ & Hpopulate & _ & Hcount & _).
  split; [apply Hpopulate|].
  apply (Hcount Scenario.pokemon [Scenario.berries]). reflexivity.
Defined.

Lemma countEmptyTables_for_unbound w d t after : forall before emptyTables,
  db (this w) = Some d ->
  bindsAll d before = true ->
  dexie_tables d !! table_name t = None ->
  countEmptyTables_for (before ++ t :: after) emptyTables w
  = (Throw (noTable d (table_name t) "count"), w).
Proof.
  induction before as [|b before IH]; intros emptyTables Hd Hb Hnone.
  - cbn [app countEmptyTables_for].
    unfold bind at 1, tableCount, bind at 1, dexieTable, bind at 1, thisDb, bind, getThis.
    rewrite Hd. unfold ret. rewrite Hnone. reflexivity.
  - simpl in Hb. apply andb_true_iff in Hb as [Hb1 Hb2].
    apply bool_decide_eq_true in Hb1.
    change ((b :: before) ++ t :: after) with (b :: (before ++ t :: after)).
    cbn [countEmptyTables_for]. unfold bind at 1.
    rewrite (tableCount_bound w d b Hd Hb1).
    destruct (rowCount w d b =? 0)%nat; apply IH; assumption.
Qed.

(** X30.  A configured table that is named after a member of the Dexie
    instances, the tables before it not being so.  [initializeDatabase]
    succeeds all the same, but the handle has no table property for that
    table: [countEmptyTables] then throws at it, with the [TypeError] of
    calling what is not a function (of reading [count] of [null] when
    the member holds [null]).  The population that follows the
    connection therefore fails before it starts: no request is sent, no
    progress event and no [database:ready] is dispatched.  [syncTable]
    on that table logs the same error. *)
Theorem shadowed_table (fuel : nat) (E : Env) (w : World) (before after : list Table)
    (t : Table) (kind : MemberKind) :
  let m := this w in
  storable (config m) = true ->
  (dbLocale m = userLocale m \/ deleteRequest E (config_name (config m)) = None) ->
  openRequest E (config_name (config m)) = None ->
  config_tables (config m) = before ++ t :: after ->
  unshadowed E before = true ->
  dexieMembers E !! table_name t = Some kind ->
  let w1 := (initializeDatabase E w).2 in
  let error :=
    match kind with
    | HoldsNull => nullProperty "count"
    | HoldsValue => notAFunction "count"
    end in
  (initializeDatabase E w).1 = Normal tt
  /\ countEmptyTables w1 = (Throw error, w1)
  /\ initializeThenPopulate fuel E w = (Throw error, w1)
  /\ syncTable fuel E (Some t) w1
     = (Normal tt, record (ConsoleError (syncErrorText t) error) w1).
Proof.
  intros m Hs Hreset Hopen Htables Hfree Hkind w1 error. subst w1.
  unfold initializeThenPopulate, bind.
  rewrite (initializeDatabase_done E w Hs Hreset Hopen). fold m. cbn [fst snd].
  match goal with |- context [countEmptyTables ?W] => set (w1 := W) end.
  assert (Hd : db (this w1) = Some (boundHandle E (config m))) by reflexivity.
  assert (Hnone : dexie_tables (boundHandle E (config m)) !! table_name t = None).
  { cbn [boundHandle dexie_tables]. rewrite tableProperties_lookup, Hkind. reflexivity. }
  assert (Herror : noTable (boundHandle E (config m)) (table_name t) "count" = error).
  { unfold noTable. cbn [boundHandle dexie_members]. rewrite Hkind.
    destruct kind; reflexivity. }
  assert (Hb : bindsAll (boundHandle E (config m)) before = true).
  { apply boundHandle_binds; [|exact Hfree].
    intros b Hin. rewrite Htables. apply in_or_app. left. exact Hin. }
  assert (Hcount : countEmptyTables w1 = (Throw error, w1)).
  { unfold countEmptyTables, bind at 1, getThis.
    change (config (this w1)) with (config m). rewrite Htables.
    rewrite (countEmptyTables_for_unbound w1 _ t after before [] Hd Hb Hnone), Herror.
    reflexivity. }
  split; [reflexivity|]. split; [exact Hcount|]. split.
  - unfold populateOnceConnected, bind. rewrite Hcount. reflexivity.
  - rewrite (syncTable_unbound fuel E w1 _ t Hd Hnone), Herror. reflexivity.
Qed.

Lemma shadowed_table_witness :
  initializeThenPopulate 1 Scenario.healthy (Cases.launching Cases.shadowing)
  = (Throw (TypeError "this.db[table.name].count is not a function"),
     (initializeDatabase Scenario.healthy (Cases.launching Cases.shadowing)).2)
  /\ ofType "database:ready"
       (dispatched (trace (initializeDatabase Scenario.healthy
                             (Cases.launching Cases.shadowing)).2)) = [].
Proof.
  assert (Hs : storable (config (this (Cases.launching Cases.shadowing))) = true)
    by (vm_compute; reflexivity).
  assert (Hfree : unshadowed Scenario.healthy [Scenario.pokemon] = true)
    by (vm_compute; reflexivity).
  assert (Hkind : dexieMembers Scenario.healthy !! table_name Cases.versions
                  = Some HoldsValue) by (vm_compute; reflexivity).
  destruct (shadowed_table 1 Scenario.healthy (Cases.launching Cases.shadowing)
              [Scenario.pokemon] [] Cases.versions HoldsValue
              Hs (or_introl eq_refl) eq_refl eq_refl Hfree Hkind)
    as (_ & _ & Hrun & _).
  split; [exact Hrun|]. vm_compute. reflexivity.
Defined.

(** ** What a table holds once its pages are stored *)

Lemma tableAdd_rows w d tn row :
  db (this w) = Some d ->
  is_Some (dexie_tables d !! tn) ->
  let w' := (tableAdd tn row w).2 in
  this w' = this w
  /\ (forall k,
        rowsOf w' (dexie_name d) tn !! k =
          match rowsOf w (dexie_name d) tn !! k with
          | Some old => Some old
          | None => if (row_id row =? k)%Z then Some row else None
          end)
  /\ (forall dn' tn', ~ (dexie_name d = dn' /\ tn = tn') ->
        rowsOf w' dn' tn' = rowsOf w dn' tn').
Proof.
  intros Hd [schema Hb]. unfold tableAdd, bind, dexieTable, bind, thisDb, bind, getThis.
  rewrite Hd. unfold ret. rewrite Hb. unfold modify. cbn [snd]. cbv zeta.
  destruct (rowsOf w (dexie_name d) tn !! row_id row) as [old|] eqn:Hold.
  - split; [reflexivity|]. split; [|reflexivity].
    intros k. destruct (rowsOf w (dexie_name d) tn !! k) as [old'|] eqn:Hk; [reflexivity|].
    destruct (Z.eqb_spec (row_id row) k) as [Heq|Hne]; [congruence|reflexivity].
  - split; [reflexivity|]. split.
    + intros k. rewrite rowsOf_insert.
      destruct (decide (dexie_name d = dexie_name d /\ tn = tn)) as [_|Hno];
        [|exfalso; apply Hno; split; reflexivity].
      destruct (Z.eqb_spec (row_id row) k) as [Heq|Hne].
      * rewrite <- Heq, lookup_insert_eq, Hold. reflexivity.
      * rewrite lookup_insert_ne by exact Hne.
        destruct (rowsOf w (dexie_name d) tn !! k); reflexivity.
    + intros dn' tn' Hother. rewrite rowsOf_insert.
      destruct (decide (dexie_name d = dn' /\ tn = tn')) as [Hyes|_];
        [contradiction|reflexivity].
Qed.

Lemma forEachAdd_rows d tn records w :
  db (this w) = Some d ->
  is_Some (dexie_tables d !! tn) ->
  let w' := (forEachAdd tn records w).2 in
  (forall k,
     rowsOf w' (dexie_name d) tn !! k =
       match rowsOf w (dexie_name d) tn !! k with
       | Some old => Some old
       | None => rowOf <$> firstWithId k records
       end)
  /\ (forall dn' tn', ~ (dexie_name d = dn' /\ tn = tn') ->
        rowsOf w' dn' tn' = rowsOf w dn' tn').
Proof.
  intros Hd Hb. cbv zeta. revert w Hd.
  induction records as [|r rest IH]; intros w Hd.
  - unfold forEachAdd, ret. cbn [snd]. split; [|reflexivity].
    intros k. destruct (rowsOf w (dexie_name d) tn !! k); reflexivity.
  - unfold forEachAdd; fold forEachAdd. unfold bind, addRecord.
    destruct (tableAdd_bound w d tn (rowOf r) Hd Hb) as (Hnormal & _ & _).
    destruct (tableAdd_rows w d tn (rowOf r) Hd Hb) as (Hthis & Hrows & Hother).
    fold (rowOf r).
    destruct (tableAdd tn (rowOf r) w) as [c w1]. cbn [fst snd] in *. subst c.
    assert (Hd1 : db (this w1) = Some d) by (rewrite Hthis; exact Hd).
    destruct (IH w1 Hd1) as [IHrows IHother]. split.
    + intros k. rewrite IHrows, Hrows. unfold firstWithId. simpl.
      destruct (rowsOf w (dexie_name d) tn !! k) as [old|]; [reflexivity|].
      destruct (member_id r =? k)%Z; reflexivity.
    + intros dn' tn' Hne. rewrite IHother, Hother by exact Hne. reflexivity.
Qed.



Lemma firstWithId_app k (records more : list Member) :
  firstWithId k (records ++ more) =
    match firstWithId k records with
    | Some r => Some r
    | None => firstWithId k more
    end.
Proof.
  unfold firstWithId. induction records as [|r rest IH]; [reflexivity|].
  simpl. destruct (member_id r =? k)%Z; [reflexivity|exact IH].
Qed.

Lemma fetchTable_request_fails fuel E table w d e :
  db (this w) = Some d ->
  remote E (fullUrlOf (this w) table) = FetchThrows e ->
  fetchTable fuel E (Some table) w =
    (Normal tt,
     record (ConsoleError (fetchErrorText table) e)
       (record (Fetch (fullUrlOf (this w) table)) w)).
Proof.
  intros Hd He. rewrite fetchTable_unfold, Hd.
  unfold fetchPage, tryCatch, bind, fetchJson, bind, modify. rewrite He. reflexivity.
Qed.

(** The whole chain of a [fetchTable] on a table that the handle binds,
    against a remote whose cursor chain ends within the fuel. *)
Lemma fetchTable_chain_run fuel E d : forall table w,
  db (this w) = Some d ->
  is_Some (dexie_tables d !! table_name table) ->
  settles fuel E (this w) table = true ->
  exists w',
    fetchTable fuel E (Some table) w = (Normal tt, w')
    /\ this w' = this w
    /\ trace w' = trace w ++ requestsOf fuel E (this w) table
    /\ (forall k,
          rowsOf w' (dexie_name d) (table_name table) !! k =
            match rowsOf w (dexie_name d) (table_name table) !! k with
            | Some old => Some old
            | None => rowOf <$> firstWithId k (membersOf fuel E (this w) table)
            end)
    /\ (forall dn' tn', ~ (dexie_name d = dn' /\ table_name table = tn') ->
          rowsOf w' dn' tn' = rowsOf w dn' tn').
Proof.
  induction fuel as [|fuel IH]; intros table w Hd Hb Hs.
  all: simpl in Hs; unfold membersOf, requestsOf; fold membersOf; fold requestsOf.
  all: destruct (remote E (fullUrlOf (this w) table)) as [data|e] eqn:Hremote.
  all: try (rewrite (fetchTable_request_fails _ E table w d e Hd Hremote);
            eexists; split; [reflexivity|]; split; [reflexivity|];
            split; [simpl; rewrite <- app_assoc; reflexivity|];
            split; [|reflexivity];
            intros k; change (rowsOf (record _ (record _ w))) with (rowsOf w);
            destruct (rowsOf w (dexie_name d) (table_name table) !! k); reflexivity).
  all: destruct (member data) as [[|r rs]|] eqn:Hmember.
  all: try (rewrite (fetchTable_no_members _ E table w d data Hd Hremote)
              by (rewrite Hmember; auto);
            eexists; split; [reflexivity|]; split; [reflexivity|];
            split; [reflexivity|]; split; [|reflexivity];
            intros k; change (rowsOf (record _ w)) with (rowsOf w);
            destruct (rowsOf w (dexie_name d) (table_name table) !! k); reflexivity).
  all: set (w0 := record (Fetch (fullUrlOf (this w) table)) w) in *.
  all: assert (Hd0 : db (this w0) = Some d) by exact Hd.
  all: destruct (forEachAdd_bound d (table_name table) (r :: rs) w0 Hd0 Hb)
         as (_ & Htrace1 & _).
  all: destruct (forEachAdd_rows d (table_name table) (r :: rs) w0 Hd0 Hb)
         as (Hrows1 & Hother1).
  all: pose proof (quietM_forEachAdd (table_name table) (r :: rs) w0) as (Hthis1 & _).
  all: destruct (nextCursor data) as [cursor|] eqn:Hcursor; try discriminate Hs.
  all: try (rewrite (fetchTable_last_page _ E table w d data r rs Hd Hb Hremote Hmember Hcursor);
            fold w0; eexists; split; [reflexivity|]; split; [exact Hthis1|];
            split; [rewrite Htrace1; reflexivity|]; split; [|exact Hother1];
            intros k; rewrite Hrows1, app_nil_r; reflexivity).
  rewrite (fetchTable_follows fuel E table w d data r rs cursor Hd Hb Hremote Hmember Hcursor).
  fold w0. set (w1 := (forEachAdd (table_name table) (r :: rs) w0).2) in *.
  assert (Hthis : this w1 = this w) by exact Hthis1.
  assert (Hd1 : db (this w1) = Some d) by (rewrite Hthis; exact Hd).
  destruct (IH (nextPage table cursor) w1 Hd1 Hb) as (w' & Hrun & Hthis' & Htrace' & Hrows' & Hother').
  { rewrite Hthis. exact Hs. }
  exists w'. split; [exact Hrun|]. split; [congruence|]. split.
  { rewrite Htrace', Htrace1, Hthis. simpl. rewrite <- app_assoc. reflexivity. }
  split.
  - intros k. change (table_name (nextPage table cursor)) with (table_name table) in Hrows'.
    rewrite Hrows', Hrows1, Hthis. change (rowsOf w0) with (rowsOf w).
    destruct (rowsOf w (dexie_name d) (table_name table) !! k) as [old|]; [reflexivity|].
    rewrite firstWithId_app.
    destruct (firstWithId k (r :: rs)); reflexivity.
  - intros dn' tn' Hne. rewrite Hother' by exact Hne. rewrite Hother1 by exact Hne.
    reflexivity.
Qed.



(** ** One table after the other *)

Lemma populateEmptyTables_for_trace fuel E total d : forall tables index w,
  db (this w) = Some d ->
  bindsAll d tables = true ->
  NoDup (map table_name tables) ->
  (forall t, In t tables -> rowCount w d t = 0%nat) ->
  forallb (settles fuel E (this w)) tables = true ->
  exists w',
    populateEmptyTables_for fuel E total tables index w = (Normal tt, w')
    /\ this w' = this w
    /\ trace w' = trace w ++ populationTrace fuel E (this w) total tables index
    /\ (forall tn, ~ In tn (map table_name tables) ->
          rowsOf w' (dexie_name d) tn = rowsOf w (dexie_name d) tn).
Proof.
  induction tables as [|t rest IH]; intros index w Hd Hb Hnodup Hempty Hs.
  - exists w. split; [reflexivity|]. split; [reflexivity|]. simpl.
    rewrite app_nil_r. split; reflexivity.
  - simpl in Hb, Hs. apply andb_true_iff in Hb, Hs.
    destruct Hb as [Hbt Hb], Hs as [Hst Hs]. apply bool_decide_eq_true in Hbt.
    simpl in Hnodup. apply NoDup_cons in Hnodup. destruct Hnodup as [Hfresh Hnodup].
    rewrite populateEmptyTables_for_cons.
    rewrite (syncTable_empty_table fuel E t w d Hd Hbt (Hempty t (or_introl eq_refl))).
    destruct (fetchTable_chain_run fuel E d t w Hd Hbt Hst)
      as (w1 & Hrun & Hthis1 & Htrace1 & _ & Hother).
    unfold tryCatch. rewrite Hrun.
    set (w2 := record (Dispatch (progressEvent total index t)) w1).
    assert (Hd2 : db (this w2) = Some d) by (cbn; rewrite Hthis1; exact Hd).
    assert (Hthis2 : this w2 = this w) by exact Hthis1.
    destruct (IH (S index) w2 Hd2 Hb Hnodup) as (w' & Hrun' & Hthis' & Htrace' & Hrows').
    { intros t' Hin. unfold rowCount. change (rowsOf w2) with (rowsOf w1).
      rewrite Hother.
      - apply (Hempty t'). right. exact Hin.
      - intros [_ Hname]. apply Hfresh. rewrite Hname.
        apply list_elem_of_In. apply in_map. exact Hin. }
    { rewrite Hthis2. exact Hs. }
    exists w'. split; [exact Hrun'|]. split; [congruence|]. split.
    + rewrite Htrace', Hthis2. cbn [trace w2 record]. rewrite Htrace1.
      simpl. rewrite <- !app_assoc. reflexivity.
    + intros tn Hout. simpl in Hout.
      rewrite Hrows' by (intros Hin; apply Hout; right; exact Hin).
      change (rowsOf w2) with (rowsOf w1). apply Hother.
      intros [_ Hname]. apply Hout. left. exact Hname.
Qed.



(** ** The URL of a request *)

Lemma stripPrefix_app pat rest : JsStr.stripPrefix pat (pat +:+ rest) = Some rest.
Proof.
  induction pat as [|c pat IH]; [reflexivity|].
  simpl. rewrite Ascii.eqb_refl. exact IH.
Qed.

Lemma splitFirst_unfold pat s :
  JsStr.splitFirst pat s =
    match JsStr.stripPrefix pat s with
    | Some rest => Some (EmptyString, rest)
    | None =>
        match s with
        | EmptyString => None
        | String c s' =>
            match JsStr.splitFirst pat s' with
            | Some (before, after) => Some (String c before, after)
            | None => None
            end
        end
    end.
Proof. destruct s; reflexivity. Qed.

Lemma splitFirst_first p0 pat before after :
  hasChar p0 before = false ->
  JsStr.splitFirst (String p0 pat) (before +:+ String p0 pat +:+ after)
    = Some (before, after).
Proof.
  induction before as [|c before IH]; intros Hno.
  - rewrite splitFirst_unfold. change ("" +:+ String p0 pat +:+ after)
      with (String p0 pat +:+ after). rewrite stripPrefix_app. reflexivity.
  - simpl in Hno. apply orb_false_iff in Hno. destruct Hno as [Hc Hno].
    rewrite splitFirst_unfold.
    change (String c before +:+ String p0 pat +:+ after)
      with (String c (before +:+ String p0 pat +:+ after)).
    cbn [JsStr.stripPrefix]. rewrite Ascii.eqb_sym, Hc.
    rewrite (IH Hno). reflexivity.
Qed.

Lemma splitFirst_absent p0 pat s :
  hasChar p0 s = false -> JsStr.splitFirst (String p0 pat) s = None.
Proof.
  induction s as [|c s IH]; intros Hno; [reflexivity|].
  simpl in Hno. apply orb_false_iff in Hno. destruct Hno as [Hc Hno].
  rewrite splitFirst_unfold. cbn [JsStr.stripPrefix]. rewrite Ascii.eqb_sym, Hc.
  rewrite (IH Hno). reflexivity.
Qed.

Lemma getSubstitution_other matched before after c t :
  Ascii.eqb c "$" = false ->
  JsStr.getSubstitution matched before after (String c t)
    = String c (JsStr.getSubstitution matched before after t).
Proof.
  intros Hc. destruct c as [[] [] [] [] [] [] [] []]; try reflexivity.
  discriminate Hc.
Qed.

Lemma getSubstitution_plain matched before after template :
  hasChar "$" template = false ->
  JsStr.getSubstitution matched before after template = template.
Proof.
  induction template as [|c t IH]; intros Hno; [reflexivity|].
  simpl in Hno. apply orb_false_iff in Hno. destruct Hno as [Hc Hno].
  rewrite (getSubstitution_other _ _ _ c t Hc), (IH Hno). reflexivity.
Qed.

(** X19.  The URL that [fetchTable] requests.  When the locale has no
    dollar sign and [root + endpoint] reads [before], the placeholder
    and [after], with no brace in [before], the URL is [before], the
    locale and [after]: only the first placeholder is replaced, one
    that [after] holds stays.  Without any brace in [root + endpoint]
    the URL is [root + endpoint] itself. *)
Theorem fullUrlOf_substitutes (m : Manager) (table : Table) (l : string) :
  locale m = Some l ->
  hasChar "$" l = false ->
  (forall before after,
     hasChar "{" before = false ->
     root (table_url table) +:+ endpoint (table_url table)
       = before +:+ "{locale}" +:+ after ->
     fullUrlOf m table = before +:+ l +:+ after)
  /\ (hasChar "{" (root (table_url table) +:+ endpoint (table_url table)) = false ->
      fullUrlOf m table = root (table_url table) +:+ endpoint (table_url table)).
Proof.
  intros Hl Hplain. split.
  - intros before after Hno Hurl. unfold fullUrlOf, JsStr.replace.
    rewrite Hurl, (splitFirst_first "{" "locale}" before after Hno).
    rewrite Hl. cbn [localeText]. rewrite (getSubstitution_plain _ _ _ l Hplain).
    reflexivity.
  - intros Hno. unfold fullUrlOf, JsStr.replace.
    rewrite (splitFirst_absent "{" "locale}" _ Hno). reflexivity.
Qed.

Lemma fullUrlOf_substitutes_witness :
  fullUrlOf (this Scenario.connected) Scenario.pokemon
  = "https://pokedex.test/api/en/pokemon".
Proof.
  exact (proj1 (fullUrlOf_substitutes (this Scenario.connected) Scenario.pokemon "en"
                  eq_refl eq_refl)
           "https://pokedex.test/api/" "/pokemon" eq_refl eq_refl).
Defined.

(** ** The locales that the constructor accepts *)

Lemma trimStart_empty s : JsStr.trimStart s = "" <-> hasVisible s = false.
Proof.
  induction s as [|c s IH]; [split; reflexivity|].
  simpl. destruct (JsStr.isWhiteSpace c); simpl; [exact IH|].
  split; discriminate.
Qed.

Lemma hasVisible_trimStart s : hasVisible (JsStr.trimStart s) = hasVisible s.
Proof.
  induction s as [|c s IH]; [reflexivity|].
  simpl. destruct (JsStr.isWhiteSpace c) eqn:Hc; simpl; [exact IH|].
  rewrite Hc. reflexivity.
Qed.

Lemma trimEnd_empty s : JsStr.trimEnd s = "" <-> hasVisible s = false.
Proof.
  induction s as [|c s IH]; [split; reflexivity|].
  simpl. destruct (JsStr.trimEnd s) as [|c' r] eqn:Ht.
  - destruct (JsStr.isWhiteSpace c); simpl.
    + rewrite <- IH. split; reflexivity.
    + split; discriminate.
  - split; [discriminate|]. intros H. apply orb_false_iff in H. destruct H as [_ H].
    apply IH in H. discriminate H.
Qed.

Lemma trim_empty s : JsStr.trim s = "" <-> hasVisible s = false.
Proof. unfold JsStr.trim. rewrite trimEnd_empty, hasVisible_trimStart. reflexivity. Qed.

Lemma invalidLocale_visible s : invalidLocale (JsString s) = negb (hasVisible s).
Proof.
  unfold invalidLocale, truthy, typeof, trimsToEmpty. simpl.
  destruct (hasVisible s) eqn:Hv; simpl.
  - destruct s as [|c s]; [discriminate Hv|]. simpl.
    destruct (String.eqb (JsStr.trim (String c s)) "") eqn:He; [|reflexivity].
    apply String.eqb_eq in He. apply trim_empty in He. congruence.
  - apply trim_empty in Hv. rewrite Hv. apply orb_true_r.
Qed.

(** X20.  The constructor returns a manager exactly when the
    configuration is an object with at least one key and both locales
    are strings with a character that is not white space.  The manager
    then holds the configuration and the two locales as they were given
    (the locales are not trimmed), no locale of the requests and no
    handle. *)
Theorem constructor_accepts (c : JsValue Config) (d u : JsValue unit) (m : Manager) :
  constructor c d u = Normal m
  <-> exists keys thisConfig thisDbLocale thisUserLocale,
        c = JsObject keys thisConfig /\ keys <> []
        /\ d = JsString thisDbLocale /\ hasVisible thisDbLocale = true
        /\ u = JsString thisUserLocale /\ hasVisible thisUserLocale = true
        /\ m = {| config := thisConfig; dbLocale := thisDbLocale;
                  userLocale := thisUserLocale; locale := None; this_db := DbUndefined |}.
Proof.
  rewrite constructor_outcome. split.
  - intros H. destruct (invalidConfig c) eqn:Hc; [discriminate|].
    destruct (invalidLocale d) eqn:Hdl; [discriminate|].
    destruct (invalidLocale u) eqn:Hul; [discriminate|].
    destruct c as [| | | | | |keys cfg]; try discriminate H.
    destruct d as [| | | |sd| |]; try discriminate H.
    destruct u as [| | | |su| |]; try discriminate H.
    injection H as <-. exists keys, cfg, sd, su.
    rewrite invalidLocale_visible in Hdl, Hul.
    apply negb_false_iff in Hdl, Hul.
    split; [reflexivity|]. split.
    { intros ->. discriminate Hc. }
    repeat split; assumption.
  - intros (keys & cfg & sd & su & -> & Hkeys & -> & Hsd & -> & Hsu & ->).
    rewrite !invalidLocale_visible, Hsd, Hsu. simpl.
    destruct keys as [|key keys]; [congruence|]. reflexivity.
Qed.

(** ** The range of the progress values *)

Lemma inRangeUpTo_100 : inRangeUpTo 100 = true.
Proof. vm_compute. reflexivity. Qed.

(** X21.  The progress of the table [index] of [total] (at most
    [2^32 - 1] tables) is a text of four characters, a digit, the point
    and two digits; read as a number it lies between [0.00] and [1.00],
    and the progress that the listener of the application sets, a
    hundred times that number, lies between 0 and 100. *)
Theorem progressOf_range (index total : nat) :
  (1 <= index <= total)%nat ->
  (Z.of_nat total <= JsNum.maxArrayLength)%Z ->
  String.length (progressOf index total) = 4%nat
  /\ numericLe (JsString "0.00") (JsString (progressOf index total)) = true
  /\ numericLe (JsString (progressOf index total)) (JsString "1.00") = true
  /\ SFleb (S754_zero false) (listenerProgress (JsString (progressOf index total))) = true
  /\ SFleb (listenerProgress (JsString (progressOf index total))) (JsNum.ofNat 100) = true.
Proof.
  intros Hi Hn. destruct (progressOf_hundredths index total Hi Hn) as [-> Hc].
  pose proof inRangeUpTo_100 as H. unfold inRangeUpTo in H. rewrite forallb_forall in H.
  specialize (H (Z.to_nat (hundredths index total)) ltac:(apply in_seq; lia)).
  cbv zeta in H. rewrite Z2Nat.id in H by lia.
  apply andb_true_iff in H. destruct H as [H Hhigh].
  apply andb_true_iff in H. destruct H as [Hlen Hlow].
  apply Nat.eqb_eq in Hlen.
  split; [exact Hlen|].
  split; [apply (fixedNotation_ordered 0 (hundredths index total)); lia|].
  split; [apply (fixedNotation_ordered (hundredths index total) 100); lia|].
  split; assumption.
Qed.

Lemma progressOf_range_witness :
  progressOf 1 3 = "0.33"
  /\ String.length (progressOf 1 3) = 4%nat
  /\ SFleb (listenerProgress (JsString (progressOf 1 3))) (JsNum.ofNat 100) = true.
Proof.
  destruct (progressOf_range 1 3) as (Hlen & _ & _ & _ & Hhigh).
  - lia.
  - vm_compute. discriminate.
  - split; [vm_compute; reflexivity|]. split; [exact Hlen|exact Hhigh].
Defined.

(** ** The [init] handler of the application *)

Lemma storedLocale_text key s : storedLocale key s = JsString (localeOrEn key s).
Proof.
  unfold storedLocale, orElse, getItem, localeOrEn.
  destruct (localStorage s !! key) as [value|]; [|reflexivity].
  simpl. destruct (String.eqb value ""); reflexivity.
Qed.

Lemma hasVisible_localeOrEn key s : hasVisible (localeOrEn key s) = negb (blankStored key s).
Proof.
  unfold localeOrEn, blankStored.
  destruct (localStorage s !! key) as [value|]; [|reflexivity].
  destruct (String.eqb value "") eqn:He; [reflexivity|].
  simpl. rewrite negb_involutive. reflexivity.
Qed.

Lemma deliver_ui event s : ui (deliver event s) = ui s ++ uiOf event.
Proof.
  unfold uiOf, deliver.
  destruct (String.eqb (type event) "database:localeChanged").
  { unfold onLocaleChanged. destruct (detail event); simpl; rewrite app_nil_r; reflexivity. }
  destruct (String.eqb (type event) "database:progress").
  { unfold onProgress. destruct (detail event); simpl; rewrite <- ?app_assoc; reflexivity. }
  destruct (String.eqb (type event) "database:ready").
  { unfold onReady. simpl. rewrite <- app_assoc. reflexivity. }
  simpl. rewrite app_nil_r. reflexivity.
Qed.

Lemma deliver_storage event s :
  type event <> "database:localeChanged" ->
  localStorage (deliver event s) = localStorage s.
Proof.
  intros Hty. apply String.eqb_neq in Hty. unfold deliver. rewrite Hty.
  destruct (String.eqb (type event) "database:progress").
  { unfold onProgress. destruct (detail event); reflexivity. }
  destruct (String.eqb (type event) "database:ready"); reflexivity.
Qed.

Lemma deliverAll_app events more s :
  deliverAll (events ++ more) s = deliverAll more (deliverAll events s).
Proof. unfold deliverAll. apply fold_left_app. Qed.

Lemma deliverAll_ui events : forall s,
  ui (deliverAll events s) = ui s ++ flat_map uiOf events.
Proof.
  induction events as [|e rest IH]; intros s; simpl.
  - rewrite app_nil_r. reflexivity.
  - change (ui (deliverAll rest (deliver e s)) = ui s ++ uiOf e ++ flat_map uiOf rest).
    rewrite IH, deliver_ui, <- app_assoc. reflexivity.
Qed.

Lemma deliverAll_storage events : forall s,
  Forall (fun e => type e <> "database:localeChanged") events ->
  localStorage (deliverAll events s) = localStorage s.
Proof.
  induction events as [|e rest IH]; intros s Hall; [reflexivity|].
  inversion Hall as [|? ? He Hrest]; subst.
  change (localStorage (deliverAll rest (deliver e s)) = localStorage s).
  rewrite (IH _ Hrest). apply deliver_storage. exact He.
Qed.

Lemma constructor_launch keys c s :
  keys <> [] ->
  blankStored "dbLocale" s = false ->
  blankStored "userLocale" s = false ->
  constructor (JsObject keys c) (storedLocale "dbLocale" s) (storedLocale "userLocale" s)
    = Normal (managerOf c s).
Proof.
  intros Hkeys Hd Hu. rewrite constructor_outcome, !storedLocale_text.
  rewrite !invalidLocale_visible, !hasVisible_localeOrEn, Hd, Hu. simpl.
  destruct keys as [|key keys]; [congruence|]. reflexivity.
Qed.

(** X22.  The outcome of the [init] handler.  It completes normally
    exactly when the module loads, the configuration is an object with
    a key and no stored locale is a non-empty run of white space (a
    locale that is missing or empty falls back to [en]).  Otherwise it
    throws the failure under the prefix of the handler, the page is
    untouched (no dialog is opened) and no manager is kept. *)
Theorem onInit_outcome (fuel : nat) (E : Env) (imported : option JsError)
    (database : JsValue Config)
    (databases : gmap string (gmap string (gmap Z Row))) (s : Shell) :
  let r := onInit fuel E imported database databases s in
  (completion r = Normal tt
   <-> imported = None /\ ~ badConfig database
       /\ blankStored "dbLocale" s = false /\ blankStored "userLocale" s = false)
  /\ (completion r <> Normal tt ->
      shell r = s /\ dbManager r = None
      /\ exists error, completion r = Throw (Error (failedToLoad +:+ message error))).
Proof.
  cbv zeta. unfold onInit. destruct imported as [error|].
  { simpl. split.
    - split; [discriminate|]. intros (H & _). discriminate H.
    - intros _. split; [reflexivity|]. split; [reflexivity|]. exists error. reflexivity. }
  rewrite constructor_outcome, !storedLocale_text, !invalidLocale_visible,
    !hasVisible_localeOrEn, !negb_involutive.
  destruct (invalidConfig database) eqn:Hc.
  { simpl. split.
    - split; [discriminate|]. intros (_ & Hbad & _). exfalso. apply Hbad.
      apply invalidConfig_spec. exact Hc.
    - intros _. split; [reflexivity|]. split; [reflexivity|].
      exists (Error configurationMessage). reflexivity. }
  assert (Hgood : ~ badConfig database).
  { intros Hbad. apply invalidConfig_spec in Hbad. congruence. }
  destruct (blankStored "dbLocale" s).
  { simpl. split.
    - split; [discriminate|]. intros (_ & _ & H & _). discriminate H.
    - intros _. split; [reflexivity|]. split; [reflexivity|].
      exists (Error dbLocaleMessage). reflexivity. }
  destruct (blankStored "userLocale" s).
  { simpl. split.
    - split; [discriminate|]. intros (_ & _ & _ & H). discriminate H.
    - intros _. split; [reflexivity|]. split; [reflexivity|].
      exists (Error userLocaleMessage). reflexivity. }
  destruct database as [| | | | | |keys c]; try discriminate Hc.
  simpl. split; [|intros H; exfalso; apply H; reflexivity].
  split; [intros _; repeat split; assumption|reflexivity].
Qed.

Lemma onInit_launch fuel E keys c databases s :
  keys <> [] ->
  blankStored "dbLocale" s = false ->
  blankStored "userLocale" s = false ->
  onInit fuel E None (JsObject keys c) databases s =
    {| completion := Normal tt;
       shell := deliverAll
                  (dispatched (trace (initializeThenPopulate fuel E
                                        (launchWorld c databases s)).2))
                  (call (DialogProgress "Initializing Database") s);
       dbManager := Some (initializeThenPopulate fuel E (launchWorld c databases s)).2 |}.
Proof.
  intros Hkeys Hd Hu. unfold onInit.
  rewrite (constructor_launch keys c s Hkeys Hd Hu). reflexivity.
Qed.

Lemma uiOf_creating m : flat_map uiOf (dispatched (creating m)) = [].
Proof.
  unfold creating, resetting.
  destruct (String.eqb (dbLocale m) (userLocale m)); reflexivity.
Qed.

Lemma uiOf_progressEvents total tables : forall index,
  flat_map uiOf (progressEvents total tables index)
  = flat_map (progressCalls total) (seq index (length tables)).
Proof.
  induction tables as [|t rest IH]; intros index; [reflexivity|].
  simpl. rewrite IH. reflexivity.
Qed.

Lemma progressEvents_not_localeChanged total tables : forall index,
  Forall (fun e => type e <> "database:localeChanged") (progressEvents total tables index).
Proof.
  induction tables as [|t rest IH]; intros index; simpl; constructor.
  - discriminate.
  - apply IH.
Qed.

(** X23.  A launch with a configuration that the constructor and
    [version(..).stores(..)] accept and in which no table is named after
    a member of the Dexie instances, stored locales that agree (or are
    missing) and an open request that succeeds.  The handler completes
    normally and [localStorage] is as it was.  The
    page sees: the progress dialog opened, then for every table that had
    no row stored, in order, the text of the dialog set and its progress
    set to a hundred times the number that the progress string reads as,
    and at last the dialog closed and the toast shown. *)
Theorem onInit_populates (fuel : nat) (E : Env) (keys : list string) (c : Config)
    (databases : gmap string (gmap string (gmap Z Row))) (s : Shell) :
  keys <> [] ->
  storable c = true ->
  unshadowed E (config_tables c) = true ->
  blankStored "dbLocale" s = false ->
  blankStored "userLocale" s = false ->
  localeOrEn "dbLocale" s = localeOrEn "userLocale" s ->
  openRequest E (config_name c) = None ->
  let emptyTables :=
    filter (fun t => size (rowsOf (launchWorld c databases s) (config_name c)
                             (table_name t)) = 0%nat)
           (config_tables c) in
  forallb (settles fuel E (initialized E (managerOf c s))) emptyTables = true ->
  let r := onInit fuel E None (JsObject keys c) databases s in
  completion r = Normal tt
  /\ localStorage (shell r) = localStorage s
  /\ ui (shell r) =
       ui s ++ [DialogProgress "Initializing Database"]
         ++ flat_map (progressCalls (length emptyTables)) (seq 1 (length emptyTables))
         ++ [DialogClose; ToastShow "Database Ready" "color-green"]
  /\ ((0 < length emptyTables)%nat ->
      (Z.of_nat (length emptyTables) <= JsNum.maxArrayLength)%Z ->
      progressCalls (length emptyTables) (length emptyTables)
      = [SetText "Populating Database"; SetProgress (JsNum.ofNat 100)]).
Proof.
  intros Hkeys Hst Hfree Hd Hu Heq Hopen emptyTables Hs r. subst r.
  assert (Hlast : (0 < length emptyTables)%nat ->
                  (Z.of_nat (length emptyTables) <= JsNum.maxArrayLength)%Z ->
                  progressCalls (length emptyTables) (length emptyTables)
                  = [SetText "Populating Database"; SetProgress (JsNum.ofNat 100)]).
  { intros Hpos Hmax. unfold progressCalls. rewrite progressOf_last; [reflexivity|exact Hpos|].
    unfold JsNum.maxArrayLength in Hmax. unfold JsNum.maxSafeInteger. lia. }
  rewrite (onInit_launch fuel E keys c databases s Hkeys Hd Hu). cbn [completion shell].
  split; [reflexivity|].
  pose proof (initializeThenPopulate_events fuel E (launchWorld c databases s)
                Hst Hfree (or_introl Heq) Hopen) as Hrun.
  cbv zeta in Hrun.
  rewrite (afterReset_same (this (launchWorld c databases s)) _ Heq) in Hrun.
  destruct (Hrun Hs) as (w' & Hrun' & Hev). clear Hrun.
  rewrite Hrun'. cbn [snd]. rewrite Hev. fold emptyTables.
  change (dispatched (trace (launchWorld c databases s))) with (@nil CustomEvent).
  rewrite app_nil_l. split.
  - rewrite deliverAll_storage; [reflexivity|].
    apply Forall_app. split.
    { unfold creating, resetting. cbn [this launchWorld managerOf dbLocale userLocale].
      apply String.eqb_eq in Heq. rewrite Heq.
      repeat constructor; discriminate. }
    apply Forall_app. split; [repeat constructor; discriminate|].
    apply Forall_app. split; [apply progressEvents_not_localeChanged|].
    repeat constructor; discriminate.
  - split; [|exact Hlast].
    rewrite deliverAll_ui. cbn [ui call]. rewrite !flat_map_app, uiOf_creating.
    rewrite uiOf_progressEvents. rewrite <- !app_assoc. reflexivity.
Qed.

Lemma onInit_populates_witness :
  ui (shell (onInit 1 Scenario.healthy None Cases.database ∅ Cases.firstVisit))
  = [DialogProgress "Initializing Database";
     SetText "Populating Database"; SetProgress (JsNum.ofNat 50);
     SetText "Populating Database"; SetProgress (JsNum.ofNat 100);
     DialogClose; ToastShow "Database Ready" "color-green"].
Proof.
  assert (Hkeys : ["name"; "version"; "tables"] <> @nil string) by discriminate.
  destruct (onInit_populates 1 Scenario.healthy ["name"; "version"; "tables"]
              Scenario.pokedex ∅ Cases.firstVisit Hkeys)
    as (_ & _ & Hui & _).
  - vm_compute. reflexivity.
  - vm_compute. reflexivity.
  - reflexivity.
  - reflexivity.
  - reflexivity.
  - reflexivity.
  - vm_compute. reflexivity.
  - unfold Cases.database. rewrite Hui. vm_compute. reflexivity.
Defined.

Lemma quietM_countEmptyTables_for : forall tables emptyTables,
  quietM (countEmptyTables_for tables emptyTables).
Proof.
  induction tables as [|t rest IH]; intros emptyTables; simpl.
  - apply quietM_ret.
  - apply quietM_bind; [apply quietM_tableCount|].
    intros count. destruct (count =? 0)%nat; apply IH.
Qed.

Lemma quietM_countEmptyTables : quietM countEmptyTables.
Proof.
  apply quietM_bind; [apply quietM_getThis|].
  intros m. apply quietM_countEmptyTables_for.
Qed.

Lemma populateOnceConnected_events fuel E w :
  exists events,
    dispatched (trace (populateOnceConnected fuel E w).2) = dispatched (trace w) ++ events
    /\ Forall populating events.
Proof.
  unfold populateOnceConnected, bind.
  destruct (quietM_countEmptyTables w) as (_ & Hev & _).
  destruct (countEmptyTables w) as [[emptyTables|e|] w1]; cbn [snd] in *.
  - destruct (0 <? length emptyTables)%nat.
    + destruct (populateEmptyTables_events fuel E emptyTables w1)
        as (events & Hevents & [rest Hrest]).
      exists events. split; [rewrite Hevents, Hev; reflexivity|].
      assert (Hall : Forall populating
                       (progressEvents (length emptyTables) emptyTables 1 ++ [readyEvent])).
      { apply Forall_app. split.
        - eapply Forall_impl; [apply progressEvents_types|].
          intros e He. left. exact He.
        - constructor; [right; reflexivity|constructor]. }
      rewrite Hrest in Hall. apply Forall_app in Hall. apply Hall.
    + exists [readyEvent]. split.
      * unfold dispatchEvent, modify, record. cbn [snd trace].
        rewrite dispatched_app, Hev. reflexivity.
      * constructor; [right; reflexivity|constructor].
  - exists []. split; [rewrite app_nil_r; exact Hev|constructor].
  - exists []. split; [rewrite app_nil_r; exact Hev|constructor].
Qed.

Lemma initializeThenPopulate_tail fuel E w :
  exists events,
    dispatched (trace (initializeThenPopulate fuel E w).2)
      = dispatched (trace (initializeDatabase E w).2) ++ events
    /\ Forall populating events
    /\ (forall e, (initializeDatabase E w).1 = Throw e -> events = []).
Proof.
  unfold initializeThenPopulate, bind.
  destruct (initializeDatabase E w) as [[[]|e|] w1]; cbn [fst snd].
  - destruct (populateOnceConnected_events fuel E w1) as (events & Hev & Hall).
    exists events. split; [exact Hev|]. split; [exact Hall|]. discriminate.
  - exists []. split; [rewrite app_nil_r; reflexivity|]. split; [constructor|reflexivity].
  - exists []. split; [rewrite app_nil_r; reflexivity|]. split; [constructor|discriminate].
Qed.

Lemma populating_storage events s :
  Forall populating events -> localStorage (deliverAll events s) = localStorage s.
Proof.
  intros Hall. apply deliverAll_storage. eapply Forall_impl; [exact Hall|].
  intros e [He|He]; rewrite He; discriminate.
Qed.

Lemma binding_not_localeChanged E c :
  Forall (fun e => type e <> "database:localeChanged") (dispatched (binding E c)).
Proof.
  unfold binding, connecting.
  destruct (storable c); [|constructor].
  destruct (openRequest E (config_name c)); repeat constructor; discriminate.
Qed.

Lemma localeOrEn_not_empty key s : blankStored key s = false -> localeOrEn key s <> "".
Proof.
  intros Hb Hempty. pose proof (hasVisible_localeOrEn key s) as Hv.
  rewrite Hempty, Hb in Hv. discriminate Hv.
Qed.

(** X24.  A launch with a valid configuration, stored locales that
    differ and requests that succeed, whatever the population does
    afterwards: the listener of [database:localeChanged] stores the new
    locale under [dbLocale] and the old one under [userLocale].  The two
    stored locales are thereby swapped, so the next launch reads a pair
    that differs again. *)
Theorem onInit_swaps_locales (fuel : nat) (E : Env) (keys : list string) (c : Config)
    (databases : gmap string (gmap string (gmap Z Row))) (s : Shell) :
  keys <> [] ->
  blankStored "dbLocale" s = false ->
  blankStored "userLocale" s = false ->
  localeOrEn "dbLocale" s <> localeOrEn "userLocale" s ->
  deleteRequest E (config_name c) = None ->
  openRequest E (config_name c) = None ->
  let r := onInit fuel E None (JsObject keys c) databases s in
  completion r = Normal tt
  /\ localStorage (shell r) =
       <["userLocale" := localeOrEn "dbLocale" s]>
         (<["dbLocale" := localeOrEn "userLocale" s]> (localStorage s))
  /\ localeOrEn "dbLocale" (shell r) = localeOrEn "userLocale" s
  /\ localeOrEn "userLocale" (shell r) = localeOrEn "dbLocale" s
  /\ blankStored "dbLocale" (shell r) = false
  /\ blankStored "userLocale" (shell r) = false.
Proof.
  intros Hkeys Hd Hu Hne Hdel Hopen r. subst r.
  rewrite (onInit_launch fuel E keys c databases s Hkeys Hd Hu). cbn [completion shell].
  split; [reflexivity|].
  destruct (initializeThenPopulate_tail fuel E (launchWorld c databases s))
    as (events & Hev & Hall & _).
  rewrite Hev, deliverAll_app.
  assert (Hstore :
    localStorage
      (deliverAll events
         (deliverAll
            (dispatched (trace (initializeDatabase E (launchWorld c databases s)).2))
            (call (DialogProgress "Initializing Database") s)))
    = <["userLocale" := localeOrEn "dbLocale" s]>
        (<["dbLocale" := localeOrEn "userLocale" s]> (localStorage s))).
  { rewrite (populating_storage _ _ Hall).
    rewrite (initializeDatabase_reset E (launchWorld c databases s) Hne Hdel).
    rewrite !dispatched_app, !deliverAll_app.
    rewrite (deliverAll_storage _ _ (binding_not_localeChanged E _)). reflexivity. }
  split; [exact Hstore|].
  pose proof (localeOrEn_not_empty _ _ Hd) as Hd'.
  pose proof (localeOrEn_not_empty _ _ Hu) as Hu'.
  apply String.eqb_neq in Hd', Hu'.
  pose proof (hasVisible_localeOrEn "dbLocale" s) as Hvd. rewrite Hd in Hvd.
  pose proof (hasVisible_localeOrEn "userLocale" s) as Hvu. rewrite Hu in Hvu.
  unfold localeOrEn at 1 3, blankStored. rewrite Hstore.
  rewrite lookup_insert_ne by discriminate. rewrite lookup_insert_eq.
  rewrite lookup_insert_eq. rewrite Hd', Hu', Hvd, Hvu.
  repeat split; reflexivity.
Qed.

Lemma onInit_swaps_locales_witness :
  localStorage (shell (onInit 1 Scenario.healthy None Cases.database ∅ Cases.switched))
  = <["userLocale" := "en"]> (<["dbLocale" := "fr"]> (localStorage Cases.switched)).
Proof.
  assert (Hkeys : ["name"; "version"; "tables"] <> @nil string) by discriminate.
  assert (Hne : localeOrEn "dbLocale" Cases.switched <> localeOrEn "userLocale" Cases.switched)
    by (vm_compute; discriminate).
  destruct (onInit_swaps_locales 1 Scenario.healthy ["name"; "version"; "tables"]
              Scenario.pokedex ∅ Cases.switched Hkeys eq_refl eq_refl Hne eq_refl eq_refl)
    as (_ & Hstore & _).
  exact Hstore.
Defined.

Lemma initializeDatabase_ui E w :
  flat_map uiOf (dispatched (trace (initializeDatabase E w).2))
  = flat_map uiOf (dispatched (trace w)).
Proof.
  unfold initializeDatabase. js_unfold. simpl.
  destruct (String.eqb (dbLocale (this w)) (userLocale (this w))); simpl;
    [|destruct (deleteRequest E _); simpl];
    try (destruct (_ <=? _)%Z; simpl; [|destruct (schemaMissing _); simpl;
           [|destruct (openRequest E _); simpl]]);
    rewrite ?dispatched_app, ?flat_map_app; simpl; rewrite ?app_nil_r; reflexivity.
Qed.

(** X25.  A launch whose [initializeDatabase] throws (the delete or
    the open request is refused, or [version(..).stores(..)] does not
    accept the configuration).  The call is not awaited, so the
    handler still completes normally and the failure reaches no
    [catch].  On the page the progress dialog is opened and that is all:
    no progress is set, the dialog is never closed and no toast is
    shown, since no [database:ready] is dispatched. *)
Theorem onInit_swallows_failure (fuel : nat) (E : Env) (keys : list string) (c : Config)
    (databases : gmap string (gmap string (gmap Z Row))) (s : Shell) (error : JsError) :
  keys <> [] ->
  blankStored "dbLocale" s = false ->
  blankStored "userLocale" s = false ->
  (initializeDatabase E (launchWorld c databases s)).1 = Throw error ->
  let r := onInit fuel E None (JsObject keys c) databases s in
  completion r = Normal tt
  /\ ui (shell r) = ui s ++ [DialogProgress "Initializing Database"]
  /\ exists w,
       dbManager r = Some w
       /\ ofType "database:ready" (dispatched (trace w)) = []
       /\ ofType "database:progress" (dispatched (trace w)) = [].
Proof.
  intros Hkeys Hd Hu Hthrow r. subst r.
  rewrite (onInit_launch fuel E keys c databases s Hkeys Hd Hu).
  cbn [completion shell dbManager].
  split; [reflexivity|].
  destruct (initializeThenPopulate_tail fuel E (launchWorld c databases s))
    as (events & Hev & _ & Hnone).
  rewrite (Hnone error Hthrow), app_nil_r in Hev. split.
  - rewrite deliverAll_ui, Hev, initializeDatabase_ui. cbn [ui call launchWorld trace].
    simpl. rewrite app_nil_r. reflexivity.
  - eexists. split; [reflexivity|]. rewrite Hev.
    clear Hev Hnone. revert Hthrow.
    unfold initializeDatabase. js_unfold. simpl.
    destruct (String.eqb (localeOrEn "dbLocale" s) (localeOrEn "userLocale" s)); simpl;
      [|destruct (deleteRequest E _); simpl];
      try (destruct (_ <=? _)%Z; simpl; [|destruct (schemaMissing _); simpl;
             [|destruct (openRequest E _); simpl]]);
      try discriminate; intros _; split; reflexivity.
Qed.

Lemma onInit_swallows_failure_witness :
  completion (onInit 1 Cases.openRefused None Cases.database ∅ Cases.firstVisit) = Normal tt
  /\ ui (shell (onInit 1 Cases.openRefused None Cases.database ∅ Cases.firstVisit))
     = [DialogProgress "Initializing Database"].
Proof.
  assert (Hkeys : ["name"; "version"; "tables"] <> @nil string) by discriminate.
  destruct (onInit_swallows_failure 1 Cases.openRefused ["name"; "version"; "tables"]
              Scenario.pokedex ∅ Cases.firstVisit
              (Error "DexieManager: Failed to initialize the database: DexieManager: Failed to connect to the database: The database could not be opened.")
              Hkeys eq_refl eq_refl) as (Hdone & Hui & _); [vm_compute; reflexivity|].
  split; [exact Hdone|exact Hui].
Defined.

(** ** The page [single-pokemon.html] *)

(** X26.  [generateResponseData] on what [JSON.parse] returned.  On
    [null] it throws the [TypeError] of reading [id].  On every other
    value, of whatever shape, it returns an entry: [id] and [name] are
    the members of that name ([undefined] when missing), and the image
    is the shiny sprite when that is truthy and the default sprite
    otherwise, [undefined] when that is missing too. *)
Theorem generateResponseData_outcome (j : SinglePokemon.Json) :
  let data := SinglePokemon.Of j in
  (j = SinglePokemon.JNull ->
     SinglePokemon.generateResponseData data = Throw (nullProperty "id"))
  /\ (j <> SinglePokemon.JNull ->
      exists e,
        SinglePokemon.generateResponseData data = Normal e
        /\ SinglePokemon.entry_id e = SinglePokemon.member j "id"
        /\ SinglePokemon.entry_name e = SinglePokemon.member j "name"
        /\ (SinglePokemon.truthyValue (SinglePokemon.frontShiny data) = true ->
            SinglePokemon.entry_image e = SinglePokemon.frontShiny data)
        /\ (SinglePokemon.truthyValue (SinglePokemon.frontShiny data) = false ->
            SinglePokemon.entry_image e = SinglePokemon.frontDefault data)).
Proof.
  cbv zeta. split.
  - intros ->. reflexivity.
  - intros Hj. unfold SinglePokemon.generateResponseData, SinglePokemon.orValue.
    destruct j; try congruence; simpl;
      (eexists; split; [reflexivity|]; split; [reflexivity|]; split; [reflexivity|];
       simpl; split; intros H; try rewrite H; try discriminate; reflexivity).
Qed.

Lemma loadEntry_final parse reply p :
  exists final,
    SinglePokemon.loadEntry parse reply p = [SinglePokemon.reset p; final]
    /\ SinglePokemon.loadingEntry final = false
    /\ (SinglePokemon.blocks final = [SinglePokemon.ApiErrorBlock]
        \/ SinglePokemon.blocks final = [SinglePokemon.NoEntryBlock]
        \/ exists e, SinglePokemon.blocks final = [SinglePokemon.EntryBlock e]).
Proof.
  unfold SinglePokemon.loadEntry. destruct reply as [data|].
  - unfold SinglePokemon.onResolved.
    destruct (SinglePokemon.hasData data) as [text|].
    + destruct (parse text) as [jsonData|error].
      * destruct (SinglePokemon.generateResponseData (SinglePokemon.Of jsonData))
          as [e|error|]; cbv zeta; eexists; (split; [reflexivity|]);
          (split; [reflexivity|]); eauto.
      * eexists. split; [reflexivity|]. split; [reflexivity|]. left. reflexivity.
    + eexists. split; [reflexivity|]. split; [reflexivity|]. right. left. reflexivity.
  - eexists. split; [reflexivity|]. split; [reflexivity|]. left. reflexivity.
Qed.

(** X27.  [loadEntry], whatever the page held before and however the
    request settles: [$update()] renders twice.  The first rendering
    shows the preloader alone.  The second shows exactly one block (the
    entry, the empty state or the error state) and no preloader.  What
    the page held before the call has no influence. *)
Theorem loadEntry_renders (parse : string -> SinglePokemon.Parsed)
    (reply : SinglePokemon.Reply) (p : SinglePokemon.Page) :
  exists final,
    SinglePokemon.loadEntry parse reply p = [SinglePokemon.reset p; final]
    /\ SinglePokemon.blocks (SinglePokemon.reset p) = [SinglePokemon.PreloaderBlock]
    /\ SinglePokemon.loadingEntry final = false
    /\ (SinglePokemon.blocks final = [SinglePokemon.ApiErrorBlock]
        \/ SinglePokemon.blocks final = [SinglePokemon.NoEntryBlock]
        \/ exists e, SinglePokemon.blocks final = [SinglePokemon.EntryBlock e])
    /\ (forall p', SinglePokemon.loadEntry parse reply p'
                   = SinglePokemon.loadEntry parse reply p).
Proof.
  destruct (loadEntry_final parse reply p) as (final & Hrun & Hloading & Hblocks).
  exists final. split; [exact Hrun|]. split; [reflexivity|].
  split; [exact Hloading|]. split; [exact Hblocks|]. reflexivity.
Qed.

(** X28.  What the second rendering of [loadEntry] shows.  A rejected
    request, or a body that [JSON.parse] rejects: the error state, with
    [entryLoaded] false.  No body or an empty one: the empty state.  A
    body that parses to a value other than [null]: the entry that
    [generateResponseData] makes of it, with [entryLoaded] true.  A body
    that parses to [null]: [generateResponseData] throws after
    [entryLoaded] was set, so the error state is shown while
    [entryLoaded] is true and no entry is held. *)
Theorem loadEntry_outcomes (parse : string -> SinglePokemon.Parsed) (p : SinglePokemon.Page) :
  let failedPage loaded :=
    {| SinglePokemon.entry := None;
       SinglePokemon.apiError := Some "An error occured while fetching data.";
       SinglePokemon.apiErrorEntry := true;
       SinglePokemon.entryLoaded := loaded;
       SinglePokemon.loadingEntry := false;
       SinglePokemon.noEntryFound := false |} in
  SinglePokemon.loadEntry parse SinglePokemon.Rejected p
    = [SinglePokemon.reset p; failedPage false]
  /\ (forall data,
        SinglePokemon.hasData data = None ->
        SinglePokemon.loadEntry parse (SinglePokemon.Resolved data) p
          = [SinglePokemon.reset p;
             {| SinglePokemon.entry := None; SinglePokemon.apiError := None;
                SinglePokemon.apiErrorEntry := false;
                SinglePokemon.entryLoaded := false;
                SinglePokemon.loadingEntry := false;
                SinglePokemon.noEntryFound := true |}])
  /\ (forall data text error,
        SinglePokemon.hasData data = Some text ->
        parse text = SinglePokemon.ParseThrows error ->
        SinglePokemon.loadEntry parse (SinglePokemon.Resolved data) p
          = [SinglePokemon.reset p; failedPage false])
  /\ (forall data text,
        SinglePokemon.hasData data = Some text ->
        parse text = SinglePokemon.ParsedJson SinglePokemon.JNull ->
        SinglePokemon.loadEntry parse (SinglePokemon.Resolved data) p
          = [SinglePokemon.reset p; failedPage true])
  /\ (forall data text j,
        SinglePokemon.hasData data = Some text ->
        parse text = SinglePokemon.ParsedJson j ->
        j <> SinglePokemon.JNull ->
        SinglePokemon.loadEntry parse (SinglePokemon.Resolved data) p
          = [SinglePokemon.reset p;
             {| SinglePokemon.entry :=
                  Some {| SinglePokemon.entry_id := SinglePokemon.member j "id";
                          SinglePokemon.entry_name := SinglePokemon.member j "name";
                          SinglePokemon.entry_image :=
                            SinglePokemon.orValue
                              (SinglePokemon.frontShiny (SinglePokemon.Of j))
                              (SinglePokemon.frontDefault (SinglePokemon.Of j)) |};
                SinglePokemon.apiError := None;
                SinglePokemon.apiErrorEntry := false;
                SinglePokemon.entryLoaded := true;
                SinglePokemon.loadingEntry := false;
                SinglePokemon.noEntryFound := false |}]).
Proof.
  cbv zeta. split; [reflexivity|]. split; [|split; [|split]].
  - intros data Hdata. unfold SinglePokemon.loadEntry, SinglePokemon.onResolved.
    rewrite Hdata. reflexivity.
  - intros data text error Hdata Hparse.
    unfold SinglePokemon.loadEntry, SinglePokemon.onResolved.
    rewrite Hdata, Hparse. reflexivity.
  - intros data text Hdata Hparse.
    unfold SinglePokemon.loadEntry, SinglePokemon.onResolved.
    rewrite Hdata, Hparse. reflexivity.
  - intros data text j Hdata Hparse Hj.
    unfold SinglePokemon.loadEntry, SinglePokemon.onResolved.
    rewrite Hdata, Hparse. destruct j; try congruence; reflexivity.
Qed.

(** * Failures stay inside their table *)

Lemma populateEmptyTables_for_app fuel E total : forall l1 l2 index w,
  populateEmptyTables_for fuel E total (l1 ++ l2) index w =
    match populateEmptyTables_for fuel E total l1 index w with
    | (Normal _, w1) => populateEmptyTables_for fuel E total l2 (index + length l1) w1
    | (Throw e, w1) => (Throw e, w1)
    | (Pending, w1) => (Pending, w1)
    end.
Proof.
  induction l1 as [|t l1 IH]; intros l2 index w.
  - simpl. rewrite Nat.add_0_r. reflexivity.
  - change ((t :: l1) ++ l2) with (t :: (l1 ++ l2)).
    rewrite !populateEmptyTables_for_cons.
    destruct (syncTable fuel E (Some t) w) as [[[]|e|] w1]; try reflexivity.
    rewrite IH. simpl length. rewrite Nat.add_succ_r. reflexivity.
Qed.

(** A run over tables that are bound and empty, but for one of them
    whose [syncTable] returns normally after it has [logged] something:
    the tables before it and the tables after it leave in the trace
    what they leave without it. *)
Lemma populateEmptyTables_for_around fuel E total d before failing after logged : forall w,
  db (this w) = Some d ->
  NoDup (map table_name (before ++ failing :: after)) ->
  (forall t, In t (before ++ failing :: after) -> rowCount w d t = 0%nat) ->
  bindsAll d (before ++ after) = true ->
  forallb (settles fuel E (this w)) (before ++ failing :: after) = true ->
  (forall w1,
     this w1 = this w ->
     rowCount w1 d failing = 0%nat ->
     syncTable fuel E (Some failing) w1 =
       (Normal tt,
        {| this := this w1; indexedDB := indexedDB w1; trace := trace w1 ++ logged |})) ->
  exists w',
    populateEmptyTables_for fuel E total (before ++ failing :: after) 1 w = (Normal tt, w')
    /\ trace w' = trace w
         ++ populationTrace fuel E (this w) total before 1
         ++ logged
         ++ Dispatch (progressEvent total (S (length before)) failing)
         :: populationTrace fuel E (this w) total after (S (S (length before))).
Proof.
  intros w Hd Hnodup Hempty Hb Hs Hsync.
  rewrite map_app in Hnodup. apply NoDup_app in Hnodup.
  destruct Hnodup as (Hnd1 & Hsep & Hnd2).
  simpl in Hnd2. apply NoDup_cons in Hnd2. destruct Hnd2 as [Hfresh Hnd2].
  unfold bindsAll in Hb. rewrite forallb_app in Hb. apply andb_true_iff in Hb.
  destruct Hb as [Hb1 Hb2].
  rewrite forallb_app in Hs. apply andb_true_iff in Hs. destruct Hs as [Hs1 Hs2].
  simpl in Hs2. apply andb_true_iff in Hs2. destruct Hs2 as [_ Hs2].
  rewrite populateEmptyTables_for_app.
  destruct (populateEmptyTables_for_trace fuel E total d before 1 w Hd Hb1 Hnd1)
    as (w1 & Hrun1 & Hthis1 & Htrace1 & Hrows1).
  { intros t Hin. apply Hempty. apply in_or_app. left. exact Hin. }
  { exact Hs1. }
  rewrite Hrun1.
  assert (Hkept : forall t, In t (failing :: after) -> rowCount w1 d t = 0%nat).
  { intros t Hin. unfold rowCount. rewrite Hrows1.
    - apply (Hempty t). apply in_or_app. right. exact Hin.
    - intros Hbefore. apply list_elem_of_In in Hbefore.
      apply (Hsep _ Hbefore). apply list_elem_of_In. apply in_map. exact Hin. }
  rewrite populateEmptyTables_for_cons.
  rewrite (Hsync w1 Hthis1 (Hkept failing (or_introl eq_refl))).
  match goal with |- context [populateEmptyTables_for _ _ _ after ?i ?W] =>
    set (w2 := W); set (index := i) end.
  assert (Hthis2 : this w2 = this w) by exact Hthis1.
  assert (Hd2 : db (this w2) = Some d) by (rewrite Hthis2; exact Hd).
  destruct (populateEmptyTables_for_trace fuel E total d after index w2 Hd2 Hb2 Hnd2)
    as (w' & Hrun2 & _ & Htrace2 & _).
  { intros t Hin. change (rowCount w2 d t) with (rowCount w1 d t).
    apply Hkept. right. exact Hin. }
  { rewrite Hthis2. exact Hs2. }
  exists w'. split; [exact Hrun2|].
  rewrite Htrace2, Hthis2. subst w2 index. cbn [trace record]. rewrite Htrace1.
  replace (S (1 + length before)) with (S (S (length before))) by reflexivity.
  replace (1 + length before)%nat with (S (length before)) by reflexivity.
  rewrite <- !app_assoc. reflexivity.
Qed.

(** C6, as the code has it.  With a handle in place, [syncTable] never
    throws: what fails inside it is caught and logged.  Against a remote
    whose cursor chains end within the fuel, [populateEmptyTables]
    therefore returns normally, has dispatched one progress event for
    each table of the list, in order, and [database:ready] last.  That
    the tables after a failing one are processed shows in the trace: on
    tables with distinct names and no rows that the handle binds (but,
    possibly, for the failing one), a table whose request throws leaves
    its request and the logged error, a table without table property
    leaves the logged [TypeError] of its count, and around that the
    tables before and the tables after leave their requests and progress
    events as they do when nothing fails. *)
Theorem populateEmptyTables_isolates_failures (fuel : nat) (E : Env)
    (tables : list Table) (w : World) (d : Dexie) :
  db (this w) = Some d ->
  forallb (settles fuel E (this w)) tables = true ->
  (forall table w1 e,
      db (this w1) <> None -> (syncTable fuel E table w1).1 <> Throw e)
  /\ exists w',
      populateEmptyTables fuel E tables w = (Normal tt, w')
      /\ dispatched (trace w') =
           dispatched (trace w) ++ progressEvents (length tables) tables 1 ++ [readyEvent]
      /\ forall before failing after,
           tables = before ++ failing :: after ->
           NoDup (map table_name tables) ->
           (forall t, In t tables -> rowCount w d t = 0%nat) ->
           bindsAll d (before ++ after) = true ->
           let total := length tables in
           let index := S (length before) in
           let rest :=
             Dispatch (progressEvent total index failing)
             :: populationTrace fuel E (this w) total after (S index)
             ++ [Dispatch readyEvent] in
           (forall e,
              is_Some (dexie_tables d !! table_name failing) ->
              remote E (fullUrlOf (this w) failing) = FetchThrows e ->
              trace w' = trace w
                ++ populationTrace fuel E (this w) total before 1
                ++ Fetch (fullUrlOf (this w) failing)
                :: ConsoleError (fetchErrorText failing) e :: rest)
           /\ (dexie_tables d !! table_name failing = None ->
               trace w' = trace w
                 ++ populationTrace fuel E (this w) total before 1
                 ++ ConsoleError (syncErrorText failing)
                                 (noTable d (table_name failing) "count") :: rest).
Proof.
  intros Hd Hs.
  assert (Hdb : db (this w) <> None) by (rewrite Hd; discriminate).
  split.
  { intros table w1 e Hdb1. apply syncTable_never_throws. exact Hdb1. }
  destruct (populateEmptyTables_run fuel E tables w Hdb Hs) as (w' & Hrun & _ & Hevents).
  exists w'. split; [exact Hrun|]. split; [exact Hevents|].
  intros before failing after Htables Hnodup Hempty Hb total index rest.
  assert (Hend : forall logged w1,
            populateEmptyTables_for fuel E total tables 1 w = (Normal tt, w1) ->
            trace w1 = trace w
              ++ populationTrace fuel E (this w) total before 1
              ++ logged
              ++ Dispatch (progressEvent total index failing)
              :: populationTrace fuel E (this w) total after (S index) ->
            trace w' = trace w
              ++ populationTrace fuel E (this w) total before 1 ++ logged ++ rest).
  { intros logged w1 Hfor Htrace. unfold populateEmptyTables, bind in Hrun.
    fold total in Hrun. rewrite Hfor in Hrun. injection Hrun as <-.
    unfold dispatchEvent, modify, record. cbn [snd trace]. rewrite Htrace.
    subst rest. rewrite <- !app_assoc. reflexivity. }
  subst tables. split.
  - intros e Hbound He.
    destruct (populateEmptyTables_for_around fuel E total d before failing after
                [Fetch (fullUrlOf (this w) failing); ConsoleError (fetchErrorText failing) e]
                w Hd Hnodup Hempty Hb Hs) as (w1 & Hfor & Htrace).
    { intros w1 Hthis1 Hzero.
      assert (Hd1 : db (this w1) = Some d) by (rewrite Hthis1; exact Hd).
      rewrite (syncTable_first_fetch_fails fuel E failing w1 d e Hd1 Hbound Hzero)
        by (rewrite Hthis1; exact He).
      unfold record. cbn [this indexedDB trace].
      rewrite <- app_assoc, Hthis1. reflexivity. }
    exact (Hend _ w1 Hfor Htrace).
  - intros Hnone.
    destruct (populateEmptyTables_for_around fuel E total d before failing after
                [ConsoleError (syncErrorText failing)
                              (noTable d (table_name failing) "count")]
                w Hd Hnodup Hempty Hb Hs) as (w1 & Hfor & Htrace).
    { intros w1 Hthis1 _.
      assert (Hd1 : db (this w1) = Some d) by (rewrite Hthis1; exact Hd).
      rewrite (syncTable_unbound fuel E w1 d failing Hd1 Hnone). reflexivity. }
    exact (Hend _ w1 Hfor Htrace).
Qed.

Lemma populateEmptyTables_isolates_failures_witness :
  exists w',
    populateEmptyTables 1 Scenario.healthy [Scenario.berries; Scenario.pokemon]
      Scenario.connected = (Normal tt, w')
    /\ trace w' = trace Scenario.connected
         ++ [Fetch "https://pokedex.test/api/en/berries";
             ConsoleError "DexieManager: Error fetching data for the table 'berries':"
                          Scenario.failedToFetch;
             Dispatch {| type := "database:progress";
                         detail := DetailProgress 1 2 "berries" (JsString "0.50") |};
             Fetch "https://pokedex.test/api/en/pokemon";
             Fetch "https://pokedex.test/api/en/pokemon?page=2";
             Dispatch {| type := "database:progress";
                         detail := DetailProgress 2 2 "pokemon" (JsString "1.00") |};
             Dispatch readyEvent].
Proof.
  assert (Hd : db (this Scenario.connected) = Some Scenario.handle)
    by (vm_compute; reflexivity).
  assert (Hs : forallb (settles 1 Scenario.healthy (this Scenario.connected))
                 [Scenario.berries; Scenario.pokemon] = true)
    by (vm_compute; reflexivity).
  destruct (populateEmptyTables_isolates_failures 1 Scenario.healthy
              [Scenario.berries; Scenario.pokemon] Scenario.connected Scenario.handle Hd Hs)
    as (_ & w' & Hrun & _ & Hsplit).
  exists w'. split; [exact Hrun|].
  destruct (Hsplit [] Scenario.berries [Scenario.pokemon] eq_refl) as [Hfails _].
  - repeat constructor; rewrite ?list_elem_of_In; simpl; intuition discriminate.
  - intros t [<-|[<-|[]]]; vm_compute; reflexivity.
  - vm_compute. reflexivity.
  - rewrite (Hfails Scenario.failedToFetch); [vm_compute; reflexivity|vm_compute; eauto|].
    vm_compute. reflexivity.
Defined.

Lemma fetchTable_endless fuel : forall t w,
  db (this w) = Some Scenario.handle ->
  locale (this w) = Some "en" ->
  table_name t = "pokemon" ->
  table_url t = table_url Scenario.pokemon ->
  (fetchTable fuel Cases.endless (Some t) w).1 = Pending.
Proof.
  assert (Hb : is_Some (dexie_tables Scenario.handle !! "pokemon")) by (vm_compute; eauto).
  assert (Hurl : forall t w, locale (this w) = Some "en" ->
            table_url t = table_url Scenario.pokemon ->
            remote Cases.endless (fullUrlOf (this w) t) = FetchData Cases.endlessPage).
  { intros t w Hl Hu. unfold fullUrlOf. rewrite Hl, Hu. vm_compute. reflexivity. }
  induction fuel as [|fuel IH]; intros t w Hd Hl Hname Hu.
  - rewrite fetchTable_unfold, Hd.
    unfold fetchPage, tryCatch, bind at 1, fetchJson, bind at 1, modify.
    rewrite (Hurl t w Hl Hu). unfold ret at 1. cbn [member Cases.endlessPage].
    unfold bind at 1.
    set (w1 := record (Fetch (fullUrlOf (this w) t)) w).
    assert (Hd1 : db (this w1) = Some Scenario.handle) by exact Hd.
    pose proof (forEachAdd_bound Scenario.handle (table_name t) [Scenario.bulbasaur] w1 Hd1)
      as Hadd.
    rewrite Hname in Hadd. destruct (Hadd Hb) as (Hn & _ & _). rewrite Hname.
    destruct (forEachAdd "pokemon" [Scenario.bulbasaur] w1) as [c w2]. cbn [fst] in Hn.
    subst c. reflexivity.
  - assert (Hbt : is_Some (dexie_tables Scenario.handle !! table_name t))
      by (rewrite Hname; exact Hb).
    rewrite (fetchTable_follows fuel Cases.endless t w Scenario.handle Cases.endlessPage
               Scenario.bulbasaur [] "/api/{locale}/pokemon" Hd Hbt (Hurl t w Hl Hu)
               eq_refl eq_refl).
    pose proof (quietM_forEachAdd (table_name t) [Scenario.bulbasaur]
                  (record (Fetch (fullUrlOf (this w) t)) w)) as (Hthis & _).
    apply IH.
    + rewrite Hthis. exact Hd.
    + rewrite Hthis. exact Hl.
    + exact Hname.
    + cbn [nextPage table_url]. rewrite Hu. reflexivity.
Qed.

(** C6 as it is stated fails against a remote whose cursor chain does
    not end.  In the run over [berries], [pokemon] and [moves] the
    request of [berries] throws: that failure is caught, and [berries]
    gets its progress event.  But the page of [pokemon] names itself as
    the next page, so the run never gets past [pokemon]: however many
    pages it is given, it has not returned, [moves] is not processed and
    [database:ready] is not dispatched. *)
Lemma populateEmptyTables_endless_chain :
  db (this Scenario.connected) = Some Scenario.handle
  /\ remote Cases.endless (fullUrlOf (this Scenario.connected) Scenario.berries)
     = FetchThrows Scenario.failedToFetch
  /\ ofType "database:ready" (dispatched (trace Scenario.connected)) = []
  /\ forall fuel,
       (populateEmptyTables fuel Cases.endless
          [Scenario.berries; Scenario.pokemon; Cases.moves] Scenario.connected).1 = Pending
       /\ dispatched (trace (populateEmptyTables fuel Cases.endless
                               [Scenario.berries; Scenario.pokemon; Cases.moves]
                               Scenario.connected).2)
          = dispatched (trace Scenario.connected) ++ [progressEvent 3 1 Scenario.berries].
Proof.
  assert (Hd : db (this Scenario.connected) = Some Scenario.handle)
    by (vm_compute; reflexivity).
  assert (Hfails : remote Cases.endless (fullUrlOf (this Scenario.connected) Scenario.berries)
                   = FetchThrows Scenario.failedToFetch) by (vm_compute; reflexivity).
  split; [exact Hd|]. split; [exact Hfails|]. split; [vm_compute; reflexivity|].
  intros fuel.
  assert (Hbb : is_Some (dexie_tables Scenario.handle !! table_name Scenario.berries))
    by (vm_compute; eauto).
  assert (Hbp : is_Some (dexie_tables Scenario.handle !! table_name Scenario.pokemon))
    by (vm_compute; eauto).
  assert (Hzb : rowCount Scenario.connected Scenario.handle Scenario.berries = 0%nat)
    by (vm_compute; reflexivity).
  unfold populateEmptyTables, bind. rewrite populateEmptyTables_for_cons.
  rewrite (syncTable_first_fetch_fails fuel Cases.endless Scenario.berries Scenario.connected
             Scenario.handle Scenario.failedToFetch Hd Hbb Hzb Hfails).
  match goal with |- context [populateEmptyTables_for _ _ _ _ _ ?W] => set (w2 := W) end.
  assert (Hd2 : db (this w2) = Some Scenario.handle) by exact Hd.
  assert (Hl2 : locale (this w2) = Some "en") by (vm_compute; reflexivity).
  assert (Hz2 : rowCount w2 Scenario.handle Scenario.pokemon = 0%nat)
    by (vm_compute; reflexivity).
  assert (Hev2 : dispatched (trace w2)
                 = dispatched (trace Scenario.connected) ++ [progressEvent 3 1 Scenario.berries])
    by (vm_compute; reflexivity).
  pose proof (fetchTable_endless fuel Scenario.pokemon w2 Hd2 Hl2 eq_refl eq_refl)
    as Hpending.
  pose proof (quietM_syncTable fuel Cases.endless (Some Scenario.pokemon) w2)
    as (_ & Hev & _).
  rewrite populateEmptyTables_for_cons.
  assert (Hsync : (syncTable fuel Cases.endless (Some Scenario.pokemon) w2).1 = Pending).
  { rewrite (syncTable_empty_table fuel Cases.endless Scenario.pokemon w2
               Scenario.handle Hd2 Hbp Hz2).
    unfold tryCatch.
    destruct (fetchTable fuel Cases.endless (Some Scenario.pokemon) w2) as [c w3].
    cbn [fst] in Hpending. subst c. reflexivity. }
  destruct (syncTable fuel Cases.endless (Some Scenario.pokemon) w2) as [c w3].
  cbn [fst snd] in *. subst c. split; [reflexivity|].
  etransitivity; [exact Hev|exact Hev2].
Qed.
